(** * SDI-Manager: the topology view and the mock topology generator

    Shallow embedding of
    - src/types.ts (Device, Link, Alarm, TopologyData),
    - src/services/mockData.ts (generateDeviceStatus,
      generateTopologyFromConfig, generateMockAlarms),
    - src/components/TopologyGraph.tsx, in its three revisions: the two
      kept in that file and the intermediate one with [safeNodes] and
      [setZoomLevel],
    - the list of connections of src/components/NodeDetailsPanel.tsx,
    together with a model of the parts of d3 the component drives:
    d3-force (simulation, link force), d3-drag (the mouse gesture),
    d3-zoom (the scale extent) and the data joins of d3-selection.

    Conventions.
    - JavaScript numbers are rationals [Q] (coordinates, alpha, scale
      factors) and integers [Z] where the code floors them; the forces
      and the start placement, which need square roots and cosines, are
      parameters.  Where a result depends on the last bits of a number,
      the binary64 arithmetic is followed (module [Number]): the random
      numbers of mockData.ts are doubles, the literals they are compared
      with and the products that are floored are rounded as JavaScript
      rounds them, and the decay rate of d3-force is the double d3
      computes.  The other decimal literals (0.3, 0.1, 0.001) are read
      as the fractions they name; no statement depends on their last
      bits.
    - JavaScript objects with identity live in a store; an address is an
      index into the store.
    - A thrown exception is the [Throw] result of a call.

    Layout: the model, the vocabulary of the theorems, a small data set,
    then the theorems, one module per subject. *)

From Stdlib Require Import QArith Qpower Qround Qminmax ZArith Lia Lqa.
From stdpp Require Import base option list strings pretty.

Local Open Scope string_scope.
Local Open Scope Z_scope.
Local Open Scope list_scope.

(* ===================================================================== *)
(** * src/types.ts *)
(* ===================================================================== *)

(** [enum DeviceStatus] and [enum DeviceType] are string enums; at run
    time a value of these types is the string itself, and data decoded
    from JSON may carry any string. *)
Module DeviceStatus.
Definition ONLINE : string := "ONLINE".
Definition OFFLINE : string := "OFFLINE".
Definition WARNING : string := "WARNING".
End DeviceStatus.

Module DeviceType.
Definition ROUTER : string := "ROUTER".
Definition SWITCH : string := "SWITCH".
Definition SERVER : string := "SERVER".
Definition FIREWALL : string := "FIREWALL".
End DeviceType.

Record NetconfDeviceConfig := mkConfig {
  cfg_id : string;
  cfg_name : string;
  cfg_ip : string;
  cfg_port : Z;
  cfg_username : string;
  cfg_password : option string;
  cfg_type : string
}.

Record Device := mkDevice {
  config : NetconfDeviceConfig;      (* [...config] *)
  status : string;
  uptime : string;
  cpuLoad : Z;
  memoryUsage : Z
}.

Definition id (d : Device) : string := cfg_id (config d).
Definition name (d : Device) : string := cfg_name (config d).
Definition type (d : Device) : string := cfg_type (config d).

Module Link.
Record t := mk {
  source : string;
  target : string;
  bandwidth : string;
  status : string;                 (* 'UP' | 'DOWN' *)
  label : option string
}.
End Link.

Record TopologyData := mkTopology {
  nodes : list Device;
  links : list Link.t
}.

(* ===================================================================== *)
(** * JavaScript helpers *)
(* ===================================================================== *)

(** [a > b] on numbers. *)
Definition Qgtb (a b : Q) : bool := negb (Qle_bool a b).

(** [arr[i]] for a number [i] that is an integer: [None] is [undefined]. *)
Definition js_index {A} (arr : list A) (i : Z) : option A :=
  if i <? 0 then None else arr !! Z.to_nat i.

(** The result of a call that may throw. *)
Inductive Result (A : Type) : Type :=
  | Ok (a : A)
  | Throw (msg : string).
Arguments Ok {A} a.
Arguments Throw {A} msg.

(** What an observer [f] sees of a result, if there is one. *)
Definition observe {A B} (f : A -> B) (r : Result A) : option B :=
  match r with
  | Ok a => Some (f a)
  | Throw _ => None
  end.

(** ** Numbers

    A Number is an IEEE 754 binary64 value.  The finite ones are the
    rationals [m * 2^e] with [|m| < 2^53] and [-1074 <= e <= 971]. *)
Module Number.

Local Open Scope Q_scope.

Definition is_double (q : Q) : Prop :=
  exists m e : Z,
    (Z.abs m < 2 ^ 53)%Z /\ (-1074 <= e <= 971)%Z /\ q == inject_Z m * 2 ^ e.

(** The binary exponent of a positive rational: [2^e <= q < 2^(e+1)]. *)
Definition log2_floor (q : Q) : Z :=
  let e := (Z.log2 (Qnum q) - Z.log2 (Zpos (Qden q)))%Z in
  if Qle_bool (2 ^ e) q then e else (e - 1)%Z.

(** The exponent of the unit in the last place of the doubles around
    [q]: 52 below the binary exponent, which does not go below -1022
    (the subnormal numbers). *)
Definition quantum (q : Q) : Z := (Z.max (log2_floor q) (-1022) - 52)%Z.

(** The nearest integer, a tie going to the even one. *)
Definition nearest_even (q : Q) : Z :=
  let f := Qfloor q in
  match Qcompare (q - inject_Z f) (1 # 2) with
  | Lt => f
  | Gt => (f + 1)%Z
  | Eq => if Z.even f then f else (f + 1)%Z
  end.

Definition round_pos (q : Q) : Q :=
  inject_Z (nearest_even (q / 2 ^ quantum q)) * 2 ^ quantum q.

(** The double a real result is rounded to (round to nearest, ties to
    even).  Nothing here comes near [2^1024], where the result would be
    [Infinity]. *)
Definition round (q : Q) : Q :=
  match Qcompare q 0 with
  | Eq => 0
  | Gt => round_pos q
  | Lt => - round_pos (- q)
  end.

(** A decimal literal, and [a * b]; comparisons of doubles are exact. *)
Definition lit (q : Q) : Q := round q.
Definition mul (a b : Q) : Q := round (a * b).

End Number.

(* ===================================================================== *)
(** * TopologyGraph.tsx: colours *)
(* ===================================================================== *)

(** [getStatusColor], identical in every revision of the component. *)
Definition getStatusColor (st : string) : string :=
  if bool_decide (st = DeviceStatus.ONLINE) then "#10b981"
  else if bool_decide (st = DeviceStatus.WARNING) then "#f59e0b"
  else if bool_decide (st = DeviceStatus.OFFLINE) then "#ef4444"
  else "#64748b".

(** [.attr("stroke", d => d.status === 'DOWN' ? '#ef4444' : '#475569')] *)
Definition linkStroke (st : string) : string :=
  if bool_decide (st = "DOWN") then "#ef4444" else "#475569".

(* ===================================================================== *)
(** * src/services/mockData.ts *)
(* ===================================================================== *)

Module MockData.

Section WithRandom.

(** [Math.random()]: the [k]-th call of a run returns the double
    [rnd k]. *)
Variable rnd : nat -> Q.

(** A computation that draws random numbers: the number of calls made
    so far is threaded through. *)
Definition Rand (A : Type) : Type := nat -> A * nat.

Definition ret {A} (a : A) : Rand A := fun k => (a, k).
Definition bind {A B} (m : Rand A) (f : A -> Rand B) : Rand B :=
  fun k => let '(a, k') := m k in f a k'.
Definition random : Rand Q := fun k => (rnd k, S k).

Notation "'let*' x := m 'in' f" := (bind m (fun x => f))
  (at level 10, x name, m at level 100, f at level 200, only parsing).

(** [Math.floor(Math.random() * n)] *)
Definition randomBelow (n : Z) : Rand Z :=
  let* r := random in ret (Qfloor (Number.mul r (inject_Z n))).

Definition generateDeviceStatus (cfg : NetconfDeviceConfig) : Rand Device :=
  let* r := random in
  let isOffline := Qgtb r (Number.lit (9 # 10)) in
  let* isWarning := (if isOffline then ret false
                else let* r' := random in
                     ret (Qgtb r' (Number.lit (8 # 10)))) in
  let status :=
    if isOffline then DeviceStatus.OFFLINE
    else if isWarning then DeviceStatus.WARNING
    else DeviceStatus.ONLINE in
  let* uptime := (if isOffline then ret "0d"
             else let* d := randomBelow 100 in
                  let* h := randomBelow 24 in
                  ret (pretty d +:+ "d " +:+ pretty h +:+ "h")) in
  let* cpuLoad := (if isOffline then ret 0
              else randomBelow (if isWarning then 100 else 60)) in
  let* memoryUsage := (if isOffline then ret 0 else randomBelow 90) in
  ret (mkDevice cfg status uptime cpuLoad memoryUsage).

(** [configs.map(generateDeviceStatus)] *)
Fixpoint mapM {A B} (f : A -> Rand B) (l : list A) : Rand (list B) :=
  match l with
  | [] => ret []
  | a :: l' => let* b := f a in let* bs := mapM f l' in ret (b :: bs)
  end.

(** One iteration of the [for] loop; [acc] is [links] so far.  Reading a
    field of [undefined] throws. *)
Definition ringStep (nodes : list Device) (acc : list Link.t) (i : nat)
  : Rand (Result (list Link.t)) :=
  let n := Z.of_nat (length nodes) in
  match nodes !! i with
  | None => ret (Throw "TypeError")
  | Some source0 =>
    let targetIndex := (Z.of_nat i + 1) mod n in
    match js_index nodes targetIndex with
    | None => ret (Throw "TypeError")
    | Some target0 =>
      let* rb := random in
      let acc1 := acc ++
        [ Link.mk (id source0) (id target0)
                 (if Qgtb rb (Number.lit (1 # 2)) then "10Gbps" else "1Gbps")
                 (if bool_decide (status source0 = DeviceStatus.OFFLINE)
                     || bool_decide (status target0 = DeviceStatus.OFFLINE)
                  then "DOWN" else "UP")
                 None ] in
      if 3 <? n then
        let* rm := random in
        if Qgtb rm (Number.lit (7 # 10)) then
          let* j := randomBelow n in
          match js_index nodes j with
          | None => ret (Throw "TypeError")
          | Some randomTarget =>
            if negb (bool_decide (id randomTarget = id source0))
               && negb (bool_decide (id randomTarget = id target0))
            then ret (Ok (acc1 ++
                   [ Link.mk (id source0) (id randomTarget) "40Gbps" "UP" None ]))
            else ret (Ok acc1)
          end
        else ret (Ok acc1)
      else ret (Ok acc1)
    end
  end.

(** [for (let i = ...; i < nodes.length; i++)], as a loop over the
    remaining indices. *)
Fixpoint ringLoop (nodes : list Device) (idxs : list nat) (acc : list Link.t)
  : Rand (Result (list Link.t)) :=
  match idxs with
  | [] => ret (Ok acc)
  | i :: rest =>
    let* r := ringStep nodes acc i in
    match r with
    | Ok acc' => ringLoop nodes rest acc'
    | Throw m => ret (Throw m)
    end
  end.

Definition generateTopologyFromConfig (configs : list NetconfDeviceConfig)
  : Rand (Result TopologyData) :=
  let* nodes := mapM generateDeviceStatus configs in
  if 1 <? Z.of_nat (length nodes) then
    let* r := ringLoop nodes (seq 0 (length nodes)) [] in
    match r with
    | Ok links => ret (Ok (mkTopology nodes links))
    | Throw m => ret (Throw m)
    end
  else ret (Ok (mkTopology nodes [])).

End WithRandom.

End MockData.

(** [DEFAULT_DEVICES], the initial configuration. *)
Definition DEFAULT_DEVICES : list NetconfDeviceConfig :=
  [ mkConfig "core-01" "Core-Router-01" "192.168.10.1" 830 "admin" None
             "ROUTER";
    mkConfig "sw-01" "Dist-Switch-01" "192.168.10.2" 830 "admin" None
             "SWITCH";
    mkConfig "sw-02" "Access-Switch-01" "192.168.10.3" 830 "admin" None
             "SWITCH" ].

(** ** Alarms *)

Module AlarmSeverity.
Definition CRITICAL : string := "CRITICAL".
Definition MAJOR : string := "MAJOR".
Definition MINOR : string := "MINOR".
Definition WARNING : string := "WARNING".
End AlarmSeverity.

Module Alarm.
Record t := mk {
  id : string;
  deviceId : string;
  deviceName : string;
  severity : string;
  message : string;
  timestamp : string
}.
End Alarm.

Module MockAlarms.

(** What the generator reads from outside: how many random numbers and
    how many dates have been taken so far. *)
Record World := mkWorld {
  randoms : nat;
  dates : nat
}.

Section WithWorld.

(** [Math.random()], as in the topology generator. *)
Variable rnd : nat -> Q.
(** [n.toString(36)] for the numbers [Math.random] returns. *)
Variable toString36 : Q -> string.
(** [new Date().toISOString()]: the [k]-th date taken is [now k]. *)
Variable now : nat -> string.

Definition Gen (A : Type) : Type := World -> A * World.

Definition ret {A} (a : A) : Gen A := fun w => (a, w).
Definition bind {A B} (m : Gen A) (f : A -> Gen B) : Gen B :=
  fun w => let '(a, w') := m w in f a w'.

Notation "'let*' x := m 'in' f" := (bind m (fun x => f))
  (at level 10, x name, m at level 100, f at level 200, only parsing).

(** [`alm-${Math.random().toString(36).substr(2, 9)}`] *)
Definition alarmId : Gen string :=
  fun w => ("alm-" +:+ String.substring 2 9 (toString36 (rnd (randoms w))),
            mkWorld (S (randoms w)) (dates w)).

Definition timestamp : Gen string :=
  fun w => (now (dates w), mkWorld (randoms w) (S (dates w))).

(** The callback of [devices.forEach]; [alarms] is the array so far. *)
Definition pushAlarm (alarms : list Alarm.t) (device : Device)
  : Gen (list Alarm.t) :=
  if bool_decide (status device = DeviceStatus.OFFLINE) then
    let* i := alarmId in
    let* ts := timestamp in
    ret (alarms ++
         [ Alarm.mk i (id device) (name device) AlarmSeverity.CRITICAL
                    "NETCONF Connection Failed: Host Unreachable" ts ])
  else if bool_decide (status device = DeviceStatus.WARNING)
          || (80 <? cpuLoad device) then
    let* i := alarmId in
    let* ts := timestamp in
    ret (alarms ++
         [ Alarm.mk i (id device) (name device) AlarmSeverity.MAJOR
                    ("High CPU Utilization (" +:+ pretty (cpuLoad device)
                     +:+ "%)") ts ])
  else ret alarms.

Fixpoint forEach (devices : list Device) (alarms : list Alarm.t)
  : Gen (list Alarm.t) :=
  match devices with
  | [] => ret alarms
  | device :: rest =>
    let* alarms' := pushAlarm alarms device in forEach rest alarms'
  end.

Definition generateMockAlarms (devices : list Device) : Gen (list Alarm.t) :=
  forEach devices [].

End WithWorld.

End MockAlarms.

(* ===================================================================== *)
(** * The object store *)
(* ===================================================================== *)

(** An address is an index into the store. *)
Abbreviation addr := nat (only parsing).

(** A node object as d3-force sees it: the fields of a [Device] and the
    fields the simulation adds.  [None] is [undefined] (or [null]). *)
Module Node.
Record t := mk {
  dev : Device;
  index : option nat;
  x : option Q;  y : option Q;
  vx : option Q; vy : option Q;
  fx : option Q; fy : option Q
}.
Definition of_device (d : Device) : t :=
  mk d None None None None None None None.
Definition set_index (i : nat) (n : t) : t :=
  mk (dev n) (Some i) (x n) (y n) (vx n) (vy n) (fx n) (fy n).
Definition set_pos (x' y' : option Q) (n : t) : t :=
  mk (dev n) (index n) x' y' (vx n) (vy n) (fx n) (fy n).
Definition set_vel (vx' vy' : option Q) (n : t) : t :=
  mk (dev n) (index n) (x n) (y n) vx' vy' (fx n) (fy n).
Definition set_pin (fx' fy' : option Q) (n : t) : t :=
  mk (dev n) (index n) (x n) (y n) (vx n) (vy n) fx' fy'.
End Node.

(** A link object.  The caller writes ids in [source] and [target]; the
    link force overwrites them with references to node objects. *)
Inductive Endpoint :=
  | EId (s : string)
  | ERef (a : addr).

Module LinkDatum.
Record t := mk {
  source : Endpoint;
  target : Endpoint;
  bandwidth : string;
  status : string;
  label : option string;
  index : option nat
}.
Definition of_link (l : Link.t) : t :=
  mk (EId (Link.source l)) (EId (Link.target l)) (Link.bandwidth l)
     (Link.status l) (Link.label l) None.
Definition set_index (i : nat) (l : t) : t :=
  mk (source l) (target l) (bandwidth l) (status l) (label l) (Some i).
Definition set_source (e : Endpoint) (l : t) : t :=
  mk e (target l) (bandwidth l) (status l) (label l) (index l).
Definition set_target (e : Endpoint) (l : t) : t :=
  mk (source l) e (bandwidth l) (status l) (label l) (index l).
End LinkDatum.

Record Store := mkStore {
  node_objs : list Node.t;
  link_objs : list LinkDatum.t
}.

Definition update_node (a : addr) (f : Node.t -> Node.t) (s : Store) : Store :=
  mkStore (alter f a (node_objs s)) (link_objs s).
Definition update_link (a : addr) (f : LinkDatum.t -> LinkDatum.t) (s : Store)
  : Store :=
  mkStore (node_objs s) (alter f a (link_objs s)).

(** [arr.map(o => ({...o}))]: one fresh object per element, with the same
    own fields.  Returns the addresses of the copies. *)
Definition spread_nodes (arr : list addr) (s : Store) : list addr * Store :=
  let objs := omap (fun a => node_objs s !! a) arr in
  (seq (length (node_objs s)) (length objs),
   mkStore (node_objs s ++ objs) (link_objs s)).
Definition spread_links (arr : list addr) (s : Store) : list addr * Store :=
  let objs := omap (fun a => link_objs s !! a) arr in
  (seq (length (link_objs s)) (length objs),
   mkStore (node_objs s) (link_objs s ++ objs)).

(* ===================================================================== *)
(** * d3-force *)
(* ===================================================================== *)

(** The library is not part of the repository; the model follows the
    sources of d3-force 3 (simulation.js, link.js), as far as the
    component uses them. *)
Module Force.

(** The parameters the component gives to the four forces. *)
Record Config := mkConfig {
  distance : Q;            (* forceLink().distance(..) *)
  strength : Q;            (* forceManyBody().strength(..) *)
  center : Q * Q;          (* forceCenter(width / 2, height / 2) *)
  radius : Q               (* forceCollide().radius(..) *)
}.

(** Position and velocity of one node, as the forces read and write
    them. *)
Record Kin := mkKin { kx : Q; ky : Q; kvx : Q; kvy : Q }.

Record Simulation := mkSim {
  nodes : list addr;
  links : list addr;       (* of the link force *)
  config : Config;
  alpha : Q;
  alphaTarget : Q;
  running : bool;          (* the timer [stepper] is scheduled *)
  on_tick : bool;          (* a "tick" listener is registered *)
  ticks : nat              (* how often the "tick" listener was called *)
}.

Definition alphaMin : Q := 1 # 1000.
(** [1 - Math.pow(alphaMin, 1 / 300)]: the double 0.02276277904418933,
    which is 6407152701333 / 2^48 (d3 documents it as 0.0228). *)
Definition alphaDecay : Q := 6407152701333 # 281474976710656.
(** d3 stores [1 - 0.4]. *)
Definition velocityDecay : Q := 6 # 10.

Definition set_alphaTarget (a : Q) (s : Simulation) : Simulation :=
  mkSim (nodes s) (links s) (config s) (alpha s) a (running s) (on_tick s)
        (ticks s).
Definition set_alpha (a : Q) (s : Simulation) : Simulation :=
  mkSim (nodes s) (links s) (config s) a (alphaTarget s) (running s)
        (on_tick s) (ticks s).
Definition set_running (b : bool) (s : Simulation) : Simulation :=
  mkSim (nodes s) (links s) (config s) (alpha s) (alphaTarget s) b
        (on_tick s) (ticks s).
Definition set_links (ls : list addr) (c : Config) (s : Simulation)
  : Simulation :=
  mkSim (nodes s) ls c (alpha s) (alphaTarget s) (running s) (on_tick s)
        (ticks s).
Definition listen_tick (s : Simulation) : Simulation :=
  mkSim (nodes s) (links s) (config s) (alpha s) (alphaTarget s) (running s)
        true (ticks s).
Definition count_tick (s : Simulation) : Simulation :=
  mkSim (nodes s) (links s) (config s) (alpha s) (alphaTarget s) (running s)
        (on_tick s) (S (ticks s)).

(** [simulation.stop()] and [simulation.restart()]. *)
Definition stop : Simulation -> Simulation := set_running false.
Definition restart : Simulation -> Simulation := set_running true.

Section WithPhysics.

(** The sum of the link, charge, centre and collision forces for one
    tick: from alpha, the kinematic state of every node and the links
    as pairs of node indices to the state the forces leave.  The
    arithmetic (square roots, the quadtree, the jiggle) is left
    abstract. *)
Variable forces : Config -> Q -> list Kin -> list (nat * nat) -> list Kin.

(** The phyllotaxis placement of the [i]-th node: radius
    [10 * sqrt(0.5 + i)] at angle [i * pi * (3 - sqrt 5)]. *)
Variable phyllotaxis : nat -> Q * Q.

(** [initializeNodes], for the node [i] of the array. *)
Definition initializeNode (i : nat) (n : Node.t) : Node.t :=
  let n := Node.set_index i n in
  let n := match Node.fx n with
           | Some v => Node.set_pos (Some v) (Node.y n) n
           | None => n end in
  let n := match Node.fy n with
           | Some v => Node.set_pos (Node.x n) (Some v) n
           | None => n end in
  let n := match Node.x n, Node.y n with
           | Some _, Some _ => n
           | _, _ => let '(px, py) := phyllotaxis i in
                     Node.set_pos (Some px) (Some py) n
           end in
  match Node.vx n, Node.vy n with
  | Some _, Some _ => n
  | _, _ => Node.set_vel (Some 0%Q) (Some 0%Q) n
  end.

Fixpoint initializeNodes (i : nat) (ns : list addr) (s : Store) : Store :=
  match ns with
  | [] => s
  | a :: ns' => initializeNodes (S i) ns' (update_node a (initializeNode i) s)
  end.

(** [forceSimulation(nodes)]: alpha 1, alphaTarget 0, the timer
    started, no force and no listener yet. *)
Definition forceSimulation (ns : list addr) (s : Store)
  : Simulation * Store :=
  (mkSim ns [] (mkConfig 0 0 (0%Q, 0%Q) 0) 1 0 true false 0,
   initializeNodes 0 ns s).

(** [new Map(nodes.map((d, i) => [id(d, i, nodes), d]))] with the
    accessor [d => d.id]; a later node replaces an earlier one that
    has the same id. *)
Definition nodeById (ns : list addr) (s : Store) : list (string * addr) :=
  omap (fun a => (fun n => (id (Node.dev n), a)) <$> node_objs s !! a) ns.

(** [find(nodeById, nodeId)], which throws when the id is unknown. *)
Definition find (m : list (string * addr)) (nodeId : string)
  : Result addr :=
  match list_find (fun kv => kv.1 = nodeId) (reverse m) with
  | Some (_, (_, a)) => Ok a
  | None => Throw ("node not found: " +:+ nodeId)
  end.

(** [if (typeof link.source !== "object") link.source = find(..)]. *)
Definition resolve (m : list (string * addr)) (e : Endpoint)
  : Result Endpoint :=
  match e with
  | ERef a => Ok (ERef a)
  | EId s => match find m s with
             | Ok a => Ok (ERef a)
             | Throw msg => Throw msg
             end
  end.

(** The loop of the link force's [initialize] over [links], from
    index [i]. *)
Fixpoint initializeLinks (m : list (string * addr)) (i : nat)
    (ls : list addr) (s : Store) : Result Store :=
  match ls with
  | [] => Ok s
  | a :: ls' =>
    match link_objs s !! a with
    | None => initializeLinks m (S i) ls' s
    | Some l =>
      match resolve m (LinkDatum.source l) with
      | Throw msg => Throw msg
      | Ok src =>
        match resolve m (LinkDatum.target l) with
        | Throw msg => Throw msg
        | Ok tgt =>
          let l' := LinkDatum.set_target tgt
                      (LinkDatum.set_source src
                         (LinkDatum.set_index i l)) in
          initializeLinks m (S i) ls' (update_link a (fun _ => l') s)
        end
      end
    end
  end.

(** [simulation.force("link", forceLink(links).id(d => d.id)...)] and
    the three forces that only carry parameters. *)
Definition withForces (c : Config) (ls : list addr) (sim : Simulation)
    (s : Store) : Result (Simulation * Store) :=
  match initializeLinks (nodeById (nodes sim) s) 0 ls s with
  | Throw msg => Throw msg
  | Ok s' => Ok (set_links ls c sim, s')
  end.

(** What the forces read. *)
Definition kin_of (n : Node.t) : Kin :=
  mkKin (default 0%Q (Node.x n)) (default 0%Q (Node.y n))
        (default 0%Q (Node.vx n)) (default 0%Q (Node.vy n)).

Definition index_of (s : Store) (e : Endpoint) : nat :=
  match e with
  | ERef a => default 0%nat (node_objs s !! a ≫= Node.index)
  | EId _ => 0%nat
  end.

Definition link_pairs (ls : list addr) (s : Store) : list (nat * nat) :=
  omap (fun a => (fun l => (index_of s (LinkDatum.source l),
                            index_of s (LinkDatum.target l)))
                 <$> link_objs s !! a) ls.

(** The position update at the end of [tick], for one node whose
    state after the forces is [k]:
    [if (node.fx == null) node.x += node.vx *= velocityDecay;
    else node.x = node.fx, node.vx = 0;] and the same for [y]. *)
Definition integrate (k : Kin) (n : Node.t) : Node.t :=
  let '(x', vx') := match Node.fx n with
                    | None => let v := (kvx k * velocityDecay)%Q in
                              ((kx k + v)%Q, v)
                    | Some f => (f, 0%Q)
                    end in
  let '(y', vy') := match Node.fy n with
                    | None => let v := (kvy k * velocityDecay)%Q in
                              ((ky k + v)%Q, v)
                    | Some f => (f, 0%Q)
                    end in
  Node.set_vel (Some vx') (Some vy') (Node.set_pos (Some x') (Some y') n).

Fixpoint integrateAll (ns : list addr) (ks : list Kin) (s : Store)
  : Store :=
  match ns, ks with
  | a :: ns', k :: ks' => integrateAll ns' ks' (update_node a (integrate k) s)
  | a :: ns', [] =>
      integrateAll ns' []
        (update_node a (fun n => integrate (kin_of n) n) s)
  | [], _ => s
  end.

(** [simulation.tick()]. *)
Definition tick (sim : Simulation) (s : Store) : Simulation * Store :=
  let a := (alpha sim + (alphaTarget sim - alpha sim) * alphaDecay)%Q in
  let ks := omap (fun a => kin_of <$> node_objs s !! a) (nodes sim) in
  let ks' := forces (config sim) a ks (link_pairs (links sim) s) in
  (set_alpha a sim, integrateAll (nodes sim) ks' s).

(** After the listeners ran, [step] stops the timer once alpha is
    below [alphaMin]. *)
Definition settle (sim : Simulation) : Simulation :=
  if Qlt_le_dec (alpha sim) alphaMin then stop sim else sim.

End WithPhysics.

End Force.

(* ===================================================================== *)
(** * d3-drag *)
(* ===================================================================== *)

(** After drag.js of d3-drag 3: the mouse gesture, the events it hands
    to the listeners, and the flag that makes it swallow the click that
    follows a drag. *)
Module Drag.

Local Open Scope Q_scope.

(** A mouse event: the client coordinates and [pointer(event,
    container)], the same point in the coordinates of the container of
    the dragged element. *)
Record MouseEvent := mkMouse {
  clientX : Q;
  clientY : Q;
  pointer : Q * Q
}.

(** What [beforestart] closes over: the subject and the offset between
    the subject and the pointer when the gesture began. *)
Record Gesture := mkGesture {
  subject : addr;
  dx : Q;
  dy : Q
}.

(** The state of one drag behaviour ([d3Drag()]). *)
Record Behavior := mkBehavior {
  active : nat;
  mousemoving : bool;
  mousedownx : Q;
  mousedowny : Q;
  mouse : option Gesture         (* gestures.mouse *)
}.

Definition init : Behavior := mkBehavior 0 false 0 0 None.

(** The event handed to the "start", "drag" and "end" listeners. *)
Record DragEvent := mkEvent {
  ev_subject : addr;
  ev_active : nat;
  ev_x : Q;
  ev_y : Q
}.

(** The default [clickDistance] is 0; the component does not change
    it. *)
Definition clickDistance2 : Q := 0.

(** [dx = s.x - p[0] || 0], with the datum of the element as the
    subject. *)
Definition beforestart (s : addr) (n : Node.t) (p : Q * Q) : Gesture :=
  mkGesture s
    (match Node.x n with Some sx => sx - p.1 | None => 0 end)
    (match Node.y n with Some sy => sy - p.2 | None => 0 end).

Definition event_at (g : Gesture) (n : nat) (p : Q * Q) : DragEvent :=
  mkEvent (subject g) n (p.1 + dx g) (p.2 + dy g).

(** [mousedowned]: the gesture starts, [n = active++]. *)
Definition mousedowned (b : Behavior) (g : Gesture) (e : MouseEvent)
  : Behavior * DragEvent :=
  (mkBehavior (S (active b)) false (clientX e) (clientY e) (Some g),
   event_at g (active b) (pointer e)).

(** [mousemoved]: the first move farther than the click distance marks
    the gesture as a drag. *)
Definition moved (b : Behavior) (e : MouseEvent) : bool :=
  if mousemoving b then true
  else
    let ex := clientX e - mousedownx b in
    let ey := clientY e - mousedowny b in
    negb (Qle_bool (ex * ex + ey * ey) clickDistance2).

Definition mousemoved (b : Behavior) (g : Gesture) (e : MouseEvent)
  : Behavior * DragEvent :=
  (mkBehavior (active b) (moved b e) (mousedownx b) (mousedowny b) (mouse b),
   event_at g (active b) (pointer e)).

(** [mouseupped]: the gesture ends, [--active]. *)
Definition mouseupped (b : Behavior) (g : Gesture) (e : MouseEvent)
  : Behavior * DragEvent :=
  (mkBehavior (Nat.pred (active b)) (mousemoving b) (mousedownx b)
              (mousedowny b) None,
   event_at g (Nat.pred (active b)) (pointer e)).

End Drag.

(* ===================================================================== *)
(** * d3-zoom *)
(* ===================================================================== *)

(** After zoom.js and transform.js of d3-zoom 3: the transform kept on
    the svg and what the wheel, double click, mouse and touch listeners
    make of it.  The default [constrain] changes nothing while the
    translate extent is unbounded, as it is here. *)
Module Zoom.

Local Open Scope Q_scope.

Record Transform := mkTransform { k : Q; x : Q; y : Q }.

Definition identity : Transform := mkTransform 1 0 0.

Definition invert (t : Transform) (p : Q * Q) : Q * Q :=
  ((p.1 - x t) / k t, (p.2 - y t) / k t).

Section WithExtent.

(** [zoom.scaleExtent([k0, k1])] *)
Variable scaleExtent : Q * Q.

Definition clamp (k' : Q) : Q :=
  Qmax (scaleExtent.1) (Qmin (scaleExtent.2) k').

(** [scale(transform, k)] *)
Definition scale (t : Transform) (k' : Q) : Transform :=
  let k' := clamp k' in
  if Qeq_bool k' (k t) then t else mkTransform k' (x t) (y t).

(** [translate(transform, p0, p1)] *)
Definition translate (t : Transform) (p0 p1 : Q * Q) : Transform :=
  let x' := p0.1 - p1.1 * k t in
  let y' := p0.2 - p1.2 * k t in
  if Qeq_bool x' (x t) && Qeq_bool y' (y t) then t
  else mkTransform (k t) x' y'.

(** [wheeled], for a wheel event at [p] whose
    [Math.pow(2, wheelDelta(event))] is [factor]; the anchor is
    taken afresh for each event. *)
Definition wheeled (t : Transform) (factor : Q) (p : Q * Q) : Transform :=
  let k' := clamp (k t * factor) in
  if Qeq_bool (k t) k' then t
  else translate (scale t k') p (invert t p).

(** [dblclicked]: twice the scale, or half of it with shift.  This is
    the transform the listener schedules; the transition that leads to
    it keeps the anchor and passes through the scales in between. *)
Definition dblclicked (t : Transform) (shift : bool) (p : Q * Q)
  : Transform :=
  let k1 := k t * (if shift then 1 # 2 else 2) in
  translate (scale t k1) p (invert t p).

(** [mousemoved] of a pan that grabbed the point [p0]. *)
Definition panned (t : Transform) (p0 p : Q * Q) : Transform :=
  translate t p (invert t p0).

(** [touchmoved] with two touches: [ratio] is [sqrt(dp / dl)], [p]
    and [l] the midpoints of the touches now and at the start. *)
Definition pinched (t : Transform) (ratio : Q) (p l : Q * Q) : Transform :=
  translate (scale t ratio) p l.

End WithExtent.

End Zoom.

(* ===================================================================== *)
(** * src/components/TopologyGraph.tsx *)
(* ===================================================================== *)

Module TopologyGraph.

Local Open Scope Q_scope.

(** The component exists in three revisions that share their structure.
    What differs, as far as the model goes, is collected here. *)
Record Revision := mkRevision {
  guards_empty : bool;     (* the effect returns when nodes.length === 0 *)
  copies_props : bool;     (* safeNodes / safeLinks *)
  link_distance : Q;
  charge : Q;
  collide : Q;
  draws_labels : bool;     (* the link label groups *)
  listens_click : bool;    (* node.on("click", ..) *)
  tracks_zoom : bool       (* setZoomLevel(event.transform.k) *)
}.

(** TopologyGraph.tsx, first revision (without [onNodeClick]). *)
Definition rev1 : Revision :=
  mkRevision true false 150 (-500) 40 false false true.
(** The revision with [safeNodes] that still keeps [zoomLevel]. *)
Definition rev2 : Revision :=
  mkRevision false true 250 (-1000) 70 true true true.
(** TopologyGraph.tsx, last revision (shapes by device type). *)
Definition rev3 : Revision :=
  mkRevision false true 200 (-800) 80 true true false.

(** The props, and the size of the wrapper the effect reads. *)
Record Props := mkProps {
  nodes : list addr;
  links : list addr;
  onNodeClick : bool;      (* whether the optional callback is given *)
  clientWidth : Q;
  clientHeight : Q
}.

(** The elements the effect appends to the svg.  [line_sim],
    [label_sim] and [g_sim] name the effect run that made the element:
    its tick listener and its drag behaviour hold the element. *)
Record LineEl := mkLine {
  line_sim : nat;
  line_datum : addr;
  line_stroke : string;
  x1 : option Q; y1 : option Q; x2 : option Q; y2 : option Q
}.
Record LabelEl := mkLabel {
  label_sim : nat;
  label_datum : addr;
  label_text : string;
  label_at : option (Q * Q)          (* translate(x,y); None: not a number *)
}.
Record NodeEl := mkNodeEl {
  g_sim : nat;
  g_datum : addr;
  g_stroke : string;
  g_click : option bool;             (* the click listener, and whether
                                        it has a callback to call *)
  g_at : option (option Q * option Q)   (* translate(${d.x},${d.y}) *)
}.

Record View := mkView {
  store : Store;                  (* the objects *)
  sims : list Force.Simulation;   (* every simulation created, by effect run *)
  drags : list Drag.Behavior;     (* the drag behaviour of the same effect run *)
  lines : list LineEl;            (* <line> elements *)
  labels : list LabelEl;          (* link label groups *)
  groups : list NodeEl;           (* node groups *)
  zoomable : bool;                (* svg.call(zoomBehavior) was done *)
  zoom : Zoom.Transform;          (* svg.__zoom *)
  zoomLevel : Q;                  (* the React state *)
  cleanup : option nat;           (* the simulation the pending cleanup stops *)
  window_drag : option nat;       (* whose mousemove/mouseup listeners are on window *)
  noclick : bool;                 (* a click on window is swallowed *)
  selected : list addr            (* the arguments of the calls of onNodeClick *)
}.

Definition set_store (a : Store) (v : View) : View :=
  mkView a (sims v) (drags v) (lines v) (labels v) (groups v) (zoomable v)
     (zoom v) (zoomLevel v) (cleanup v) (window_drag v) (noclick v)
     (selected v).
Definition set_sims (a : list Force.Simulation) (v : View) : View :=
  mkView (store v) a (drags v) (lines v) (labels v) (groups v) (zoomable v)
     (zoom v) (zoomLevel v) (cleanup v) (window_drag v) (noclick v)
     (selected v).
Definition set_drags (a : list Drag.Behavior) (v : View) : View :=
  mkView (store v) (sims v) a (lines v) (labels v) (groups v) (zoomable v)
     (zoom v) (zoomLevel v) (cleanup v) (window_drag v) (noclick v)
     (selected v).
Definition set_lines (a : list LineEl) (v : View) : View :=
  mkView (store v) (sims v) (drags v) a (labels v) (groups v) (zoomable v)
     (zoom v) (zoomLevel v) (cleanup v) (window_drag v) (noclick v)
     (selected v).
Definition set_labels (a : list LabelEl) (v : View) : View :=
  mkView (store v) (sims v) (drags v) (lines v) a (groups v) (zoomable v)
     (zoom v) (zoomLevel v) (cleanup v) (window_drag v) (noclick v)
     (selected v).
Definition set_groups (a : list NodeEl) (v : View) : View :=
  mkView (store v) (sims v) (drags v) (lines v) (labels v) a (zoomable v)
     (zoom v) (zoomLevel v) (cleanup v) (window_drag v) (noclick v)
     (selected v).
Definition set_zoomable (a : bool) (v : View) : View :=
  mkView (store v) (sims v) (drags v) (lines v) (labels v) (groups v) a
     (zoom v) (zoomLevel v) (cleanup v) (window_drag v) (noclick v)
     (selected v).
Definition set_zoom (a : Zoom.Transform) (v : View) : View :=
  mkView (store v) (sims v) (drags v) (lines v) (labels v) (groups v)
     (zoomable v) a (zoomLevel v) (cleanup v) (window_drag v) (noclick v)
     (selected v).
Definition set_zoomLevel (a : Q) (v : View) : View :=
  mkView (store v) (sims v) (drags v) (lines v) (labels v) (groups v)
     (zoomable v) (zoom v) a (cleanup v) (window_drag v) (noclick v)
     (selected v).
Definition set_cleanup (a : option nat) (v : View) : View :=
  mkView (store v) (sims v) (drags v) (lines v) (labels v) (groups v)
     (zoomable v) (zoom v) (zoomLevel v) a (window_drag v) (noclick v)
     (selected v).
Definition set_window_drag (a : option nat) (v : View) : View :=
  mkView (store v) (sims v) (drags v) (lines v) (labels v) (groups v)
     (zoomable v) (zoom v) (zoomLevel v) (cleanup v) a (noclick v)
     (selected v).
Definition set_noclick (a : bool) (v : View) : View :=
  mkView (store v) (sims v) (drags v) (lines v) (labels v) (groups v)
     (zoomable v) (zoom v) (zoomLevel v) (cleanup v) (window_drag v) a
     (selected v).
Definition set_selected (a : list addr) (v : View) : View :=
  mkView (store v) (sims v) (drags v) (lines v) (labels v) (groups v)
     (zoomable v) (zoom v) (zoomLevel v) (cleanup v) (window_drag v)
     (noclick v) a.

Definition scaleExtent : Q * Q := (1 # 10, 4).

(** The view before the component is mounted. *)
Definition initial (s : Store) : View :=
  mkView s [] [] [] [] [] false Zoom.identity 1 None None false [].

Definition update_sim (i : nat) (f : Force.Simulation -> Force.Simulation)
    (v : View) : View :=
  set_sims (alter f i (sims v)) v.

(** [d.source] as an object: a string has no [x]. *)
Definition endpoint_node (s : Store) (e : Endpoint) : option Node.t :=
  match e with
  | ERef a => node_objs s !! a
  | EId _ => None
  end.

(** [link.attr("x1", d => d.source.x)...] for one line. *)
Definition place_line (s : Store) (ln : LineEl) : LineEl :=
  match link_objs s !! line_datum ln with
  | None => ln
  | Some d =>
    let src := endpoint_node s (LinkDatum.source d) in
    let tgt := endpoint_node s (LinkDatum.target d) in
    mkLine (line_sim ln) (line_datum ln) (line_stroke ln)
           (src ≫= Node.x) (src ≫= Node.y) (tgt ≫= Node.x) (tgt ≫= Node.y)
  end.

(** The midpoint of the two ends, for the label. *)
Definition place_label (s : Store) (lb : LabelEl) : LabelEl :=
  match link_objs s !! label_datum lb with
  | None => lb
  | Some d =>
    let src := endpoint_node s (LinkDatum.source d) in
    let tgt := endpoint_node s (LinkDatum.target d) in
    mkLabel (label_sim lb) (label_datum lb) (label_text lb)
      (sx ← src ≫= Node.x; sy ← src ≫= Node.y;
       tx ← tgt ≫= Node.x; ty ← tgt ≫= Node.y;
       Some ((sx + tx) / 2, (sy + ty) / 2))
  end.

Definition place_group (s : Store) (g : NodeEl) : NodeEl :=
  match node_objs s !! g_datum g with
  | None => g
  | Some d =>
    mkNodeEl (g_sim g) (g_datum g) (g_stroke g) (g_click g)
             (Some (Node.x d, Node.y d))
  end.

(** The listener given to [simulation.on("tick", ..)] by effect run
    [i]. *)
Definition tick_listener (i : nat) (v : View) : View :=
  let s := store v in
  set_lines
    (map (fun ln => if Nat.eqb (line_sim ln) i then place_line s ln else ln)
         (lines v))
    (set_labels
       (map (fun lb => if Nat.eqb (label_sim lb) i then place_label s lb
                       else lb)
            (labels v))
       (set_groups
          (map (fun g => if Nat.eqb (g_sim g) i then place_group s g else g)
               (groups v))
          v)).

(** The drag listeners of [drag(simulation)], for the simulation of
    effect run [i]. *)
Definition dragstarted (i : nat) (e : Drag.DragEvent) (v : View) : View :=
  let v := if Nat.eqb (Drag.ev_active e) 0
           then update_sim i
                  (fun s => Force.restart (Force.set_alphaTarget (3 # 10) s)) v
           else v in
  set_store
    (update_node (Drag.ev_subject e)
       (fun n => Node.set_pin (Node.x n) (Node.y n) n) (store v)) v.

Definition dragged (e : Drag.DragEvent) (v : View) : View :=
  set_store
    (update_node (Drag.ev_subject e)
       (Node.set_pin (Some (Drag.ev_x e)) (Some (Drag.ev_y e))) (store v)) v.

Definition dragended (i : nat) (e : Drag.DragEvent) (v : View) : View :=
  let v := if Nat.eqb (Drag.ev_active e) 0
           then update_sim i (Force.set_alphaTarget 0) v
           else v in
  set_store
    (update_node (Drag.ev_subject e) (Node.set_pin None None) (store v)) v.

(** The "zoom" listener: [g.attr("transform", event.transform)], and
    [setZoomLevel] where the revision has it. *)
Definition zoomed (rev : Revision) (t : Zoom.Transform) (v : View) : View :=
  let v := set_zoom t v in
  if tracks_zoom rev then set_zoomLevel (Zoom.k t) v else v.

(** The cleanup the effect returned, run by React before the next
    effect and at unmount: [simulation.stop()]. *)
Definition run_cleanup (v : View) : View :=
  match cleanup v with
  | Some i => set_cleanup None (update_sim i Force.stop v)
  | None => v
  end.

Section WithPhysics.

Variable forces : Force.Config -> Q -> list Force.Kin -> list (nat * nat)
  -> list Force.Kin.
Variable phyllotaxis : nat -> Q * Q.

(** The arrays the effect works on: the props themselves, or
    [safeNodes] and [safeLinks]. *)
Definition own_data (rev : Revision) (p : Props) (s : Store)
  : list addr * list addr * Store :=
  if copies_props rev then
    let '(ns, s1) := spread_nodes (nodes p) s in
    let '(ls, s2) := spread_links (links p) s1 in
    (ns, ls, s2)
  else (nodes p, links p, s).

(** What effect run [i] appends to the svg, and the view it
    leaves. *)
Definition draw (rev : Revision) (p : Props) (i : nat)
    (ns ls : list addr) (sim : Force.Simulation) (s : Store) (v : View)
  : View :=
  let line_of a :=
    (fun d => mkLine i a (linkStroke (LinkDatum.status d))
                     None None None None) <$> link_objs s !! a in
  let label_of a :=
    (fun d => mkLabel i a (default "" (LinkDatum.label d)) None)
      <$> link_objs s !! a in
  let group_of a :=
    (fun d => mkNodeEl i a (getStatusColor (status (Node.dev d)))
                (if listens_click rev then Some (onNodeClick p)
                 else None)
                None) <$> node_objs s !! a in
  mkView s
    (sims v ++ [Force.listen_tick sim])
    (drags v ++ [Drag.init])
    (omap line_of ls)
    (if draws_labels rev then omap label_of ls else [])
    (omap group_of ns)
    true (zoom v) (zoomLevel v)
    (Some i) (window_drag v) (noclick v) (selected v).

Definition forceConfig (rev : Revision) (p : Props) : Force.Config :=
  Force.mkConfig (link_distance rev) (charge rev)
    (clientWidth p / 2, clientHeight p / 2) (collide rev).

(** The body of [useEffect]. *)
Definition effect (rev : Revision) (p : Props) (v : View) : Result View :=
  if guards_empty rev && Nat.eqb (length (nodes p)) 0 then Ok v
  else
    let '(ns, ls, s2) := own_data rev p (store v) in
    let '(sim, s3) := Force.forceSimulation phyllotaxis ns s2 in
    match Force.withForces (forceConfig rev p) ls sim s3 with
    | Throw msg => Throw msg
    | Ok (sim, s4) => Ok (draw rev p (length (sims v)) ns ls sim s4 v)
    end.

(** A render whose dependencies changed (the mount included): React
    runs the pending cleanup, then the effect. *)
Definition render (rev : Revision) (p : Props) (v : View) : Result View :=
  effect rev p (run_cleanup v).

(** Unmounting: the cleanup, and the svg goes away with what hangs on
    it. *)
Definition unmount (v : View) : View :=
  let v := run_cleanup v in
  mkView (store v) (sims v) (drags v) [] [] [] false Zoom.identity 1
         None (window_drag v) (noclick v) (selected v).

(** One firing of the timer of simulation [i]: d3's [step]. *)
Definition frame (i : nat) (v : View) : View :=
  match sims v !! i with
  | None => v
  | Some sim =>
    if Force.running sim then
      let '(sim', s') := Force.tick forces sim (store v) in
      let v := set_store s' (update_sim i (fun _ => sim') v) in
      let v := if Force.on_tick sim'
               then tick_listener i (update_sim i Force.count_tick v)
               else v in
      update_sim i Force.settle v
    else v
  end.

(** Pointer input on the node groups and on window. *)
Definition mousedown (el : nat) (e : Drag.MouseEvent) (v : View) : View :=
  match groups v !! el with
  | None => v
  | Some g =>
    let i := g_sim g in
    match drags v !! i, node_objs (store v) !! g_datum g with
    | Some b, Some n =>
      let gest := Drag.beforestart (g_datum g) n (Drag.pointer e) in
      let '(b', ev) := Drag.mousedowned b gest e in
      dragstarted i ev
        (set_window_drag (Some i) (set_drags (<[i := b']> (drags v)) v))
    | _, _ => v
    end
  end.

Definition mousemove (e : Drag.MouseEvent) (v : View) : View :=
  match window_drag v with
  | None => v
  | Some i =>
    match drags v !! i ≫= (fun b => pair b <$> Drag.mouse b) with
    | None => v
    | Some (b, gest) =>
      let '(b', ev) := Drag.mousemoved b gest e in
      dragged ev (set_drags (<[i := b']> (drags v)) v)
    end
  end.

Definition mouseup (e : Drag.MouseEvent) (v : View) : View :=
  match window_drag v with
  | None => v
  | Some i =>
    match drags v !! i ≫= (fun b => pair b <$> Drag.mouse b) with
    | None => v
    | Some (b, gest) =>
      let '(b', ev) := Drag.mouseupped b gest e in
      dragended i ev
        (set_noclick (Drag.mousemoving b)
           (set_window_drag None (set_drags (<[i := b']> (drags v)) v)))
    end
  end.

(** [node.on("click", (event, d) => { ...; if (onNodeClick)
    onNodeClick(d); })], unless d3-drag swallows the click. *)
Definition click (el : nat) (v : View) : View :=
  if noclick v then v
  else
    match groups v !! el with
    | Some g =>
      match g_click g with
      | Some true => set_selected (selected v ++ [g_datum g]) v
      | _ => v
      end
    | None => v
    end.

Definition zoom_by (rev : Revision) (f : Zoom.Transform -> Zoom.Transform)
    (v : View) : View :=
  if zoomable v then zoomed rev (f (zoom v)) v else v.

Inductive Event :=
  | Render (p : Props)
  | Unmount
  | Frame (i : nat)
  | MouseDown (el : nat) (e : Drag.MouseEvent)
  | MouseMove (e : Drag.MouseEvent)
  | MouseUp (e : Drag.MouseEvent)
  | Click (el : nat)
  | Wheel (factor : Q) (p : Q * Q)
  | DblClick (shift : bool) (p : Q * Q)
  | Pan (p0 p : Q * Q)
  | Pinch (ratio : Q) (p l : Q * Q).

(** d3-drag removes its click filter in a zero timeout, that is,
    before any later event; a click dispatched right after the mouse
    went up still meets it. *)
Definition expire_noclick (ev : Event) (v : View) : View :=
  match ev with
  | Click _ => v
  | _ => set_noclick false v
  end.

Definition handle (rev : Revision) (v : View) (ev : Event) : Result View :=
  let v := expire_noclick ev v in
  match ev with
  | Render p => render rev p v
  | Unmount => Ok (unmount v)
  | Frame i => Ok (frame i v)
  | MouseDown el e => Ok (mousedown el e v)
  | MouseMove e => Ok (mousemove e v)
  | MouseUp e => Ok (mouseup e v)
  | Click el => Ok (click el v)
  | Wheel f p => Ok (zoom_by rev (fun t => Zoom.wheeled scaleExtent t f p) v)
  | DblClick sh p =>
      Ok (zoom_by rev (fun t => Zoom.dblclicked scaleExtent t sh p) v)
  | Pan p0 p => Ok (zoom_by rev (fun t => Zoom.panned t p0 p) v)
  | Pinch r p l =>
      Ok (zoom_by rev (fun t => Zoom.pinched scaleExtent t r p l) v)
  end.

(** A sequence of events; an exception ends it. *)
Fixpoint run (rev : Revision) (v : View) (evs : list Event) : Result View :=
  match evs with
  | [] => Ok v
  | ev :: evs' =>
    match handle rev v ev with
    | Ok v' => run rev v' evs'
    | Throw msg => Throw msg
    end
  end.

End WithPhysics.

End TopologyGraph.

(** ** The controls of the first revision *)

(** [Math.round]: the nearest integer, a half going up. *)
Definition Math_round (q : Q) : Z := Qfloor (q + (1 # 2)).

Module Controls.

(** The read-out next to the refresh button:
    [{Math.round(zoomLevel * 100)}%]. *)
Definition zoomPercent (v : TopologyGraph.View) : Z :=
  Math_round (TopologyGraph.zoomLevel v * 100).

End Controls.

(* ===================================================================== *)
(** * src/components/NodeDetailsPanel.tsx *)
(* ===================================================================== *)

(** The panel [App] shows for [selectedDevice], the object the graph
    passed to [onNodeClick]; [links] is the array [App] also gives to
    the graph.  The two revisions of the panel agree on what is
    modelled here. *)
Module NodeDetailsPanel.

(** [end === device.id] for an end of a link: an end that the link
    force has replaced by a node object is equal to no string. *)
Definition is_id (e : Endpoint) (i : string) : bool :=
  match e with
  | EId s => bool_decide (s = i)
  | ERef _ => false
  end.

(** [l => l.source === device.id || l.target === device.id] *)
Definition connected (device : Device) (l : LinkDatum.t) : bool :=
  is_id (LinkDatum.source l) (id device)
  || is_id (LinkDatum.target l) (id device).

Definition connections (links : list LinkDatum.t) (device : Device)
  : list LinkDatum.t :=
  filter (fun l => connected device l = true) links.

(** One entry under "Connected Neighbors". *)
Record Row := mkRow {
  neighborId : Endpoint;
  port : string;              (* link.label || 'Unknown' *)
  row_status : string
}.

Definition row (device : Device) (link : LinkDatum.t) : Row :=
  let isSource := is_id (LinkDatum.source link) (id device) in
  mkRow (if isSource then LinkDatum.target link else LinkDatum.source link)
        (match LinkDatum.label link with
         | Some s => if bool_decide (s = "") then "Unknown" else s
         | None => "Unknown"
         end)
        (LinkDatum.status link).

(** What the panel lists: nothing at all without a device ([return
    null]), otherwise one row per connection (and the notice "No active
    connections detected." when there is none). *)
Definition panel (device : option Device) (links : list LinkDatum.t)
  : option (list Row) :=
  match device with
  | None => None
  | Some d => Some (row d <$> connections links d)
  end.

End NodeDetailsPanel.

(* ===================================================================== *)
(** * The vocabulary of the theorems *)
(* ===================================================================== *)

Module Spec.
Import TopologyGraph.

(** ** mockData.ts *)

(** The contract of [Math.random]: a Number in [0, 1). *)
Definition random_ok (rnd : nat -> Q) : Prop :=
  forall k, Number.is_double (rnd k) /\ (0 <= rnd k)%Q /\ (rnd k < 1)%Q.

(** What every generated link satisfies with respect to the node list. *)
Definition link_ok (ns : list Device) (l : Link.t) : Prop :=
  (exists d, d ∈ ns /\ id d = Link.source l) /\
  (exists d, d ∈ ns /\ id d = Link.target l) /\
  (Link.bandwidth l = "40Gbps" -> Link.source l <> Link.target l).

(** ** The zoom scale *)

Definition in_extent (q : Q) : Prop := (1 # 10 <= q)%Q /\ (q <= 4)%Q.

(** The scale of [svg.__zoom] and the [zoomLevel] shown are in the
    extent. *)
Definition zoom_ok (v : View) : Prop :=
  in_extent (Zoom.k (zoom v)) /\ in_extent (zoomLevel v).

(** ** The objects of the caller *)

Section Caller.

(** The store at mount: the objects of the caller, those of later data
    sets included. *)
Variable s0 : Store.

(** Every object of the caller is still what it was. *)
Definition untouched (s : Store) : Prop :=
  (forall a n, node_objs s0 !! a = Some n -> node_objs s !! a = Some n) /\
  (forall a l, link_objs s0 !! a = Some l -> link_objs s !! a = Some l).

(** Addresses that are not the caller's. *)
Definition own_n (a : nat) : Prop := (length (node_objs s0) <= a)%nat.
Definition own_l (a : nat) : Prop := (length (link_objs s0) <= a)%nat.

Definition sim_own (sim : Force.Simulation) : Prop :=
  Forall own_n (Force.nodes sim).
Definition drag_own (b : Drag.Behavior) : Prop :=
  forall g, Drag.mouse b = Some g -> own_n (Drag.subject g).

(** The component writes only to objects it made itself. *)
Definition private (v : View) : Prop :=
  untouched (store v) /\
  Forall sim_own (sims v) /\
  Forall (fun g => own_n (g_datum g)) (groups v) /\
  Forall drag_own (drags v).

End Caller.

(** ** Links and the ids of their ends *)

(** The objects an array of addresses holds. *)
Definition arr_nodes (s : Store) (arr : list nat) : list Node.t :=
  omap (fun a => node_objs s !! a) arr.
Definition arr_links (s : Store) (arr : list nat) : list LinkDatum.t :=
  omap (fun a => link_objs s !! a) arr.

Definition ids_of (ns : list Node.t) : list string :=
  (fun n => id (Node.dev n)) <$> ns.

(** An end of a link names a node of the list (an end that already is
    a reference names the node it refers to). *)
Definition endpoint_present (ids : list string) (e : Endpoint) : Prop :=
  match e with
  | EId i => i ∈ ids
  | ERef _ => True
  end.

Definition link_present (ids : list string) (l : LinkDatum.t) : Prop :=
  endpoint_present ids (LinkDatum.source l) /\
  endpoint_present ids (LinkDatum.target l).

(** A link as [Link] declares it: an id at either end. *)
Definition id_ends (l : LinkDatum.t) : Prop :=
  exists i j, LinkDatum.source l = EId i /\ LinkDatum.target l = EId j.

(** The id at an end of a link if no node of the list has it.  An end
    that is a node object already is not looked up. *)
Definition unknown_end (ids : list string) (e : Endpoint) : option string :=
  match e with
  | EId i => if bool_decide (i ∈ ids) then None else Some i
  | ERef _ => None
  end.

(** The first such id, in the order the link force goes through the
    links: link by link, the source before the target. *)
Fixpoint first_unknown (ids : list string) (ls : list LinkDatum.t)
  : option string :=
  match ls with
  | [] => None
  | l :: ls' =>
    match unknown_end ids (LinkDatum.source l) with
    | Some i => Some i
    | None =>
      match unknown_end ids (LinkDatum.target l) with
      | Some i => Some i
      | None => first_unknown ids ls'
      end
    end
  end.

(** Both ends are references to node objects. *)
Definition resolved (l : LinkDatum.t) : Prop :=
  exists a b, LinkDatum.source l = ERef a /\ LinkDatum.target l = ERef b.

Definition resolvable (m : list (string * nat)) (l : LinkDatum.t) : Prop :=
  endpoint_present ((fun kv => kv.1) <$> m) (LinkDatum.source l) /\
  endpoint_present ((fun kv => kv.1) <$> m) (LinkDatum.target l).

(** ** Teardown *)

(** How often the tick listener of effect run [i] has been called. *)
Definition ticks_of (i : nat) (v : View) : option nat :=
  Force.ticks <$> sims v !! i.

(** The events that tear the previous effect down: an unmount, or a
    render that gets past the guard of the effect. *)
Definition tears_down (rev : Revision) (ev : Event) : Prop :=
  match ev with
  | Unmount => True
  | Render p => guards_empty rev && Nat.eqb (length (nodes p)) 0 = false
  | _ => False
  end.

(** Simulation [i] is stopped with [n] ticks behind it, nothing on the
    page belongs to it, and no cleanup for it is pending. *)
Definition dead (i n : nat) (v : View) : Prop :=
  (exists sim, sims v !! i = Some sim /\ Force.running sim = false /\
               Force.ticks sim = n) /\
  Forall (fun g => g_sim g <> i) (groups v) /\
  cleanup v <> Some i.

(** ** Click or drag *)

(** The pointer is farther from where it went down than the click
    distance. *)
Definition beyond_click_distance (e0 m : Drag.MouseEvent) : bool :=
  let ex := (Drag.clientX m - Drag.clientX e0)%Q in
  let ey := (Drag.clientY m - Drag.clientY e0)%Q in
  negb (Qle_bool (ex * ex + ey * ey)%Q Drag.clickDistance2).

(** ** The lines and the nodes *)

(** The ends of the line are where the node objects its link refers to
    are now. *)
Definition line_current (s : Store) (ln : LineEl) : Prop :=
  exists d a b,
    link_objs s !! line_datum ln = Some d /\
    LinkDatum.source d = ERef a /\ LinkDatum.target d = ERef b /\
    x1 ln = node_objs s !! a ≫= Node.x /\
    y1 ln = node_objs s !! a ≫= Node.y /\
    x2 ln = node_objs s !! b ≫= Node.x /\
    y2 ln = node_objs s !! b ≫= Node.y.

(** Every line on the page was made by effect run [i] for a link whose
    ends are resolved, and the simulation of that run has its tick
    listener. *)
Definition shown (i : nat) (v : View) : Prop :=
  Forall (fun ln => line_sim ln = i /\
            exists d, link_objs (store v) !! line_datum ln = Some d /\
                      resolved d) (lines v) /\
  (exists sim, sims v !! i = Some sim /\ Force.on_tick sim = true).

Definition placed (i : nat) (v : View) : Prop :=
  shown i v /\ Forall (line_current (store v)) (lines v).

(** The events between two data sets that concern simulation [i]. *)
Definition quiet (i : nat) (ev : Event) : Prop :=
  match ev with
  | Render _ | Unmount => False
  | Frame j => j = i
  | _ => True
  end.

(** The events after which the page still shows the same data set:
    neither another render nor the unmount. *)
Definition keeps_data_set (ev : Event) : Prop :=
  match ev with
  | Render _ | Unmount => False
  | _ => True
  end.

(** [v'] shows the lines of [v], over the same links and with every
    node where it was. *)
Definition same_picture (v v' : View) : Prop :=
  lines v' = lines v /\
  link_objs (store v') = link_objs (store v) /\
  (forall a, Node.x <$> node_objs (store v') !! a
             = Node.x <$> node_objs (store v) !! a) /\
  (forall a, Node.y <$> node_objs (store v') !! a
             = Node.y <$> node_objs (store v) !! a) /\
  (forall j sim, sims v !! j = Some sim ->
     exists sim', sims v' !! j = Some sim' /\
                  Force.on_tick sim' = Force.on_tick sim).

End Spec.

(* ===================================================================== *)
(** * A small data set *)
(* ===================================================================== *)

Module Sample.
Import TopologyGraph.

Local Open Scope Q_scope.

Definition device (i st : string) : Device :=
  mkDevice (mkConfig i i "192.168.10.1" 830 "admin" None DeviceType.ROUTER)
           st "1d 2h" 10 20.

(** Two devices, a link between them and a link to a device that is not
    there, as the caller holds them. *)
Definition caller : Store :=
  mkStore
    [ Node.of_device (device "a" DeviceStatus.ONLINE);
      Node.of_device (device "b" DeviceStatus.OFFLINE) ]
    [ LinkDatum.of_link (Link.mk "a" "b" "1Gbps" "DOWN" None);
      LinkDatum.of_link (Link.mk "a" "zz" "10Gbps" "UP" None) ].

Definition good : Props := mkProps [0; 1]%nat [0]%nat true 800 600.
Definition dangling : Props := mkProps [0; 1]%nat [0; 1]%nat true 800 600.
Definition empty : Props := mkProps [] [] true 800 600.
Definition empty_with_link : Props := mkProps [] [0]%nat true 800 600.

(** Forces that leave every node where it is, and a start placement on
    a row, ten units apart. *)
Definition still (c : Force.Config) (alpha : Q) (ks : list Force.Kin)
  (ls : list (nat * nat)) : list Force.Kin := ks.
Definition row (i : nat) : Q * Q := (inject_Z (Z.of_nat i) * 10, 0).

(** A mouse event at a point given once, for both coordinate systems. *)
Definition at_point (px py : Q) : Drag.MouseEvent :=
  Drag.mkMouse px py (px, py).

(** The view a run ends in (the view before the mount if it threw). *)
Definition the_view (r : Result View) : View :=
  match r with
  | Ok v => v
  | Throw _ => initial caller
  end.

(** The sample as the last revision renders it. *)
Definition rendered : View :=
  Eval vm_compute in the_view (render row rev3 good (initial caller)).

Definition rendered_group : NodeEl :=
  Eval vm_compute in
    default (mkNodeEl 0 0 "" None None) (groups rendered !! 0%nat).
Definition rendered_node : Node.t :=
  Eval vm_compute in
    default (Node.of_device (device "" ""))
            (node_objs (store rendered) !! 2%nat).
Definition the_sim (o : option Force.Simulation) : Force.Simulation :=
  default (Force.mkSim [] [] (Force.mkConfig 0 0 (0, 0) 0) 0 0 false false 0)
          o.
Definition rendered_sim : Force.Simulation :=
  Eval vm_compute in the_sim (sims rendered !! 0%nat).

(** A frame, a drag of the first node with a frame in between, a click
    on it, and another frame. *)
Definition play : list Event :=
  [ MouseDown 0 (at_point 5 5); MouseMove (at_point 7 5); Frame 0;
    MouseUp (at_point 7 5); MouseDown 0 (at_point 1 1);
    MouseUp (at_point 1 1); Click 0; Frame 0 ].

Definition played : View :=
  Eval vm_compute in
    the_view (run still row rev3 rendered (Frame 0 :: play)).

(** The sample after its first frame, and after it was then replaced by
    the empty data set and the timer of the first simulation was tried
    again. *)
Definition ticked : View :=
  Eval vm_compute in the_view (run still row rev3 rendered [Frame 0]).

Definition replaced : View :=
  Eval vm_compute in
    the_view (run still row rev3 ticked
                [Render empty; MouseDown 0 (at_point 1 1); Frame 0]).

(** The same from the mount on. *)
Definition mounted_and_played : list Event :=
  Render good :: Frame 0 :: play.

(** Zooming in far, out far, and panning. *)
Definition zooming : list Event :=
  [ Render good; Wheel 100 (1, 1); DblClick false (2, 2);
    Pinch (1 # 1000) (0, 0) (3, 3); DblClick true (0, 0); Pan (0, 0) (5, 5) ].

Definition zoomed_view : View :=
  Eval vm_compute in
    the_view (run still row rev3 (initial caller) zooming).

(** Four devices to generate a topology from, and a [Math.random] that
    always returns 3/4. *)
Definition four : list NetconfDeviceConfig :=
  [ mkConfig "core-01" "Core-Router-01" "192.168.10.1" 830 "admin" None
             DeviceType.ROUTER;
    mkConfig "sw-01" "Dist-Switch-01" "192.168.10.2" 830 "admin" None
             DeviceType.SWITCH;
    mkConfig "sw-02" "Access-Switch-01" "192.168.10.3" 830 "admin" None
             DeviceType.SWITCH;
    mkConfig "srv-01" "Compute-01" "192.168.10.4" 830 "admin" None
             DeviceType.SERVER ].

Definition three_quarters (k : nat) : Q := 3 # 4.

End Sample.

(* ===================================================================== *)
(** * More vocabulary: the generated topology and its alarms *)
(* ===================================================================== *)

Module Generated.

(** What [generateDeviceStatus] returns: a status of the enum, and
    figures in the ranges that go with it. *)
Definition uptime_ok (d : Device) : Prop :=
  exists days hours,
    0 <= days < 100 /\ 0 <= hours < 24 /\
    uptime d = pretty days +:+ "d " +:+ pretty hours +:+ "h".

Definition device_ok (d : Device) : Prop :=
  (status d = DeviceStatus.OFFLINE /\ uptime d = "0d" /\
   cpuLoad d = 0 /\ memoryUsage d = 0) \/
  (status d = DeviceStatus.WARNING /\ uptime_ok d /\
   0 <= cpuLoad d < 100 /\ 0 <= memoryUsage d < 90) \/
  (status d = DeviceStatus.ONLINE /\ uptime_ok d /\
   0 <= cpuLoad d < 60 /\ 0 <= memoryUsage d < 90).

(** The link round [i] of the loop pushes first: from node [i] to the
    next node of the ring, down when one of the two is offline. *)
Definition ring_link (ns : list Device) (i : nat) (l : Link.t) : Prop :=
  exists s t,
    ns !! i = Some s /\ ns !! (S i mod length ns)%nat = Some t /\
    Link.source l = id s /\ Link.target l = id t /\
    (Link.bandwidth l = "10Gbps" \/ Link.bandwidth l = "1Gbps") /\
    (Link.status l = "DOWN" /\
       (status s = DeviceStatus.OFFLINE \/ status t = DeviceStatus.OFFLINE) \/
     Link.status l = "UP" /\
       status s <> DeviceStatus.OFFLINE /\ status t <> DeviceStatus.OFFLINE) /\
    Link.label l = None.

(** The link round [i] may push second: from node [i] to a node that
    has neither its id nor the id of the next node. *)
Definition mesh_link (ns : list Device) (i : nat) (l : Link.t) : Prop :=
  exists s t r,
    ns !! i = Some s /\ ns !! (S i mod length ns)%nat = Some t /\ r ∈ ns /\
    Link.source l = id s /\ Link.target l = id r /\
    id r <> id s /\ id r <> id t /\
    Link.bandwidth l = "40Gbps" /\ Link.status l = "UP" /\
    Link.label l = None.

(** What round [i] adds to [links]. *)
Definition round (ns : list Device) (i : nat) (new : list Link.t) : Prop :=
  exists r, ring_link ns i r /\
    (new = [r] \/
     (3 < length ns)%nat /\ exists m, mesh_link ns i m /\ new = [r; m]).

(** Following links from their source to their target. *)
Inductive reach (ls : list Link.t) : string -> string -> Prop :=
  | reach_refl a : reach ls a a
  | reach_step a l c :
      l ∈ ls -> Link.source l = a -> reach ls (Link.target l) c ->
      reach ls a c.

(** The devices [generateMockAlarms] raises an alarm for. *)
Definition unhealthy (d : Device) : bool :=
  bool_decide (status d = DeviceStatus.OFFLINE)
  || bool_decide (status d = DeviceStatus.WARNING)
  || (80 <? cpuLoad d).

(** The alarm raised for [d]. *)
Definition alarm_of (d : Device) (a : Alarm.t) : Prop :=
  Alarm.deviceId a = id d /\ Alarm.deviceName a = name d /\
  (status d = DeviceStatus.OFFLINE /\
     Alarm.severity a = AlarmSeverity.CRITICAL /\
     Alarm.message a = "NETCONF Connection Failed: Host Unreachable" \/
   status d <> DeviceStatus.OFFLINE /\
     Alarm.severity a = AlarmSeverity.MAJOR /\
     Alarm.message a
       = "High CPU Utilization (" +:+ pretty (cpuLoad d) +:+ "%)").

(** The world [n] alarms later. *)
Definition after (n : nat) (w : MockAlarms.World) : MockAlarms.World :=
  MockAlarms.mkWorld (n + MockAlarms.randoms w) (n + MockAlarms.dates w).

(** The id and the date of the alarm that is raised in world [w]. *)
Definition stamped (rnd : nat -> Q) (toString36 : Q -> string)
    (now : nat -> string) (w : MockAlarms.World) (a : Alarm.t) : Prop :=
  Alarm.id a
  = "alm-" +:+ String.substring 2 9
                 (toString36 (rnd (MockAlarms.randoms w))) /\
  Alarm.timestamp a = now (MockAlarms.dates w).

End Generated.

(* ===================================================================== *)
(** * Random numbers to generate from *)
(* ===================================================================== *)

Module Draws.

(** A [Math.random] that returns the double 0.9 first and 7/8 from
    then on. *)
Definition at_threshold (k : nat) : Q :=
  match k with
  | O => Number.lit (9 # 10)
  | S _ => 7 # 8
  end.

(** A [Math.random] that returns, in this order, 15/16 (the first
    device is offline), 1/2 and 7/8 (the second is in the warning
    state), 1/4 from then on (the others are online). *)
Definition mixed (k : nat) : Q :=
  match k with
  | 0%nat => 15 # 16
  | 1%nat => 1 # 2
  | 2%nat => 7 # 8
  | _ => 1 # 4
  end.

(** The topology generated from four configurations with these random
    numbers, and its alarms. *)
Definition mixed_topology : TopologyData :=
  Eval vm_compute in
    match (MockData.generateTopologyFromConfig mixed Sample.four 0%nat).1 with
    | Ok t => t
    | Throw _ => mkTopology [] []
    end.

Definition mixed_alarms : list Alarm.t :=
  Eval vm_compute in
    (MockAlarms.generateMockAlarms mixed (fun _ => "0.r")
       (fun _ => "2024-01-01T00:00:00.000Z") (nodes mixed_topology)
       (MockAlarms.mkWorld 0%nat 0%nat)).1.

End Draws.

(* ===================================================================== *)
(** * More vocabulary: the life of a simulation *)
(* ===================================================================== *)

Module Cooling.
Import TopologyGraph.

Local Open Scope Q_scope.

(** The factor alpha shrinks by in a tick when its target is zero. *)
Definition cooling : Q := 1 - Force.alphaDecay.

Fixpoint pow (q : Q) (n : nat) : Q :=
  match n with
  | O => 1
  | S n' => q * pow q n'
  end.

(** What can happen while the mouse button stays down on a node: the
    timer fires, the pointer moves, the wheel turns. *)
Definition holding (ev : Event) : Prop :=
  match ev with
  | Render _ | Unmount | MouseDown _ _ | MouseUp _ => False
  | _ => True
  end.

(** Simulation [i] runs towards the target of a drag. *)
Definition hot (i : nat) (v : View) : Prop :=
  exists sim, sims v !! i = Some sim /\ Force.running sim = true /\
              Force.alphaTarget sim = 3 # 10 /\ 0 <= Force.alpha sim.

(** Simulation [i] after [k] more frames of cooling: stopped, or alpha
    has shrunk [k] times and is not yet below the minimum. *)
Definition cooled (i n k : nat) (v : View) : Prop :=
  exists sim, sims v !! i = Some sim /\ Force.alphaTarget sim = 0 /\
              (Force.ticks sim <= n + k)%nat /\
              (Force.running sim = false \/
               Force.alpha sim <= pow cooling k /\
               ((0 < k)%nat -> Force.alphaMin <= Force.alpha sim)).

(** Every simulation but the one the pending cleanup is for is
    stopped for good, with nothing on the page that belongs to it. *)
Definition retired (v : View) : Prop :=
  (forall i, (i < length (sims v))%nat -> cleanup v <> Some i ->
             exists n, Spec.dead i n v) /\
  (forall i, cleanup v = Some i -> (i < length (sims v))%nat).

End Cooling.

(* ===================================================================== *)
(** * More vocabulary: what the graph writes *)
(* ===================================================================== *)

Module Footprint.
Import TopologyGraph.

(** The fields of a link that the caller filled in. *)
Definition link_data (l : LinkDatum.t) : string * string * option string :=
  (LinkDatum.bandwidth l, LinkDatum.status l, LinkDatum.label l).

(** A node object that has a position. *)
Definition positioned (n : Node.t) : Prop :=
  is_Some (Node.x n) /\ is_Some (Node.y n).

(** What a write to a node object changes: simulation fields only, and
    a position that is there is not taken away. *)
Definition node_write (n n' : Node.t) : Prop :=
  Node.dev n' = Node.dev n /\
  (is_Some (Node.x n) -> is_Some (Node.x n')) /\
  (is_Some (Node.y n) -> is_Some (Node.y n')).

(** What a write to a link object changes: the index, and an end that
    is an id, which becomes a reference to a node object that has a
    position. *)
Definition end_write (s : Store) (e e' : Endpoint) : Prop :=
  e' = e \/
  exists i a n, e = EId i /\ e' = ERef a /\
                node_objs s !! a = Some n /\ positioned n.

Definition link_write (s : Store) (l l' : LinkDatum.t) : Prop :=
  link_data l' = link_data l /\
  end_write s (LinkDatum.source l) (LinkDatum.source l') /\
  end_write s (LinkDatum.target l) (LinkDatum.target l').

(** The writes of the component and of d3 on its behalf: to a node
    object, to a link object, or objects are copied. *)
Inductive writes : Store -> Store -> Prop :=
  | writes_refl s : writes s s
  | writes_node a f s s' :
      (forall n, node_objs s !! a = Some n -> node_write n (f n)) ->
      writes (update_node a f s) s' -> writes s s'
  | writes_link a f s s' :
      (forall l, link_objs s !! a = Some l -> link_write s l (f l)) ->
      writes (update_link a f s) s' -> writes s s'
  | writes_copy_nodes arr s s' :
      writes (spread_nodes arr s).2 s' -> writes s s'
  | writes_copy_links arr s s' :
      writes (spread_links arr s).2 s' -> writes s s'.

(** [s'] still has every object of [s], with the device it carried and
    with the bandwidth, status and label it had. *)
Definition keeps_data (s s' : Store) : Prop :=
  (forall a n, node_objs s !! a = Some n ->
     exists n', node_objs s' !! a = Some n' /\ Node.dev n' = Node.dev n) /\
  (forall a l, link_objs s !! a = Some l ->
     exists l', link_objs s' !! a = Some l' /\ link_data l' = link_data l).

(** Every node object of [s] carries a device of [s0]. *)
Definition from_caller (s0 s : Store) : Prop :=
  forall a n, node_objs s !! a = Some n ->
    exists a0 n0, node_objs s0 !! a0 = Some n0 /\ Node.dev n0 = Node.dev n.

(** An end of a link is an id, or a reference to a node object that
    has a position; and so for every link object of a store. *)
Definition end_ok (s : Store) (e : Endpoint) : Prop :=
  match e with
  | EId _ => True
  | ERef a => exists n, node_objs s !! a = Some n /\ positioned n
  end.

Definition sound (s : Store) : Prop :=
  forall a l, link_objs s !! a = Some l ->
    end_ok s (LinkDatum.source l) /\ end_ok s (LinkDatum.target l).

(** The entries of the map of the link force are node objects that
    have a position. *)
Definition placed_map (m : list (string * nat)) (s : Store) : Prop :=
  forall kv, kv ∈ m ->
    exists n, node_objs s !! kv.2 = Some n /\ positioned n.

(** The links as the caller writes them: with ids at both ends. *)
Definition ids_only (s : Store) : Prop :=
  forall a l, link_objs s !! a = Some l ->
    exists i j, LinkDatum.source l = EId i /\ LinkDatum.target l = EId j.

(** Every node group on the page and every argument [onNodeClick] was
    called with is an object of the store. *)
Definition grounded (v : View) : Prop :=
  Forall (fun g => is_Some (node_objs (store v) !! g_datum g)) (groups v) /\
  Forall (fun a => is_Some (node_objs (store v) !! a)) (selected v).

(** The object [App] keeps in [selectedDevice] while the panel is not
    closed: [handleNodeClick] is [setSelectedDevice], so it is the
    argument of the last call of [onNodeClick]. *)
Definition selectedDevice (v : View) : option Node.t :=
  last (selected v) ≫= (fun a => node_objs (store v) !! a).

End Footprint.

(* ===================================================================== *)
(** * More vocabulary: the links of the simulation *)
(* ===================================================================== *)

Module Resolved.
Import TopologyGraph.

(** What the link force makes of an end: an id becomes the entry of the
    map for it, a reference stays. *)
Definition end_step (m : list (string * nat)) (e e' : Endpoint) : Prop :=
  e' = e \/ exists i a, e = EId i /\ e' = ERef a /\ (i, a) ∈ m.

(** And of a link: the index apart, nothing else changes. *)
Definition link_step (m : list (string * nat)) (l l' : LinkDatum.t) : Prop :=
  Footprint.link_data l' = Footprint.link_data l /\
  end_step m (LinkDatum.source l) (LinkDatum.source l') /\
  end_step m (LinkDatum.target l) (LinkDatum.target l').

(** The end [e'] of a link of the simulation stands for the id [e] the
    caller wrote: it refers to a node object of the array [ns] whose id
    it is. *)
Definition end_found (s : Store) (ns : list nat) (e e' : Endpoint) : Prop :=
  exists i a n,
    e = EId i /\ e' = ERef a /\ a ∈ ns /\
    node_objs s !! a = Some n /\ id (Node.dev n) = i.

(** The link [d] of the simulation is the link [l] of the caller, with
    its bandwidth, status and label, and with both ends resolved. *)
Definition link_found (s : Store) (ns : list nat) (l d : LinkDatum.t) : Prop :=
  Footprint.link_data d = Footprint.link_data l /\
  end_found s ns (LinkDatum.source l) (LinkDatum.source d) /\
  end_found s ns (LinkDatum.target l) (LinkDatum.target d).

(** The line [ln] is the line of the link [l] of the caller: it runs
    from the node on the page that has the id at the source of [l] to
    the node that has the id at its target, where these nodes are
    now.  [drawn] are the nodes the page has a node group for. *)
Definition line_follows (s : Store) (drawn : list nat) (l : LinkDatum.t)
    (ln : LineEl) : Prop :=
  exists i j a b na nb,
    LinkDatum.source l = EId i /\ LinkDatum.target l = EId j /\
    a ∈ drawn /\ b ∈ drawn /\
    node_objs s !! a = Some na /\ node_objs s !! b = Some nb /\
    id (Node.dev na) = i /\ id (Node.dev nb) = j /\
    Footprint.positioned na /\ Footprint.positioned nb /\
    x1 ln = Node.x na /\ y1 ln = Node.y na /\
    x2 ln = Node.x nb /\ y2 ln = Node.y nb.

End Resolved.

(* ===================================================================== *)
(** * More vocabulary: where the elements are *)
(* ===================================================================== *)

Module Page.
Import TopologyGraph Footprint.

Local Open Scope Q_scope.

(** Both ends of the line are numbers. *)
Definition line_numbers (ln : LineEl) : Prop :=
  is_Some (x1 ln) /\ is_Some (y1 ln) /\ is_Some (x2 ln) /\ is_Some (y2 ln).

(** The node group is translated to where its node is now, a pair of
    numbers. *)
Definition group_current (s : Store) (g : NodeEl) : Prop :=
  exists n x y,
    node_objs s !! g_datum g = Some n /\
    Node.x n = Some x /\ Node.y n = Some y /\
    g_at g = Some (Some x, Some y).

(** The label is translated to the middle between the two nodes of its
    link, as they are now. *)
Definition label_current (s : Store) (lb : LabelEl) : Prop :=
  exists d a b na nb sx sy tx ty,
    link_objs s !! label_datum lb = Some d /\
    LinkDatum.source d = ERef a /\ LinkDatum.target d = ERef b /\
    node_objs s !! a = Some na /\ node_objs s !! b = Some nb /\
    Node.x na = Some sx /\ Node.y na = Some sy /\
    Node.x nb = Some tx /\ Node.y nb = Some ty /\
    label_at lb = Some ((sx + tx) / 2, (sy + ty) / 2).

(** Every node group and every label on the page was made by effect
    run [i], for a node that has a position and for a link whose ends
    are resolved. *)
Definition staged (i : nat) (v : View) : Prop :=
  Forall (fun g => g_sim g = i /\
            exists n, node_objs (store v) !! g_datum g = Some n /\
                      positioned n) (groups v) /\
  Forall (fun lb => label_sim lb = i /\
            exists d, link_objs (store v) !! label_datum lb = Some d /\
                      Spec.resolved d) (labels v).

Definition pictured (v : View) : Prop :=
  Forall (group_current (store v)) (groups v) /\
  Forall (label_current (store v)) (labels v).

End Page.

(* ===================================================================== *)
(** * More of the small data set *)
(* ===================================================================== *)

Module Cases.
Import TopologyGraph.

Local Open Scope Q_scope.

(** The sample played through in the first revision. *)
Definition first_played : View :=
  Eval vm_compute in
    Sample.the_view
      (run Sample.still Sample.row rev1 (initial Sample.caller)
           Sample.mounted_and_played).

(** The object the click of [Sample.play] handed to [onNodeClick]. *)
Definition clicked : Node.t :=
  Eval vm_compute in
    default (Node.of_device (Sample.device "" ""))
            (Footprint.selectedDevice Sample.played).

(** The zooming of [Sample.zooming] in the two revisions that keep the
    zoom level. *)
Definition zoomed_first : View :=
  Eval vm_compute in
    Sample.the_view
      (run Sample.still Sample.row rev1 (initial Sample.caller)
           Sample.zooming).

Definition zoomed_second : View :=
  Eval vm_compute in
    Sample.the_view
      (run Sample.still Sample.row rev2 (initial Sample.caller)
           Sample.zooming).

(** The button stays down on the first node while the timer fires and
    the pointer moves. *)
Definition holding_on : list Event :=
  [ Frame 0; MouseMove (Sample.at_point 7 5); Frame 0;
    Wheel 2 (1, 1); Frame 0 ].

Definition held : View :=
  Eval vm_compute in
    Sample.the_view
      (run Sample.still Sample.row rev3 Sample.rendered
           (MouseDown 0 (Sample.at_point 5 5) :: holding_on)).

(** Two data sets one after the other, and a frame of each
    simulation. *)
Definition twice : list Event :=
  [ Render Sample.good; Frame 0; Render Sample.good; Frame 0; Frame 1 ].

Definition rendered_twice : View :=
  Eval vm_compute in
    Sample.the_view
      (run Sample.still Sample.row rev3 (initial Sample.caller) twice).

Definition second_sim : Force.Simulation :=
  Eval vm_compute in Sample.the_sim (sims rendered_twice !! 1%nat).

(** Two devices that share an id. *)
Definition twins : Store :=
  mkStore
    [ Node.of_device (Sample.device "a" DeviceStatus.ONLINE);
      Node.of_device (Sample.device "a" DeviceStatus.OFFLINE) ]
    [].

(** The first of the default devices. *)
Definition core : NetconfDeviceConfig :=
  mkConfig "core-01" "Core-Router-01" "192.168.10.1" 830 "admin" None
           "ROUTER".

(** What the caller holds when it replaces the nodes and keeps the
    links: the devices "a" and "b" twice, as the objects of the first
    and of the second data set, and the one link object between
    them. *)
Definition resupplied : Store :=
  mkStore
    [ Node.of_device (Sample.device "a" DeviceStatus.ONLINE);
      Node.of_device (Sample.device "b" DeviceStatus.ONLINE);
      Node.of_device (Sample.device "a" DeviceStatus.ONLINE);
      Node.of_device (Sample.device "b" DeviceStatus.ONLINE) ]
    [ LinkDatum.of_link (Link.mk "a" "b" "1Gbps" "UP" None) ].

Definition first_set : Props := mkProps [0; 1]%nat [0]%nat true 800 600.
Definition second_set : Props := mkProps [2; 3]%nat [0]%nat true 800 600.

(** Forces that move every node one unit to the right in a tick. *)
Definition drift (c : Force.Config) (alpha : Q) (ks : list Force.Kin)
    (ls : list (nat * nat)) : list Force.Kin :=
  (fun k => Force.mkKin (Force.kx k + 1) (Force.ky k) (Force.kvx k)
                        (Force.kvy k)) <$> ks.

(** The first data set and a tick, then the second data set and three
    ticks. *)
Definition replaced_nodes : list Event :=
  [ Render first_set; Frame 0; Render second_set; Frame 1; Frame 1; Frame 1 ].

(** Where the lines and the node groups are, in lowest terms. *)
Definition line_ends (v : View) : list (option Q * option Q) :=
  (fun ln => (Qred <$> x1 ln, Qred <$> x2 ln)) <$> lines v.
Definition group_xs (v : View) : list (nat * option Q) :=
  (fun g => (g_datum g, Qred <$> (g_at g ≫= fst))) <$> groups v.

End Cases.

(* ===================================================================== *)
(** * Theorems: rounding *)
(* ===================================================================== *)

Module NumberFacts.

Import Number.

Local Open Scope Q_scope.

Lemma nearest_even_le (q : Q) : inject_Z (nearest_even q) <= q + (1 # 2).
Proof.
  unfold nearest_even.
  pose proof (Qfloor_le q) as Hf.
  destruct (Qcompare_spec (q - inject_Z (Qfloor q)) (1 # 2)) as [He | Hl | Hg].
  - destruct (Z.even (Qfloor q)); [lra |].
    rewrite inject_Z_plus. change (inject_Z 1) with 1. lra.
  - lra.
  - rewrite inject_Z_plus. change (inject_Z 1) with 1. lra.
Qed.

Lemma nearest_even_ge (q : Q) : q - (1 # 2) <= inject_Z (nearest_even q).
Proof.
  unfold nearest_even.
  pose proof (Qlt_floor q) as Hf. rewrite inject_Z_plus in Hf.
  change (inject_Z 1) with 1 in Hf.
  destruct (Qcompare_spec (q - inject_Z (Qfloor q)) (1 # 2)) as [He | Hl | Hg].
  - destruct (Z.even (Qfloor q)); [lra |].
    rewrite inject_Z_plus. change (inject_Z 1) with 1. lra.
  - lra.
  - rewrite inject_Z_plus. change (inject_Z 1) with 1. lra.
Qed.

Lemma nearest_even_nonneg (q : Q) : 0 <= q -> (0 <= nearest_even q)%Z.
Proof.
  intros Hq. unfold nearest_even.
  assert (Hf : (0 <= Qfloor q)%Z).
  { change 0%Z with (Qfloor 0). by apply Qfloor_resp_le. }
  destruct (Qcompare _ _); [destruct (Z.even _) | |]; lia.
Qed.

(** The literals of mockData.ts as doubles: 0.9 and 0.8 lie above the
    decimal fractions they are written as, 0.7 lies below, 0.5 is
    exact. *)
Lemma literals :
  lit (9 # 10) == 8106479329266893 # 9007199254740992 /\
  9 # 10 < lit (9 # 10) /\ 8 # 10 < lit (8 # 10) /\
  lit (7 # 10) < 7 # 10 /\ lit (1 # 2) == 1 # 2.
Proof. repeat split; by vm_compute. Qed.

(** A product is rounded before it is floored:
    [Math.floor(0.99 * 100)] is 99, although the double 0.99 times 100
    is less than 99. *)
Lemma floor_of_rounded_product :
  Qfloor (mul (lit (99 # 100)) 100) = 99%Z /\
  Qfloor (lit (99 # 100) * 100) = 98%Z.
Proof. split; by vm_compute. Qed.

(** Ties go to the even neighbour, in the normal and in the subnormal
    range; the smallest double is 2^-1074. *)
Lemma round_ties :
  round (inject_Z (2 ^ 53 + 1)) == inject_Z (2 ^ 53) /\
  round (inject_Z (2 ^ 53 + 3)) == inject_Z (2 ^ 53 + 4) /\
  round (2 ^ (-1075)) == 0 /\
  round (3 * 2 ^ (-1075)) == 2 ^ (-1073) /\
  round (- (1 # 10)) == - lit (1 # 10).
Proof. repeat split; by vm_compute. Qed.

Lemma pow2_pos (e : Z) : 0 < 2 ^ e.
Proof. by apply Qpower_0_lt. Qed.

Lemma log2_floor_le (q : Q) : 0 < q -> 2 ^ log2_floor q <= q.
Proof.
  intros Hq. unfold log2_floor. destruct q as [a b]. simpl Qnum. simpl Qden.
  set (e := (Z.log2 a - Z.log2 (Z.pos b))%Z).
  destruct (Qle_bool (2 ^ e) (a # b)) eqn:E; [by apply Qle_bool_iff |].
  assert (Ha : (0 < a)%Z).
  { unfold Qlt in Hq. simpl in Hq. lia. }
  destruct (Z.log2_spec a Ha) as [Hla _].
  destruct (Z.log2_spec (Z.pos b) eq_refl) as [_ Hlb].
  pose proof (Z.log2_nonneg a) as Hna.
  pose proof (Z.log2_nonneg (Z.pos b)) as Hnb.
  set (la := Z.log2 a) in *. set (lb := Z.log2 (Z.pos b)) in *.
  replace (e - 1)%Z with (la - Z.succ lb)%Z by (subst e; lia).
  rewrite Qpower_minus by done.
  rewrite <- !(Zpower_Qpower 2) by lia.
  apply Qle_shift_div_r.
  { rewrite <- (Zlt_Qlt 0). lia. }
  rewrite (Qmake_Qdiv a b). unfold Qdiv.
  rewrite <- Qmult_assoc, (Qmult_comm (/ _)), Qmult_assoc.
  apply Qle_shift_div_l; [by rewrite <- (Zlt_Qlt 0) |].
  rewrite <- !inject_Z_mult, <- Zle_Qle. nia.
Qed.

Lemma log2_floor_lt (q : Q) : 0 < q -> q < 2 ^ (log2_floor q + 1).
Proof.
  intros Hq. unfold log2_floor. destruct q as [a b]. simpl Qnum. simpl Qden.
  set (e := (Z.log2 a - Z.log2 (Z.pos b))%Z).
  destruct (Qle_bool (2 ^ e) (a # b)) eqn:E.
  2:{ replace (e - 1 + 1)%Z with e by lia.
      apply Qnot_le_lt. intros H. apply Qle_bool_iff in H. congruence. }
  assert (Ha : (0 < a)%Z).
  { unfold Qlt in Hq. simpl in Hq. lia. }
  destruct (Z.log2_spec a Ha) as [_ Hla].
  destruct (Z.log2_spec (Z.pos b) eq_refl) as [Hlb _].
  pose proof (Z.log2_nonneg a) as Hna.
  pose proof (Z.log2_nonneg (Z.pos b)) as Hnb.
  set (la := Z.log2 a) in *. set (lb := Z.log2 (Z.pos b)) in *.
  replace (e + 1)%Z with (Z.succ la - lb)%Z by (unfold e; lia).
  rewrite Qpower_minus by done.
  rewrite <- !(Zpower_Qpower 2) by lia.
  apply Qlt_shift_div_l.
  { rewrite <- (Zlt_Qlt 0). lia. }
  rewrite (Qmake_Qdiv a b). unfold Qdiv.
  rewrite <- Qmult_assoc, (Qmult_comm (/ _)), Qmult_assoc.
  apply Qlt_shift_div_r; [by rewrite <- (Zlt_Qlt 0) |].
  rewrite <- !inject_Z_mult, <- Zlt_Qlt. nia.
Qed.

(** The rounded value is within half a unit in the last place. *)
Lemma round_pos_near (q : Q) :
  0 < q ->
  q - 2 ^ quantum q * (1 # 2) <= round_pos q /\
  round_pos q <= q + 2 ^ quantum q * (1 # 2).
Proof.
  intros Hq. unfold round_pos.
  pose proof (pow2_pos (quantum q)) as Hu.
  set (u := 2 ^ quantum q) in *.
  pose proof (nearest_even_le (q / u)) as Hn.
  pose proof (nearest_even_ge (q / u)) as Hm.
  apply (Qmult_le_compat_r _ _ u) in Hn; [| lra].
  apply (Qmult_le_compat_r _ _ u) in Hm; [| lra].
  assert (E1 : (q / u + (1 # 2)) * u == q + u * (1 # 2)) by (field; lra).
  assert (E2 : (q / u - (1 # 2)) * u == q - u * (1 # 2)) by (field; lra).
  rewrite E1 in Hn. rewrite E2 in Hm. by split.
Qed.

Lemma round_pos_le (q : Q) :
  0 < q -> round_pos q <= q + 2 ^ quantum q * (1 # 2).
Proof. intros Hq. by apply round_pos_near. Qed.

Lemma round_nonneg (q : Q) : 0 <= q -> 0 <= round q.
Proof.
  intros Hq. unfold round.
  destruct (Qcompare_spec q 0) as [He | Hl | Hg]; [lra | lra |].
  unfold round_pos. pose proof (pow2_pos (quantum q)) as Hu.
  apply Qmult_le_0_compat; [| lra].
  rewrite <- (Zle_Qle 0). apply nearest_even_nonneg.
  apply Qle_shift_div_l; lra.
Qed.

(** A product with a number below one stays below the other factor
    after rounding. *)
Lemma round_below (n x : Q) :
  1 <= n -> 0 <= x -> x <= n * (1 - 2 ^ (-53)) -> round x < n.
Proof.
  intros Hn Hx Hle. unfold round.
  destruct (Qcompare_spec x 0) as [He | Hl | Hg]; [lra | lra |].
  pose proof (round_pos_le x Hg) as Hr.
  pose proof (log2_floor_le x Hg) as Hlog.
  unfold quantum in Hr.
  destruct (Z.max_spec (log2_floor x) (-1022)) as [[_ Hmax] | [_ Hmax]];
    rewrite Hmax in Hr.
  - change (2 ^ (-1022 - 52)) with (2 ^ (-1074)) in Hr.
    assert (Hs : 2 ^ (-1074) * (1 # 2) < 2 ^ (-53)) by (by vm_compute).
    assert (Hc : 0 < 2 ^ (-53)) by (by vm_compute).
    set (c := 2 ^ (-53)) in *. set (u := 2 ^ (-1074)) in *. nra.
  - replace (log2_floor x - 52)%Z with (log2_floor x + -52)%Z in Hr by lia.
    rewrite Qpower_plus in Hr by done.
    set (p := 2 ^ log2_floor x) in *.
    assert (Hp : 0 < p) by apply pow2_pos.
    assert (Hc : 2 ^ (-52) * (1 # 2) == 2 ^ (-53)) by (by vm_compute).
    assert (Hc0 : 0 < 2 ^ (-53) /\ 2 ^ (-53) < 1) by (split; by vm_compute).
    set (c := 2 ^ (-53)) in *. set (c2 := 2 ^ (-52)) in *.
    assert (Hr' : round_pos x <= x + p * c).
    { rewrite <- Hc. lra. }
    nra.
Qed.

(** The largest double below one is 1 - 2^-53. *)
Lemma double_below_one (r : Q) :
  is_double r -> r < 1 -> r <= 1 - 2 ^ (-53).
Proof.
  intros (m & e & Hm & [He _] & Hr) H1.
  destruct (Z_le_gt_dec (-53) e) as [Hge | Hlt].
  - assert (Hr' : r == inject_Z (m * 2 ^ (e + 53)) * 2 ^ (-53)).
    { rewrite Hr, inject_Z_mult, Zpower_Qpower by lia.
      rewrite <- Qmult_assoc, <- Qpower_plus by done.
      by replace (e + 53 + -53)%Z with e by lia. }
    set (M := (m * 2 ^ (e + 53))%Z) in *.
    assert (HM : (M < 2 ^ 53)%Z).
    { rewrite Zlt_Qlt. rewrite Hr' in H1.
      assert (Hc : 2 ^ (-53) * inject_Z (2 ^ 53) == 1) by (by vm_compute).
      assert (Hc0 : 0 < 2 ^ (-53)) by (by vm_compute).
      set (c := 2 ^ (-53)) in *. set (t := inject_Z (2 ^ 53)) in *. nra. }
    assert (HM' : inject_Z M <= inject_Z (2 ^ 53 - 1)).
    { rewrite <- Zle_Qle. lia. }
    rewrite Hr'.
    assert (Hc : inject_Z (2 ^ 53 - 1) * 2 ^ (-53) == 1 - 2 ^ (-53))
      by (by vm_compute).
    assert (Hc0 : 0 < 2 ^ (-53)) by (by vm_compute).
    rewrite <- Hc. apply Qmult_le_compat_r; [exact HM' | lra].
  - assert (Hp : 2 ^ e <= 2 ^ (-54)).
    { apply Qpower_le_compat_l; [lia | lra]. }
    assert (Hm' : inject_Z m <= inject_Z (2 ^ 53)).
    { rewrite <- Zle_Qle. lia. }
    pose proof (pow2_pos e) as He0.
    assert (Hc : inject_Z (2 ^ 53) * 2 ^ (-54) <= 1 - 2 ^ (-53))
      by (by vm_compute).
    assert (Ht : 0 <= inject_Z (2 ^ 53)) by (by vm_compute).
    rewrite Hr.
    set (p := 2 ^ e) in *. set (t := inject_Z (2 ^ 53)) in *.
    set (c := 2 ^ (-54)) in *. set (d := 2 ^ (-53)) in *.
    set (im := inject_Z m) in *. nra.
Qed.

(** [Math.floor(r * n)] for a random number [r] and a positive integer
    [n]. *)
Lemma floor_mul_range (r : Q) (n : Z) :
  is_double r -> 0 <= r -> r < 1 -> (0 < n)%Z ->
  (0 <= Qfloor (mul r (inject_Z n)) < n)%Z.
Proof.
  intros Hd H0 H1 Hn. unfold mul.
  assert (Hq : 1 <= inject_Z n) by (rewrite <- (Zle_Qle 1); lia).
  pose proof (double_below_one r Hd H1) as Hr.
  assert (Hc0 : 0 < 2 ^ (-53)) by (by vm_compute).
  set (c := 2 ^ (-53)) in *.
  split.
  - change 0%Z with (Qfloor 0). apply Qfloor_resp_le, round_nonneg. nra.
  - rewrite Zlt_Qlt.
    eapply Qle_lt_trans; [apply Qfloor_le |].
    apply round_below; [exact Hq | nra | fold c; nra].
Qed.

End NumberFacts.

(* ===================================================================== *)
(** * Theorems: mockData.ts *)
(* ===================================================================== *)

Module MockDataFacts.
Import MockData Spec.

Lemma randomBelow_range rnd n k :
  random_ok rnd -> 0 < n ->
  exists j, randomBelow rnd n k = (j, S k) /\ 0 <= j < n.
Proof.
  intros Hr Hn. unfold randomBelow, bind, random, ret.
  eexists; split; [reflexivity |].
  destruct (Hr k) as (Hd & H0 & H1). by apply NumberFacts.floor_mul_range.
Qed.

Lemma js_index_in_range {A} (arr : list A) (i : Z) :
  0 <= i < Z.of_nat (length arr) ->
  exists a, js_index arr i = Some a /\ a ∈ arr.
Proof.
  intros [H0 H1]. unfold js_index.
  destruct (Z.ltb_spec i 0); [lia |].
  destruct (lookup_lt_is_Some_2 arr (Z.to_nat i)) as [a Ha]; [lia |].
  exists a. split; [exact Ha |]. eapply list_elem_of_lookup_2, Ha.
Qed.

Lemma ringStep_ok rnd ns acc i k :
  random_ok rnd -> (i < length ns)%nat ->
  exists new k',
    ringStep rnd ns acc i k = (Ok (acc ++ new), k') /\ Forall (link_ok ns) new.
Proof.
  intros Hr Hi. unfold ringStep.
  destruct (lookup_lt_is_Some_2 ns i Hi) as [s Hs]. rewrite Hs.
  assert (Hsin : s ∈ ns) by (eapply list_elem_of_lookup_2, Hs).
  assert (Hpos : 0 < Z.of_nat (length ns)) by lia.
  destruct (js_index_in_range ns ((Z.of_nat i + 1) mod Z.of_nat (length ns)))
    as (t & Ht & Htin); [by apply Z.mod_pos_bound |].
  rewrite Ht. unfold bind at 1, random at 1.
  set (ring := Link.mk (id s) (id t) _ _ None).
  assert (Hring : link_ok ns ring).
  { repeat split; [by exists s | by exists t |].
    subst ring; simpl. by destruct (Qgtb (rnd k) _). }
  destruct (3 <? Z.of_nat (length ns)).
  2:{ exists [ring], (S k). split; [reflexivity | by constructor]. }
  unfold bind at 1, random at 1.
  destruct (Qgtb (rnd (S k)) _).
  2:{ exists [ring], (S (S k)). split; [reflexivity | by constructor]. }
  destruct (randomBelow_range rnd (Z.of_nat (length ns)) (S (S k)) Hr Hpos)
    as (j & Hj & Hjr).
  unfold bind. rewrite Hj.
  destruct (js_index_in_range ns j Hjr) as (rt & Hrt & Hrtin). rewrite Hrt.
  destruct (bool_decide (id rt = id s)) eqn:E1; simpl.
  { exists [ring], (S (S (S k))). split; [reflexivity | by constructor]. }
  destruct (bool_decide (id rt = id t)) eqn:E2; simpl.
  { exists [ring], (S (S (S k))). split; [reflexivity | by constructor]. }
  exists [ring; Link.mk (id s) (id rt) "40Gbps" "UP" None], (S (S (S k))).
  split; [unfold ret; by rewrite <- app_assoc |].
  apply Forall_cons_2; [exact Hring |].
  apply Forall_cons_2; [| constructor].
  split; [by exists s | split; [by exists rt |]]. simpl.
  intros _ Heq. apply bool_decide_eq_false in E1. congruence.
Qed.

Lemma ringLoop_ok rnd ns idxs : forall acc k,
  random_ok rnd -> Forall (fun i => (i < length ns)%nat) idxs ->
  exists new k',
    ringLoop rnd ns idxs acc k = (Ok (acc ++ new), k') /\
    Forall (link_ok ns) new.
Proof.
  induction idxs as [| i rest IH]; intros acc k Hr Hall; simpl.
  - exists [], k. rewrite app_nil_r. split; [reflexivity | constructor].
  - inversion Hall as [| ? ? Hi Hrest]; subst.
    destruct (ringStep_ok rnd ns acc i k Hr Hi) as (new1 & k1 & E1 & F1).
    unfold bind. rewrite E1.
    destruct (IH (acc ++ new1) k1 Hr Hrest) as (new2 & k2 & E2 & F2).
    exists (new1 ++ new2), k2. rewrite E2, app_assoc.
    split; [reflexivity | by apply Forall_app].
Qed.

(** C10. For every config list and every run of [Math.random], the call
    returns normally; every returned link has the ids of two returned
    nodes as its source and target; links exist only when there are at
    least two nodes; and a mesh link (the '40Gbps' ones) never has the
    same id at both ends. *)
Theorem generateTopologyFromConfig_links_wf rnd configs k :
  random_ok rnd ->
  exists t k',
    generateTopologyFromConfig rnd configs k = (Ok t, k') /\
    (forall l, l ∈ links t ->
       (exists d, d ∈ nodes t /\ id d = Link.source l) /\
       (exists d, d ∈ nodes t /\ id d = Link.target l)) /\
    (links t <> [] -> (2 <= length (nodes t))%nat) /\
    (forall l, l ∈ links t -> Link.bandwidth l = "40Gbps" -> Link.source l <> Link.target l).
Proof.
  intros Hr. unfold generateTopologyFromConfig, bind.
  destruct (mapM (generateDeviceStatus rnd) configs k) as [ns k0].
  destruct (Z.ltb_spec 1 (Z.of_nat (length ns))) as [Hlen | Hlen].
  - destruct (ringLoop_ok rnd ns (seq 0 (length ns)) [] k0 Hr)
      as (new & k1 & E & F).
    { apply Forall_forall. intros i Hi. apply elem_of_seq in Hi. lia. }
    rewrite E. simpl in *. exists (mkTopology ns new), k1.
    rewrite Forall_forall in F.
    split; [reflexivity |]. simpl. split; [| split].
    + intros l Hl. destruct (F l Hl) as (Hs & Ht & _). by split.
    + lia.
    + intros l Hl. apply (F l Hl).
  - exists (mkTopology ns []), k0. split; [reflexivity |]. simpl.
    split; [| split].
    + intros l Hl. by apply elem_of_nil in Hl.
    + intros Hne. by destruct Hne.
    + intros l Hl. by apply elem_of_nil in Hl.
Qed.


(** C10 on four devices, with a [Math.random] that always returns 3/4
    (so every device is online and every round adds a mesh link when the
    chosen node allows it). *)
Lemma generateTopologyFromConfig_links_wf_witness :
  random_ok Sample.three_quarters /\
  exists t k',
    generateTopologyFromConfig Sample.three_quarters Sample.four 0%nat
      = (Ok t, k')
    /\
    (forall l, l ∈ links t ->
       (exists d, d ∈ nodes t /\ id d = Link.source l) /\
       (exists d, d ∈ nodes t /\ id d = Link.target l)) /\
    (links t <> [] -> (2 <= length (nodes t))%nat) /\
    (forall l, l ∈ links t -> Link.bandwidth l = "40Gbps" ->
               Link.source l <> Link.target l).
Proof.
  assert (H : random_ok Sample.three_quarters).
  { intros k. split; [| split; vm_compute; congruence].
    exists 3%Z, (-2)%Z. split; [reflexivity |]. split; [lia | reflexivity]. }
  split; [exact H |].
  exact (generateTopologyFromConfig_links_wf Sample.three_quarters
           Sample.four 0%nat H).
Defined.

End MockDataFacts.

(* ===================================================================== *)
(** * Theorems: the zoom scale *)
(* ===================================================================== *)

Module ZoomFacts.
Import TopologyGraph Spec.

Local Open Scope Q_scope.

Lemma clamp_in_extent (q : Q) : in_extent (Zoom.clamp scaleExtent q).
Proof.
  unfold Zoom.clamp, scaleExtent, in_extent; simpl. split.
  - apply Q.le_max_l.
  - apply Q.max_lub; [done | apply Q.le_min_l].
Qed.

Lemma scale_in_extent t q :
  in_extent (Zoom.k t) -> in_extent (Zoom.k (Zoom.scale scaleExtent t q)).
Proof.
  intros H. unfold Zoom.scale.
  destruct (Qeq_bool _ _); [exact H | apply clamp_in_extent].
Qed.

Lemma translate_k t p0 p1 : Zoom.k (Zoom.translate t p0 p1) = Zoom.k t.
Proof. unfold Zoom.translate. by destruct (_ && _). Qed.

Lemma wheeled_in_extent t f p :
  in_extent (Zoom.k t) -> in_extent (Zoom.k (Zoom.wheeled scaleExtent t f p)).
Proof.
  intros H. unfold Zoom.wheeled.
  destruct (Qeq_bool _ _); [exact H |].
  rewrite translate_k. by apply scale_in_extent.
Qed.

Lemma dblclicked_in_extent t sh p :
  in_extent (Zoom.k t) ->
  in_extent (Zoom.k (Zoom.dblclicked scaleExtent t sh p)).
Proof.
  intros H. unfold Zoom.dblclicked. rewrite translate_k.
  by apply scale_in_extent.
Qed.

Lemma panned_in_extent t p0 p :
  in_extent (Zoom.k t) -> in_extent (Zoom.k (Zoom.panned t p0 p)).
Proof. intros H. unfold Zoom.panned. by rewrite translate_k. Qed.

Lemma pinched_in_extent t r p l :
  in_extent (Zoom.k t) ->
  in_extent (Zoom.k (Zoom.pinched scaleExtent t r p l)).
Proof.
  intros H. unfold Zoom.pinched. rewrite translate_k.
  by apply scale_in_extent.
Qed.

Section WithPhysics.

Variable forces : Force.Config -> Q -> list Force.Kin -> list (nat * nat)
  -> list Force.Kin.
Variable phyllotaxis : nat -> Q * Q.

Lemma zoom_by_ok rev f v :
  (forall t, in_extent (Zoom.k t) -> in_extent (Zoom.k (f t))) ->
  zoom_ok v -> zoom_ok (zoom_by rev f v).
Proof.
  intros Hf [Hz Hl]. unfold zoom_by, zoomed.
  destruct (zoomable v); [| by split].
  destruct (tracks_zoom rev); split; simpl; auto.
Qed.

Lemma run_cleanup_zoom_ok v : zoom_ok v -> zoom_ok (run_cleanup v).
Proof. unfold run_cleanup. by destruct (cleanup v). Qed.

Lemma effect_zoom_ok rev p v v' :
  effect phyllotaxis rev p v = Ok v' -> zoom_ok v -> zoom_ok v'.
Proof.
  unfold effect. intros H Hv.
  destruct (guards_empty rev && Nat.eqb (length (nodes p)) 0).
  { congruence. }
  destruct (own_data rev p (store v)) as [[ns ls] s2].
  destruct (Force.forceSimulation phyllotaxis ns s2) as [sim s3].
  destruct (Force.withForces _ ls sim s3) as [[sim' s4] | msg]; [| done].
  by injection H as <-.
Qed.

Lemma identity_ok : in_extent (Zoom.k Zoom.identity) /\ in_extent 1.
Proof. by vm_compute. Qed.

Lemma frame_zoom_ok i v : zoom_ok v -> zoom_ok (frame forces i v).
Proof.
  unfold frame. intros H.
  destruct (sims v !! i) as [sim |]; [| done].
  destruct (Force.running sim); [| done].
  destruct (Force.tick forces sim (store v)) as [sim' s'].
  by destruct (Force.on_tick sim').
Qed.

Lemma mousedown_zoom_ok el e v : zoom_ok v -> zoom_ok (mousedown el e v).
Proof.
  unfold mousedown, dragstarted. intros H.
  destruct (groups v !! el); [| done].
  destruct (drags v !! _); [| done].
  destruct (node_objs (store v) !! _); [| done]. simpl.
  by destruct (Nat.eqb _ _).
Qed.

Lemma mousemove_zoom_ok e v : zoom_ok v -> zoom_ok (mousemove e v).
Proof.
  unfold mousemove. intros H.
  destruct (window_drag v); [| done].
  by destruct (_ ≫= _) as [[b g] |].
Qed.

Lemma mouseup_zoom_ok e v : zoom_ok v -> zoom_ok (mouseup e v).
Proof.
  unfold mouseup, dragended. intros H.
  destruct (window_drag v); [| done].
  destruct (_ ≫= _) as [[b g] |]; [| done]. simpl.
  by destruct (Nat.eqb _ _).
Qed.

Lemma click_zoom_ok el v : zoom_ok v -> zoom_ok (click el v).
Proof.
  unfold click. intros H. destruct (noclick v); [done |].
  destruct (groups v !! el) as [g |]; [| done].
  by destruct (g_click g) as [[] |].
Qed.

Lemma handle_zoom_ok rev v ev v' :
  handle forces phyllotaxis rev v ev = Ok v' -> zoom_ok v -> zoom_ok v'.
Proof.
  intros H Hv.
  assert (Hv0 : zoom_ok (expire_noclick ev v)) by (by destruct ev).
  unfold handle in H. destruct ev; simpl in H; try injection H as <-.
  - eapply effect_zoom_ok; [exact H |]. by apply run_cleanup_zoom_ok.
  - apply identity_ok.
  - by apply frame_zoom_ok.
  - by apply mousedown_zoom_ok.
  - by apply mousemove_zoom_ok.
  - by apply mouseup_zoom_ok.
  - by apply click_zoom_ok.
  - apply zoom_by_ok; [| done]. intros t. apply wheeled_in_extent.
  - apply zoom_by_ok; [| done]. intros t. apply dblclicked_in_extent.
  - apply zoom_by_ok; [| done]. intros t. apply panned_in_extent.
  - apply zoom_by_ok; [| done]. intros t. apply pinched_in_extent.
Qed.

Lemma run_zoom_ok rev evs : forall v v',
  run forces phyllotaxis rev v evs = Ok v' -> zoom_ok v -> zoom_ok v'.
Proof.
  induction evs as [| ev evs IH]; intros v v' H Hv; simpl in H.
  - by injection H as <-.
  - destruct (handle forces phyllotaxis rev v ev) as [v1 | msg] eqn:E;
      [| done].
    eapply IH; [exact H |]. by eapply handle_zoom_ok.
Qed.

(** C6. Whatever the component is put through from its mount on
    (renders, frames, pointer, wheel and touch input), the scale of the
    viewport transform is in [0.1, 4], and so is the zoom level the
    revisions with [setZoomLevel] display. *)
Theorem zoom_scale_in_extent rev s evs v :
  run forces phyllotaxis rev (initial s) evs = Ok v ->
  (1 # 10 <= Zoom.k (zoom v) /\ Zoom.k (zoom v) <= 4) /\
  (1 # 10 <= zoomLevel v /\ zoomLevel v <= 4).
Proof.
  intros H. eapply (run_zoom_ok rev evs _ _ H). apply identity_ok.
Qed.

End WithPhysics.


(** C6 on the sample: a wheel event that asks for a hundredfold scale, a
    double click, a pinch down to a thousandth, a shifted double click
    and a pan. *)
Lemma zoom_scale_in_extent_witness :
  run Sample.still Sample.row rev3 (initial Sample.caller) Sample.zooming
  = Ok Sample.zoomed_view /\
  (1 # 10 <= Zoom.k (zoom Sample.zoomed_view) /\
   Zoom.k (zoom Sample.zoomed_view) <= 4) /\
  (1 # 10 <= zoomLevel Sample.zoomed_view /\
   zoomLevel Sample.zoomed_view <= 4).
Proof.
  assert (H : run Sample.still Sample.row rev3 (initial Sample.caller)
                  Sample.zooming = Ok Sample.zoomed_view)
    by (vm_compute; reflexivity).
  split; [exact H |].
  exact (zoom_scale_in_extent Sample.still Sample.row rev3 Sample.caller
           Sample.zooming Sample.zoomed_view H).
Defined.

End ZoomFacts.

(* ===================================================================== *)
(** * Theorems: what the store operations touch *)
(* ===================================================================== *)

Module StoreFacts.

Lemma update_node_ne a a' f s :
  a <> a' -> node_objs (update_node a f s) !! a' = node_objs s !! a'.
Proof. intros H. simpl. by apply list_lookup_alter_ne. Qed.

Lemma update_node_eq a f s :
  node_objs (update_node a f s) !! a = f <$> node_objs s !! a.
Proof. simpl. apply list_lookup_alter_eq. Qed.

(** A field that [f] leaves alone is the same at every address. *)
Lemma update_node_proj {B} (pr : Node.t -> B) a a' f s :
  (forall n, pr (f n) = pr n) ->
  pr <$> node_objs (update_node a f s) !! a' = pr <$> node_objs s !! a'.
Proof.
  intros H. destruct (decide (a = a')) as [<- | Hne].
  - rewrite update_node_eq. destruct (node_objs s !! a) as [n |]; [| done].
    simpl. by rewrite H.
  - by rewrite update_node_ne.
Qed.

Lemma update_node_length a f s :
  length (node_objs (update_node a f s)) = length (node_objs s).
Proof. simpl. apply length_alter. Qed.

Lemma update_link_ne a a' f s :
  a <> a' -> link_objs (update_link a f s) !! a' = link_objs s !! a'.
Proof. intros H. simpl. by apply list_lookup_alter_ne. Qed.

Lemma update_link_eq a f s :
  link_objs (update_link a f s) !! a = f <$> link_objs s !! a.
Proof. simpl. apply list_lookup_alter_eq. Qed.

Lemma update_link_length a f s :
  length (link_objs (update_link a f s)) = length (link_objs s).
Proof. simpl. apply length_alter. Qed.

Section WithPhysics.

Variable forces : Force.Config -> Q -> list Force.Kin -> list (nat * nat)
  -> list Force.Kin.
Variable phyllotaxis : nat -> Q * Q.

(** ** initializeNodes *)

Lemma initializeNode_dev i n :
  Node.dev (Force.initializeNode phyllotaxis i n) = Node.dev n.
Proof.
  unfold Force.initializeNode.
  destruct n as [d ix x y vx vy fx fy]; simpl.
  destruct fx, fy, x, y, vx, vy; simpl;
    try destruct (phyllotaxis i); reflexivity.
Qed.

Lemma initializeNodes_links ns : forall i s,
  link_objs (Force.initializeNodes phyllotaxis i ns s) = link_objs s.
Proof.
  induction ns as [| a ns IH]; intros i s; simpl; [done |]. by rewrite IH.
Qed.

Lemma initializeNodes_length ns : forall i s,
  length (node_objs (Force.initializeNodes phyllotaxis i ns s))
  = length (node_objs s).
Proof.
  induction ns as [| a ns IH]; intros i s; simpl; [done |].
  by rewrite IH, update_node_length.
Qed.

Lemma initializeNodes_other ns : forall i s a',
  a' ∉ ns ->
  node_objs (Force.initializeNodes phyllotaxis i ns s) !! a'
  = node_objs s !! a'.
Proof.
  induction ns as [| a ns IH]; intros i s a' Hn; simpl; [done |].
  apply not_elem_of_cons in Hn as [Hne Hn].
  rewrite IH by done. by apply update_node_ne.
Qed.

Lemma initializeNodes_dev ns : forall i s a',
  Node.dev <$> node_objs (Force.initializeNodes phyllotaxis i ns s) !! a'
  = Node.dev <$> node_objs s !! a'.
Proof.
  induction ns as [| a ns IH]; intros i s a'; simpl; [done |].
  rewrite IH. apply update_node_proj. apply initializeNode_dev.
Qed.

(** ** initializeLinks *)

Lemma initializeLinks_nodes m ls : forall i s s',
  Force.initializeLinks m i ls s = Ok s' -> node_objs s' = node_objs s.
Proof.
  induction ls as [| a ls IH]; intros i s s' H; simpl in H.
  - by injection H as <-.
  - destruct (link_objs s !! a) as [l |]; [| by eapply IH].
    destruct (Force.resolve m (LinkDatum.source l)); [| done].
    destruct (Force.resolve m (LinkDatum.target l)); [| done].
    by rewrite (IH _ _ _ H).
Qed.

Lemma initializeLinks_length m ls : forall i s s',
  Force.initializeLinks m i ls s = Ok s' ->
  length (link_objs s') = length (link_objs s).
Proof.
  induction ls as [| a ls IH]; intros i s s' H; simpl in H.
  - by injection H as <-.
  - destruct (link_objs s !! a) as [l |]; [| by eapply IH].
    destruct (Force.resolve m (LinkDatum.source l)); [| done].
    destruct (Force.resolve m (LinkDatum.target l)); [| done].
    rewrite (IH _ _ _ H). apply update_link_length.
Qed.

Lemma initializeLinks_other m ls : forall i s s' a',
  Force.initializeLinks m i ls s = Ok s' -> a' ∉ ls ->
  link_objs s' !! a' = link_objs s !! a'.
Proof.
  induction ls as [| a ls IH]; intros i s s' a' H Hn; simpl in H.
  - by injection H as <-.
  - apply not_elem_of_cons in Hn as [Hne Hn].
    destruct (link_objs s !! a) as [l |]; [| by eapply IH].
    destruct (Force.resolve m (LinkDatum.source l)); [| done].
    destruct (Force.resolve m (LinkDatum.target l)); [| done].
    rewrite (IH _ _ _ _ H Hn). by apply update_link_ne.
Qed.

(** ** The position update of a tick *)

Lemma integrate_keeps k n :
  Node.dev (Force.integrate k n) = Node.dev n /\
  Node.index (Force.integrate k n) = Node.index n /\
  Node.fx (Force.integrate k n) = Node.fx n /\
  Node.fy (Force.integrate k n) = Node.fy n.
Proof.
  unfold Force.integrate.
  destruct n as [d ix x y vx vy [fx |] [fy |]]; done.
Qed.

Lemma integrateAll_links ns : forall ks s,
  link_objs (Force.integrateAll ns ks s) = link_objs s.
Proof.
  induction ns as [| a ns IH]; intros ks s; [by destruct ks |].
  destruct ks; simpl; by rewrite IH.
Qed.

Lemma integrateAll_length ns : forall ks s,
  length (node_objs (Force.integrateAll ns ks s)) = length (node_objs s).
Proof.
  induction ns as [| a ns IH]; intros ks s; [by destruct ks |].
  destruct ks; simpl; by rewrite IH, update_node_length.
Qed.

Lemma integrateAll_other ns : forall ks s a',
  a' ∉ ns ->
  node_objs (Force.integrateAll ns ks s) !! a' = node_objs s !! a'.
Proof.
  induction ns as [| a ns IH]; intros ks s a' Hn; [by destruct ks |].
  apply not_elem_of_cons in Hn as [Hne Hn].
  destruct ks; simpl; rewrite IH by done; by apply update_node_ne.
Qed.

Lemma tick_links sim s :
  link_objs (Force.tick forces sim s).2 = link_objs s.
Proof. apply integrateAll_links. Qed.

Lemma tick_other sim s a' :
  a' ∉ Force.nodes sim ->
  node_objs (Force.tick forces sim s).2 !! a' = node_objs s !! a'.
Proof. apply integrateAll_other. Qed.

Lemma tick_length sim s :
  length (node_objs (Force.tick forces sim s).2) = length (node_objs s).
Proof. apply integrateAll_length. Qed.

Lemma tick_sim sim s :
  Force.nodes (Force.tick forces sim s).1 = Force.nodes sim /\
  Force.links (Force.tick forces sim s).1 = Force.links sim /\
  Force.running (Force.tick forces sim s).1 = Force.running sim /\
  Force.on_tick (Force.tick forces sim s).1 = Force.on_tick sim /\
  Force.ticks (Force.tick forces sim s).1 = Force.ticks sim /\
  Force.alphaTarget (Force.tick forces sim s).1 = Force.alphaTarget sim.
Proof. done. Qed.

Lemma settle_sim sim :
  Force.nodes (Force.settle sim) = Force.nodes sim /\
  Force.on_tick (Force.settle sim) = Force.on_tick sim /\
  Force.ticks (Force.settle sim) = Force.ticks sim.
Proof. unfold Force.settle. by destruct (Qlt_le_dec _ _). Qed.

(** ** The effect, when it returns *)

Lemma effect_Ok rev p v v' :
  TopologyGraph.effect phyllotaxis rev p v = Ok v' ->
  (TopologyGraph.guards_empty rev = true /\ TopologyGraph.nodes p = []
   /\ v' = v) \/
  (TopologyGraph.guards_empty rev && Nat.eqb (length (TopologyGraph.nodes p)) 0
   = false /\
   exists ns ls s2 s4,
     TopologyGraph.own_data rev p (TopologyGraph.store v) = (ns, ls, s2) /\
     Force.initializeLinks
       (Force.nodeById ns (Force.initializeNodes phyllotaxis 0 ns s2)) 0 ls
       (Force.initializeNodes phyllotaxis 0 ns s2) = Ok s4 /\
     v' = TopologyGraph.draw rev p (length (TopologyGraph.sims v)) ns ls
            (Force.mkSim ns ls (TopologyGraph.forceConfig rev p) 1 0 true
               false 0) s4 v).
Proof.
  unfold TopologyGraph.effect. intros H.
  destruct (TopologyGraph.guards_empty rev) eqn:Eg; simpl in *.
  - destruct (TopologyGraph.nodes p) as [| a l] eqn:En; simpl in H.
    { left. injection H as <-. done. }
    right. split; [done |].
    destruct (TopologyGraph.own_data rev p (TopologyGraph.store v))
      as [[ns ls] s2].
    unfold Force.withForces in H; simpl in H.
    destruct (Force.initializeLinks _ 0 ls _) as [s4 |] eqn:E; [| done].
    injection H as <-. by exists ns, ls, s2, s4.
  - right. split; [done |].
    destruct (TopologyGraph.own_data rev p (TopologyGraph.store v))
      as [[ns ls] s2].
    unfold Force.withForces in H; simpl in H.
    destruct (Force.initializeLinks _ 0 ls _) as [s4 |] eqn:E; [| done].
    injection H as <-. by exists ns, ls, s2, s4.
Qed.

End WithPhysics.

End StoreFacts.

(* ===================================================================== *)
(** * Theorems: the caller's objects are left alone *)
(* ===================================================================== *)

Module CallerFacts.
Import TopologyGraph StoreFacts Spec.

Section WithPhysics.

Variable forces : Force.Config -> Q -> list Force.Kin -> list (nat * nat)
  -> list Force.Kin.
Variable phyllotaxis : nat -> Q * Q.

Variable s0 : Store.

Local Abbreviation untouched := (Spec.untouched s0).
Local Abbreviation own_n := (Spec.own_n s0).
Local Abbreviation own_l := (Spec.own_l s0).
Local Abbreviation sim_own := (Spec.sim_own s0).
Local Abbreviation drag_own := (Spec.drag_own s0).
Local Abbreviation private := (Spec.private s0).

Lemma untouched_length_n s :
  untouched s -> (length (node_objs s0) <= length (node_objs s))%nat.
Proof.
  intros [H _]. destruct (node_objs s0) as [| n l] eqn:E using rev_ind.
  - simpl. lia.
  - clear IHl. rewrite length_app. simpl.
    specialize (H (length l) n). rewrite list_lookup_middle in H by done.
    specialize (H eq_refl). apply lookup_lt_Some in H. lia.
Qed.

Lemma untouched_length_l s :
  untouched s -> (length (link_objs s0) <= length (link_objs s))%nat.
Proof.
  intros [_ H]. destruct (link_objs s0) as [| n l] eqn:E using rev_ind.
  - simpl. lia.
  - clear IHl. rewrite length_app. simpl.
    specialize (H (length l) n). rewrite list_lookup_middle in H by done.
    specialize (H eq_refl). apply lookup_lt_Some in H. lia.
Qed.

Lemma untouched_update_node a f s :
  own_n a -> untouched s -> untouched (update_node a f s).
Proof.
  intros Ha [Hn Hl]. split; [| exact Hl].
  intros a' n Hs. rewrite update_node_ne; [by apply Hn |].
  apply lookup_lt_Some in Hs. unfold Spec.own_n in Ha. lia.
Qed.

Lemma not_own_n ns a n :
  Forall own_n ns -> node_objs s0 !! a = Some n -> a ∉ ns.
Proof.
  intros Hns Hs Hin. rewrite Forall_forall in Hns.
  specialize (Hns a Hin). apply lookup_lt_Some in Hs.
  unfold Spec.own_n in Hns. lia.
Qed.

Lemma not_own_l ls a l :
  Forall own_l ls -> link_objs s0 !! a = Some l -> a ∉ ls.
Proof.
  intros Hls Hs Hin. rewrite Forall_forall in Hls.
  specialize (Hls a Hin). apply lookup_lt_Some in Hs.
  unfold Spec.own_l in Hls. lia.
Qed.

Lemma untouched_initializeNodes i ns s :
  Forall own_n ns -> untouched s ->
  untouched (Force.initializeNodes phyllotaxis i ns s).
Proof.
  intros Hns [Hn Hl]. split.
  - intros a n Hs. rewrite initializeNodes_other; [by apply Hn |].
    by eapply not_own_n.
  - intros a l Hs. rewrite initializeNodes_links. by apply Hl.
Qed.

Lemma untouched_initializeLinks m i ls s s' :
  Force.initializeLinks m i ls s = Ok s' ->
  Forall own_l ls -> untouched s -> untouched s'.
Proof.
  intros H Hls [Hn Hl]. split.
  - intros a n Hs. rewrite (initializeLinks_nodes _ _ _ _ _ H). by apply Hn.
  - intros a l Hs. rewrite (initializeLinks_other _ _ _ _ _ _ H);
      [by apply Hl | by eapply not_own_l].
Qed.

Lemma untouched_tick sim s :
  sim_own sim -> untouched s -> untouched (Force.tick forces sim s).2.
Proof.
  intros Hsim [Hn Hl]. split.
  - intros a n Hs. rewrite tick_other; [by apply Hn |].
    by eapply not_own_n.
  - intros a l Hs. rewrite tick_links. by apply Hl.
Qed.

Lemma spread_nodes_own arr s :
  untouched s ->
  Forall own_n (spread_nodes arr s).1 /\ untouched (spread_nodes arr s).2.
Proof.
  intros Hu. pose proof (untouched_length_n s Hu) as Hlen.
  destruct Hu as [Hn Hl]. unfold spread_nodes; simpl. split.
  - apply Forall_forall. intros a Ha. apply elem_of_seq in Ha.
    unfold Spec.own_n. lia.
  - split; simpl; [| exact Hl].
    intros a n Hs. apply lookup_app_l_Some. by apply Hn.
Qed.

Lemma spread_links_own arr s :
  untouched s ->
  Forall own_l (spread_links arr s).1 /\ untouched (spread_links arr s).2.
Proof.
  intros Hu. pose proof (untouched_length_l s Hu) as Hlen.
  destruct Hu as [Hn Hl]. unfold spread_links; simpl. split.
  - apply Forall_forall. intros a Ha. apply elem_of_seq in Ha.
    unfold Spec.own_l. lia.
  - split; simpl; [exact Hn |].
    intros a n Hs. apply lookup_app_l_Some. by apply Hl.
Qed.

Lemma sims_alter_own i f l :
  (forall s, Force.nodes (f s) = Force.nodes s) ->
  Forall sim_own l -> Forall sim_own (alter f i l).
Proof.
  intros Hf Hl. apply Forall_alter; [exact Hl |].
  intros s _ Hs. unfold Spec.sim_own. by rewrite Hf.
Qed.

Lemma run_cleanup_private v : private v -> private (run_cleanup v).
Proof.
  intros (Hu & Hs & Hg & Hd). unfold run_cleanup.
  destruct (cleanup v) as [i |]; [| done].
  repeat split; try done; try apply Hu. simpl.
  by apply sims_alter_own.
Qed.

Lemma own_data_private rev p s ns ls s2 :
  copies_props rev = true ->
  own_data rev p s = (ns, ls, s2) -> untouched s ->
  Forall own_n ns /\ Forall own_l ls /\ untouched s2.
Proof.
  intros Hc H Hu. unfold own_data in H. rewrite Hc in H.
  destruct (spread_nodes_own (nodes p) s Hu) as [Hns Hu1].
  destruct (spread_nodes (nodes p) s) as [ns' s1].
  destruct (spread_links_own (links p) s1 Hu1) as [Hls Hu2].
  destruct (spread_links (links p) s1) as [ls' s2'].
  by injection H as <- <- <-.
Qed.

Lemma effect_private rev p v v' :
  copies_props rev = true ->
  effect phyllotaxis rev p v = Ok v' -> private v -> private v'.
Proof.
  intros Hc H Hv.
  apply effect_Ok in H as [(_ & _ & ->) | (_ & ns & ls & s2 & s4 & Ed & El & ->)];
    [done |].
  destruct Hv as (Hu & Hs & Hg & Hd).
  destruct (own_data_private _ _ _ _ _ _ Hc Ed Hu) as (Hns & Hls & Hu2).
  assert (Hu4 : untouched s4).
  { eapply untouched_initializeLinks; [exact El | exact Hls |].
    by apply untouched_initializeNodes. }
  split; [exact Hu4 |]. simpl. split; [| split].
  - apply Forall_app. split; [exact Hs |]. by repeat constructor.
  - apply Forall_forall. intros g Hin.
    apply list_elem_of_omap in Hin as (a & Ha & Hga).
    destruct (node_objs s4 !! a); [| done]. injection Hga as <-. simpl.
    rewrite Forall_forall in Hns. by apply Hns.
  - apply Forall_app. split; [exact Hd |].
    repeat constructor. intros g Hgest. done.
Qed.

Lemma tick_listener_private i v : private v -> private (tick_listener i v).
Proof.
  intros (Hu & Hs & Hg & Hd). repeat split; try done; try apply Hu. simpl.
  apply Forall_fmap. eapply Forall_impl; [exact Hg |].
  intros g Hown. simpl. destruct (Nat.eqb _ _); [| done].
  unfold place_group. by destruct (node_objs (store v) !! g_datum g).
Qed.

Lemma frame_private i v : private v -> private (frame forces i v).
Proof.
  intros Hv. unfold frame.
  destruct (sims v !! i) as [sim |] eqn:E; [| done].
  destruct (Force.running sim); [| done].
  destruct Hv as (Hu & Hs & Hg & Hd).
  assert (Hsim : sim_own sim) by (eapply Forall_lookup_1; eauto).
  pose proof (untouched_tick sim (store v) Hsim Hu) as Hu'.
  destruct (Force.tick forces sim (store v)) as [sim' s'] eqn:Et.
  assert (Hn' : Force.nodes sim' = Force.nodes sim).
  { pose proof (tick_sim forces sim (store v)) as Ht.
    rewrite Et in Ht. apply Ht. }
  simpl in Hu'.
  assert (H1 : private (set_store s' (update_sim i (fun _ => sim') v))).
  { split; [exact Hu' |]. simpl. repeat split; try done.
    apply Forall_alter; [exact Hs |]. intros s1 Hs1 _.
    unfold Spec.sim_own. by rewrite Hn'. }
  assert (H2 : private
    (if Force.on_tick sim'
     then tick_listener i
            (update_sim i Force.count_tick
               (set_store s' (update_sim i (fun _ => sim') v)))
     else set_store s' (update_sim i (fun _ => sim') v))).
  { destruct (Force.on_tick sim'); [| exact H1].
    apply tick_listener_private.
    destruct H1 as (Ha & Hb & Hc & He). repeat split; try done;
      try apply Ha.
    simpl. by apply sims_alter_own. }
  destruct H2 as (Ha & Hb & Hc & He). repeat split; try done; try apply Ha.
  simpl. apply sims_alter_own; [| done].
  intros s1. apply (settle_sim s1).
Qed.

Lemma dragstarted_private i e v :
  own_n (Drag.ev_subject e) -> private v -> private (dragstarted i e v).
Proof.
  intros He (Hu & Hs & Hg & Hd). unfold dragstarted.
  destruct (Nat.eqb _ _); (split; [by apply untouched_update_node |]);
    simpl; repeat split; try done.
  by apply sims_alter_own.
Qed.

Lemma dragged_private e v :
  own_n (Drag.ev_subject e) -> private v -> private (dragged e v).
Proof.
  intros He (Hu & Hs & Hg & Hd). unfold dragged.
  split; [by apply untouched_update_node |]. done.
Qed.

Lemma dragended_private i e v :
  own_n (Drag.ev_subject e) -> private v -> private (dragended i e v).
Proof.
  intros He (Hu & Hs & Hg & Hd). unfold dragended.
  destruct (Nat.eqb _ _); (split; [by apply untouched_update_node |]);
    simpl; repeat split; try done.
  by apply sims_alter_own.
Qed.

Lemma mousedown_private el e v : private v -> private (mousedown el e v).
Proof.
  intros Hv. unfold mousedown.
  destruct (groups v !! el) as [g |] eqn:Eg; [| done].
  destruct (drags v !! g_sim g) as [b |] eqn:Eb; [| done].
  destruct (node_objs (store v) !! g_datum g) as [n |] eqn:En; [| done].
  destruct Hv as (Hu & Hs & Hg & Hd).
  assert (Hown : own_n (g_datum g)).
  { apply (Forall_lookup_1 _ _ _ _ Hg Eg). }
  simpl. apply dragstarted_private; [exact Hown |].
  repeat split; try done; try apply Hu. simpl.
  apply Forall_insert; [exact Hd |].
  intros g' Hg'. simpl in Hg'. by injection Hg' as <-.
Qed.

Lemma gesture_own v i b g :
  private v -> drags v !! i ≫= (fun b => pair b <$> Drag.mouse b)
               = Some (b, g) ->
  own_n (Drag.subject g) /\ drags v !! i = Some b.
Proof.
  intros (Hu & Hs & Hg & Hd) H.
  destruct (drags v !! i) as [b' |] eqn:Eb; [| done]. simpl in H.
  destruct (Drag.mouse b') as [g' |] eqn:Eg; [| done].
  injection H as <- <-. split; [| done].
  by apply (Forall_lookup_1 _ _ _ _ Hd Eb).
Qed.

Lemma mousemove_private e v : private v -> private (mousemove e v).
Proof.
  intros Hv. unfold mousemove.
  destruct (window_drag v) as [i |]; [| done].
  destruct (_ ≫= _) as [[b g] |] eqn:E; [| done].
  destruct (gesture_own v i b g Hv E) as [Hown Eb]. simpl.
  apply dragged_private; [exact Hown |].
  destruct Hv as (Hu & Hs & Hg & Hd).
  repeat split; try done; try apply Hu. simpl.
  apply Forall_insert; [exact Hd |].
  intros g' Hg'. simpl in Hg'.
  by apply (Forall_lookup_1 _ _ _ _ Hd Eb).
Qed.

Lemma mouseup_private e v : private v -> private (mouseup e v).
Proof.
  intros Hv. unfold mouseup.
  destruct (window_drag v) as [i |]; [| done].
  destruct (_ ≫= _) as [[b g] |] eqn:E; [| done].
  destruct (gesture_own v i b g Hv E) as [Hown Eb]. simpl.
  apply dragended_private; [exact Hown |].
  destruct Hv as (Hu & Hs & Hg & Hd).
  repeat split; try done; try apply Hu. simpl.
  apply Forall_insert; [exact Hd |]. intros g' Hg'. done.
Qed.

Lemma click_private el v : private v -> private (click el v).
Proof.
  intros Hv. unfold click. destruct (noclick v); [done |].
  destruct (groups v !! el) as [g |]; [| done].
  by destruct (g_click g) as [[] |].
Qed.

Lemma zoom_by_private rev f v : private v -> private (zoom_by rev f v).
Proof.
  intros Hv. unfold zoom_by, zoomed. destruct (zoomable v); [| done].
  by destruct (tracks_zoom rev).
Qed.

Lemma handle_private rev v ev v' :
  copies_props rev = true ->
  handle forces phyllotaxis rev v ev = Ok v' -> private v -> private v'.
Proof.
  intros Hc H Hv.
  assert (Hv0 : private (expire_noclick ev v)) by (by destruct ev).
  unfold handle in H. destruct ev; simpl in H; try injection H as <-.
  - eapply effect_private; [exact Hc | exact H |].
    by apply run_cleanup_private.
  - destruct (run_cleanup_private _ Hv0) as (Hu & Hs & Hg & Hd).
    unfold unmount. repeat split; try done; try apply Hu.
  - by apply frame_private.
  - by apply mousedown_private.
  - by apply mousemove_private.
  - by apply mouseup_private.
  - by apply click_private.
  - by apply zoom_by_private.
  - by apply zoom_by_private.
  - by apply zoom_by_private.
  - by apply zoom_by_private.
Qed.

Lemma run_private rev evs : forall v v',
  copies_props rev = true ->
  run forces phyllotaxis rev v evs = Ok v' -> private v -> private v'.
Proof.
  induction evs as [| ev evs IH]; intros v v' Hc H Hv; simpl in H.
  - by injection H as <-.
  - destruct (handle forces phyllotaxis rev v ev) as [v1 | msg] eqn:E;
      [| done].
    eapply IH; [exact Hc | exact H |]. by eapply handle_private.
Qed.

Lemma initial_private : private (initial s0).
Proof. repeat split; try done; by constructor. Qed.

End WithPhysics.

(** C9. In the revisions that copy their props ([safeNodes],
    [safeLinks]), whatever the view goes through after its mount
    (renders with any of the caller's objects, frames, drags, clicks,
    zooming), every node object and every link object of the caller
    holds exactly the fields and values it held at mount: the
    simulation's [index], [x], [y], [vx], [vy], [fx], [fy] are never
    written to them, and their [source] and [target] stay ids. *)
Theorem props_never_mutated forces phyllotaxis s0 evs :
  forall rev v,
    rev = rev2 \/ rev = rev3 ->
    run forces phyllotaxis rev (initial s0) evs = Ok v ->
    (forall a n, node_objs s0 !! a = Some n ->
                 node_objs (store v) !! a = Some n) /\
    (forall a l, link_objs s0 !! a = Some l ->
                 link_objs (store v) !! a = Some l).
Proof.
  intros rev v Hrev H.
  assert (Hc : copies_props rev = true) by (by destruct Hrev as [-> | ->]).
  apply (run_private forces phyllotaxis s0 rev evs _ _ Hc H).
  apply initial_private.
Qed.


(** The first revision has no copies: it hands the props to d3, which
    writes positions to the node objects of the caller and replaces the
    ids in the link objects by references. *)
Lemma first_revision_writes_to_props :
  let after :=
    render Sample.row rev1 Sample.good (initial Sample.caller) in
  observe (fun v => Node.x <$> node_objs (store v) !! 0%nat) after
    = Some (Some (Some 0%Q)) /\
  observe (fun v => LinkDatum.source <$> link_objs (store v) !! 0%nat) after
    = Some (Some (ERef 0)).
Proof. by vm_compute. Qed.

(** C9 on the sample: the last revision renders it, the simulation
    ticks, the first node is dragged and clicked. *)
Lemma props_never_mutated_witness :
  (rev3 = rev2 \/ rev3 = rev3) /\
  run Sample.still Sample.row rev3 (initial Sample.caller)
      Sample.mounted_and_played = Ok Sample.played /\
  (forall a n, node_objs Sample.caller !! a = Some n ->
               node_objs (store Sample.played) !! a = Some n) /\
  (forall a l, link_objs Sample.caller !! a = Some l ->
               link_objs (store Sample.played) !! a = Some l).
Proof.
  assert (H : run Sample.still Sample.row rev3 (initial Sample.caller)
                  Sample.mounted_and_played = Ok Sample.played)
    by (vm_compute; reflexivity).
  split; [by right |]. split; [exact H |].
  exact (props_never_mutated Sample.still Sample.row Sample.caller
           Sample.mounted_and_played rev3 Sample.played
           (or_intror eq_refl) H).
Defined.

End CallerFacts.

(* ===================================================================== *)
(** * Theorems: links and the ids of their ends *)
(* ===================================================================== *)

Module LinkFacts.
Import TopologyGraph StoreFacts Spec Resolved.

Local Abbreviation keys m := ((fun kv : string * nat => kv.1) <$> m).

(** ** Arrays read in two stores *)

Lemma fmap_omap_ext {A B C D} (f : A -> option B) (g : A -> option C)
    (F : B -> D) (G : C -> D) (l : list A) :
  (forall a, F <$> f a = G <$> g a) ->
  F <$> omap f l = G <$> omap g l.
Proof.
  intros H. induction l as [| a l IH]; [done |]. csimpl.
  specialize (H a).
  destruct (f a) as [b |], (g a) as [c |]; csimpl; try done.
  injection H as H. by rewrite H, IH.
Qed.

Lemma fmap_omap_ext_in {A B C D} (f : A -> option B) (g : A -> option C)
    (F : B -> D) (G : C -> D) (l : list A) :
  Forall (fun a => F <$> f a = G <$> g a) l ->
  F <$> omap f l = G <$> omap g l.
Proof.
  induction 1 as [| a l Ha _ IH]; [done |]. csimpl.
  destruct (f a) as [b |], (g a) as [c |]; csimpl; try done.
  injection Ha as Ha. by rewrite Ha, IH.
Qed.

Lemma Forall2_omap {A B C} (f : C -> option A) (g : C -> option B)
    (R : A -> B -> Prop) (l : list C) :
  (forall c, c ∈ l -> option_Forall2 R (f c) (g c)) ->
  Forall2 R (omap f l) (omap g l).
Proof.
  induction l as [| c l IH]; intros H; [constructor |]. csimpl.
  assert (Hc : option_Forall2 R (f c) (g c)) by (apply H; by left).
  assert (Hl : Forall2 R (omap f l) (omap g l)).
  { apply IH. intros c' Hc'. apply H. by right. }
  destruct Hc; csimpl; [by constructor | done].
Qed.


(** ** find and resolve *)

Lemma nodeById_keys ns s :
  (fun kv => kv.1) <$> Force.nodeById ns s = ids_of (arr_nodes s ns).
Proof.
  unfold Force.nodeById, ids_of, arr_nodes.
  induction ns as [| a ns IH]; [done |]. csimpl.
  destruct (node_objs s !! a) as [n |]; csimpl; by rewrite IH.
Qed.

Lemma find_Ok_iff (m : list (string * nat)) i :
  (exists a, Force.find m i = Ok a) <-> i ∈ (fun kv => kv.1) <$> m.
Proof.
  unfold Force.find. split.
  - intros [a H].
    destruct (list_find _ (reverse m)) as [[j [k b]] |] eqn:E; [| done].
    apply list_find_Some in E as (Hj & Hk & _). simpl in Hk. subst k.
    apply list_elem_of_fmap. exists (i, b). split; [done |].
    apply elem_of_reverse. by eapply list_elem_of_lookup_2.
  - intros H. apply list_elem_of_fmap in H as ([k b] & -> & Hin). simpl.
    apply elem_of_reverse in Hin.
    destruct (list_find_elem_of (fun kv : string * nat => kv.1 = k)
                (reverse m) (k, b) Hin eq_refl) as [[j [k' b']] E].
    rewrite E. by exists b'.
Qed.

Lemma resolve_Ok_iff m e :
  (exists e', Force.resolve m e = Ok e') <->
  endpoint_present ((fun kv => kv.1) <$> m) e.
Proof.
  destruct e as [i | a]; simpl.
  - rewrite <- find_Ok_iff. split.
    + intros [e' H]. destruct (Force.find m i) as [a |]; [by exists a | done].
    + intros [a H]. rewrite H. by eexists.
  - split; [done | by eexists].
Qed.

Lemma resolve_ref m e e' : Force.resolve m e = Ok e' -> exists a, e' = ERef a.
Proof.
  destruct e as [i | a]; simpl.
  - destruct (Force.find m i) as [a |]; [| done].
    intros H. injection H as <-. by eexists.
  - intros H. injection H as <-. by eexists.
Qed.

Lemma find_key (m : list (string * nat)) i a :
  Force.find m i = Ok a -> (i, a) ∈ m.
Proof.
  unfold Force.find.
  destruct (list_find _ (reverse m)) as [[j [k b]] |] eqn:E; [| done].
  intros H. injection H as <-.
  apply list_find_Some in E as (Hj & Hk & _). simpl in Hk. subst k.
  apply elem_of_reverse. by eapply list_elem_of_lookup_2.
Qed.

Lemma find_unknown (m : list (string * nat)) i :
  i ∉ keys m -> Force.find m i = Throw ("node not found: " +:+ i).
Proof.
  intros Hn. destruct (Force.find m i) as [a | msg] eqn:E.
  - destruct Hn. apply find_Ok_iff. by exists a.
  - unfold Force.find in E.
    destruct (list_find _ (reverse m)) as [[j [k b]] |]; [done |].
    by injection E as <-.
Qed.

Lemma nodeById_elem ns s i a :
  (i, a) ∈ Force.nodeById ns s ->
  a ∈ ns /\ exists n, node_objs s !! a = Some n /\ id (Node.dev n) = i.
Proof.
  unfold Force.nodeById. intros H.
  apply list_elem_of_omap in H as (a' & Ha' & H).
  destruct (node_objs s !! a') as [n |] eqn:E; [| done].
  injection H as <- <-. eauto.
Qed.

Lemma resolve_unknown m e x :
  unknown_end (keys m) e = Some x ->
  Force.resolve m e = Throw ("node not found: " +:+ x).
Proof.
  destruct e as [i | a]; simpl; [| done].
  case_bool_decide as Hin; [done |]. intros H. injection H as <-.
  by rewrite find_unknown.
Qed.

Lemma resolve_known m e :
  unknown_end (keys m) e = None ->
  exists a, Force.resolve m e = Ok (ERef a) /\ end_step m e (ERef a).
Proof.
  destruct e as [i | a]; simpl.
  - case_bool_decide as Hin; [| done]. intros _.
    apply find_Ok_iff in Hin as [a Ha]. rewrite Ha.
    exists a. split; [done |]. right. exists i, a.
    split; [done |]. split; [done |]. by apply find_key.
  - intros _. exists a. split; [done | by left].
Qed.

Lemma resolve_step m e e' : Force.resolve m e = Ok e' -> end_step m e e'.
Proof.
  destruct e as [i | a]; simpl.
  - destruct (Force.find m i) as [a |] eqn:E; [| done].
    intros H. injection H as <-. right. exists i, a.
    split; [done |]. split; [done |]. by apply find_key.
  - intros H. injection H as <-. by left.
Qed.

Lemma end_step_trans m e1 e2 e3 :
  end_step m e1 e2 -> end_step m e2 e3 -> end_step m e1 e3.
Proof.
  intros [-> | (i & a & -> & -> & Hin)]; [done |].
  intros [-> | (i' & a' & Hi & _)]; [| done].
  right. by exists i, a.
Qed.

(** ** The loop over the links *)

Lemma resolved_resolvable m l : resolved l -> resolvable m l.
Proof. intros (a & b & Ha & Hb). unfold resolvable. by rewrite Ha, Hb. Qed.

(** The loop returns exactly when every link it meets can be
    resolved. *)
Lemma initializeLinks_Ok_iff m ls : forall i s,
  (exists s', Force.initializeLinks m i ls s = Ok s') <->
  (forall a l, a ∈ ls -> link_objs s !! a = Some l -> resolvable m l).
Proof.
  induction ls as [| a ls IH]; intros i s; simpl.
  { split; [| by eexists]. intros _ a l Ha. by apply elem_of_nil in Ha. }
  destruct (link_objs s !! a) as [l |] eqn:El.
  2:{ rewrite IH. split; intros H a' l' Ha' Hl'.
      - apply elem_of_cons in Ha' as [-> | Ha']; [congruence | eauto].
      - apply (H a' l'); [by right | done]. }
  destruct (Force.resolve m (LinkDatum.source l)) as [src |] eqn:Es.
  2:{ split; [by intros [? ?] |]. intros H.
      destruct (H a l) as [Hs _]; [by left | done |].
      apply resolve_Ok_iff in Hs as [e' He']. congruence. }
  destruct (Force.resolve m (LinkDatum.target l)) as [tgt |] eqn:Et.
  2:{ split; [by intros [? ?] |]. intros H.
      destruct (H a l) as [_ Ht]; [by left | done |].
      apply resolve_Ok_iff in Ht as [e' He']. congruence. }
  rewrite IH.
  destruct (resolve_ref _ _ _ Es) as [sa ->].
  destruct (resolve_ref _ _ _ Et) as [ta ->].
  assert (Hl : resolvable m l).
  { split; apply resolve_Ok_iff; by eexists. }
  split; intros H a' l' Ha' Hl'.
  - apply elem_of_cons in Ha' as [-> | Ha'].
    { by replace l' with l by congruence. }
    destruct (decide (a = a')) as [<- | Hne].
    { by replace l' with l by congruence. }
    apply (H a' l' Ha'). by rewrite update_link_ne.
  - destruct (decide (a = a')) as [<- | Hne].
    + rewrite update_link_eq, El in Hl'. injection Hl' as <-.
      apply resolved_resolvable. by exists sa, ta.
    + rewrite update_link_ne in Hl' by done.
      apply (H a' l'); [by right | done].
Qed.

(** A resolved link stays resolved. *)
Lemma initializeLinks_keeps_resolved m ls : forall i s s' a l,
  Force.initializeLinks m i ls s = Ok s' ->
  link_objs s !! a = Some l -> resolved l ->
  exists l', link_objs s' !! a = Some l' /\ resolved l'.
Proof.
  induction ls as [| a0 ls IH]; intros i s s' a l H Hl Hr; simpl in H.
  { injection H as <-. eauto. }
  destruct (link_objs s !! a0) as [l0 |] eqn:El; [| by eapply IH].
  destruct (Force.resolve m (LinkDatum.source l0)) as [src |] eqn:Es;
    [| done].
  destruct (Force.resolve m (LinkDatum.target l0)) as [tgt |] eqn:Et;
    [| done].
  destruct (resolve_ref _ _ _ Es) as [sa ->].
  destruct (resolve_ref _ _ _ Et) as [ta ->].
  destruct (decide (a0 = a)) as [-> | Hne].
  - eapply (IH _ _ _ a); [exact H | by rewrite update_link_eq, El |].
    by exists sa, ta.
  - eapply (IH _ _ _ a); [exact H | by rewrite update_link_ne | done].
Qed.

(** After the loop every link of the array is resolved. *)
Lemma initializeLinks_resolves m ls : forall i s s' a,
  Force.initializeLinks m i ls s = Ok s' ->
  a ∈ ls -> is_Some (link_objs s !! a) ->
  exists l', link_objs s' !! a = Some l' /\ resolved l'.
Proof.
  induction ls as [| a0 ls IH]; intros i s s' a H Ha Hs; simpl in H.
  { by apply elem_of_nil in Ha. }
  destruct (link_objs s !! a0) as [l0 |] eqn:El.
  2:{ apply elem_of_cons in Ha as [-> | Ha].
      - rewrite El in Hs. by destruct Hs.
      - by eapply IH. }
  destruct (Force.resolve m (LinkDatum.source l0)) as [src |] eqn:Es;
    [| done].
  destruct (Force.resolve m (LinkDatum.target l0)) as [tgt |] eqn:Et;
    [| done].
  destruct (resolve_ref _ _ _ Es) as [sa ->].
  destruct (resolve_ref _ _ _ Et) as [ta ->].
  destruct (decide (a0 = a)) as [-> | Hne].
  - eapply initializeLinks_keeps_resolved;
      [exact H | by rewrite update_link_eq, El |]. by exists sa, ta.
  - apply elem_of_cons in Ha as [-> | Ha]; [done |].
    eapply IH; [exact H | done |]. by rewrite update_link_ne.
Qed.

Lemma link_step_refl m l : link_step m l l.
Proof. split; [done |]. split; by left. Qed.

Lemma link_step_trans m l1 l2 l3 :
  link_step m l1 l2 -> link_step m l2 l3 -> link_step m l1 l3.
Proof.
  intros (Hd & Hs & Ht) (Hd' & Hs' & Ht').
  split; [congruence |]. split; by eapply end_step_trans.
Qed.

(** Every link object is, after the loop, what the link force made of
    it. *)
Lemma initializeLinks_steps m ls : forall i s s' a l,
  Force.initializeLinks m i ls s = Ok s' ->
  link_objs s !! a = Some l ->
  exists d, link_objs s' !! a = Some d /\ link_step m l d.
Proof.
  induction ls as [| a0 ls IH]; intros i s s' a l H Hl; simpl in H.
  { injection H as <-. exists l. split; [done | apply link_step_refl]. }
  destruct (link_objs s !! a0) as [l0 |] eqn:El; [| by eapply IH].
  destruct (Force.resolve m (LinkDatum.source l0)) as [src |] eqn:Es;
    [| done].
  destruct (Force.resolve m (LinkDatum.target l0)) as [tgt |] eqn:Et;
    [| done].
  destruct (decide (a0 = a)) as [-> | Hne].
  - assert (l0 = l) as -> by congruence.
    destruct (IH _ _ _ a (LinkDatum.set_target tgt
                 (LinkDatum.set_source src (LinkDatum.set_index i l))) H)
      as (d & Hd & Hstep).
    { by rewrite update_link_eq, El. }
    exists d. split; [exact Hd |].
    eapply link_step_trans; [| exact Hstep].
    split; [done |]. split; simpl; by apply resolve_step.
  - eapply (IH _ _ _ a l H). by rewrite update_link_ne.
Qed.

(** Replacing links that pass by links that pass does not change the
    first unknown id. *)
Lemma first_unknown_ext ids xs ys :
  Forall2 (fun l l' =>
             l' = l \/
             (unknown_end ids (LinkDatum.source l) = None /\
              unknown_end ids (LinkDatum.target l) = None /\
              unknown_end ids (LinkDatum.source l') = None /\
              unknown_end ids (LinkDatum.target l') = None)) xs ys ->
  first_unknown ids xs = first_unknown ids ys.
Proof.
  induction 1 as [| l l' xs ys [-> | (H1 & H2 & H3 & H4)] _ IH]; simpl.
  - done.
  - by rewrite IH.
  - by rewrite H1, H2, H3, H4.
Qed.

Lemma initializeLinks_throws m ls : forall i s x,
  first_unknown (keys m) (arr_links s ls) = Some x ->
  Force.initializeLinks m i ls s = Throw ("node not found: " +:+ x).
Proof.
  induction ls as [| a0 ls IH]; intros i s x H; [done |].
  unfold arr_links in H. simpl. csimpl in H.
  destruct (link_objs s !! a0) as [l0 |] eqn:El; csimpl in H;
    [| by apply IH].
  destruct (unknown_end (keys m) (LinkDatum.source l0)) as [y |] eqn:Us.
  { injection H as ->. by rewrite (resolve_unknown _ _ _ Us). }
  destruct (resolve_known _ _ Us) as (sa & -> & _).
  destruct (unknown_end (keys m) (LinkDatum.target l0)) as [y |] eqn:Ut.
  { injection H as ->. by rewrite (resolve_unknown _ _ _ Ut). }
  destruct (resolve_known _ _ Ut) as (ta & -> & _).
  apply IH. rewrite <- H. symmetry. apply first_unknown_ext.
  apply Forall2_omap. intros a _.
  destruct (decide (a0 = a)) as [<- | Hne].
  - rewrite update_link_eq, El. constructor. right. done.
  - rewrite update_link_ne by done.
    destruct (link_objs s !! a); constructor. by left.
Qed.

Lemma first_unknown_None ids ls :
  first_unknown ids ls = None <-> Forall (link_present ids) ls.
Proof.
  assert (He : forall e, unknown_end ids e = None <-> endpoint_present ids e).
  { intros [i | a]; simpl; [| done]. by case_bool_decide. }
  induction ls as [| l ls IH]; simpl; [by split; [constructor |] |].
  rewrite Forall_cons, <- IH. unfold link_present. rewrite <- !He.
  destruct (unknown_end ids (LinkDatum.source l));
    destruct (unknown_end ids (LinkDatum.target l)); split;
    first [done | by intros ([? ?] & ?) | by intros ?].
Qed.

(** ** From the props to the arrays of the effect *)

Lemma omap_lookup_app_seq {A} (objs : list A) : forall l : list A,
  omap (fun a => (l ++ objs) !! a) (seq (length l) (length objs)) = objs.
Proof.
  induction objs as [| x objs IH]; intros l; [done |]. csimpl.
  rewrite list_lookup_middle by done. f_equal.
  specialize (IH (l ++ [x])). rewrite length_app, Nat.add_1_r in IH.
  rewrite <- IH at 2. apply list_omap_ext.
  apply Forall_Forall2_diag, Forall_true. intros a. by rewrite <- app_assoc.
Qed.

Lemma own_data_arrays rev p s ns ls s2 :
  own_data rev p s = (ns, ls, s2) ->
  arr_nodes s2 ns = arr_nodes s (nodes p) /\
  arr_links s2 ls = arr_links s (links p).
Proof.
  unfold own_data, spread_nodes, spread_links. intros H.
  destruct (copies_props rev); injection H as <- <- <-; [| done].
  unfold arr_nodes, arr_links; simpl. split; apply omap_lookup_app_seq.
Qed.

Lemma length_omap_fmap {A B C} (g : C -> option A) (F : C -> A -> B) l :
  length (omap (fun a => F a <$> g a) l) = length (omap g l).
Proof.
  induction l as [| a l IH]; [done |]. csimpl.
  destruct (g a); csimpl; by rewrite IH.
Qed.

Lemma length_omap_is_Some {A B C} (f : C -> option A) (g : C -> option B) l :
  (forall a, is_Some (f a) <-> is_Some (g a)) ->
  length (omap f l) = length (omap g l).
Proof.
  intros H. induction l as [| a l IH]; [done |]. csimpl.
  destruct (f a) as [x |] eqn:Ef, (g a) as [y |] eqn:Eg; csimpl;
    try by rewrite IH.
  - assert (Hs : is_Some (g a)) by (apply H; rewrite Ef; eauto).
    rewrite Eg in Hs. by destruct Hs.
  - assert (Hs : is_Some (f a)) by (apply H; rewrite Eg; eauto).
    rewrite Ef in Hs. by destruct Hs.
Qed.

Section WithPhysics.

Variable phyllotaxis : nat -> Q * Q.

Lemma ids_initializeNodes arr i ns s :
  ids_of (arr_nodes (Force.initializeNodes phyllotaxis i ns s) arr)
  = ids_of (arr_nodes s arr).
Proof.
  unfold ids_of, arr_nodes.
  induction arr as [| a arr IH]; [done |]. csimpl.
  pose proof (initializeNodes_dev phyllotaxis ns i s a) as Hd.
  destruct (node_objs (Force.initializeNodes phyllotaxis i ns s) !! a)
    as [n' |], (node_objs s !! a) as [n |]; csimpl; try done.
  simpl in Hd. injection Hd as Hd. by rewrite Hd, IH.
Qed.

Lemma arr_links_initializeNodes arr i ns s :
  arr_links (Force.initializeNodes phyllotaxis i ns s) arr = arr_links s arr.
Proof. unfold arr_links. by rewrite initializeNodes_links. Qed.

Lemma Forall_arr_links (P : LinkDatum.t -> Prop) s ls :
  Forall P (arr_links s ls) <->
  (forall a l, a ∈ ls -> link_objs s !! a = Some l -> P l).
Proof.
  unfold arr_links. rewrite Forall_forall. split.
  - intros H a l Ha Hl. apply H. apply list_elem_of_omap. eauto.
  - intros H l Hl. apply list_elem_of_omap in Hl as (a & Ha & Hl). eauto.
Qed.

(** The effect returns exactly when every link names nodes of the
    list. *)
Lemma effect_Ok_iff rev p v :
  guards_empty rev && Nat.eqb (length (nodes p)) 0 = false ->
  (exists v', effect phyllotaxis rev p v = Ok v') <->
  Forall (link_present (ids_of (arr_nodes (store v) (nodes p))))
         (arr_links (store v) (links p)).
Proof.
  intros Hg. unfold effect. rewrite Hg.
  destruct (own_data rev p (store v)) as [[ns ls] s2] eqn:Ed.
  destruct (own_data_arrays _ _ _ _ _ _ Ed) as [<- <-].
  unfold Force.forceSimulation, Force.withForces; simpl.
  set (s3 := Force.initializeNodes phyllotaxis 0 ns s2).
  rewrite <- (ids_initializeNodes ns 0 ns s2),
          <- (arr_links_initializeNodes ls 0 ns s2).
  fold s3. rewrite <- nodeById_keys, Forall_arr_links.
  rewrite <- (initializeLinks_Ok_iff (Force.nodeById ns s3) ls 0 s3).
  split.
  - intros [v' H].
    destruct (Force.initializeLinks _ 0 ls s3) as [s4 |]; [| done].
    by exists s4.
  - intros [s4 H]. rewrite H. by eexists.
Qed.

(** What the effect leaves when the links came with ids at their ends:
    the simulation has the nodes of the data set, each with its node
    group on the page; it holds every link given, resolved; and every
    link has its line. *)
Lemma effect_found rev p v v' :
  guards_empty rev && Nat.eqb (length (nodes p)) 0 = false ->
  Forall id_ends (arr_links (store v) (links p)) ->
  effect phyllotaxis rev p v = Ok v' ->
  exists sim,
    sims v' = sims v ++ [sim] /\
    Node.dev <$> arr_nodes (store v') (Force.nodes sim)
    = Node.dev <$> arr_nodes (store v) (nodes p) /\
    g_datum <$> groups v'
    = filter (fun a => is_Some (node_objs (store v') !! a)) (Force.nodes sim) /\
    Forall2 (link_found (store v') (Force.nodes sim))
            (arr_links (store v) (links p))
            (arr_links (store v') (Force.links sim)) /\
    Forall2 (fun d ln => link_objs (store v') !! line_datum ln = Some d)
            (arr_links (store v') (Force.links sim)) (lines v').
Proof.
  intros Hg Hids H.
  apply effect_Ok in H
    as [(Hge & Hn & _) | (_ & ns & ls & s2 & s4 & Ed & El & ->)].
  { rewrite Hge, Hn in Hg. done. }
  destruct (own_data_arrays _ _ _ _ _ _ Ed) as [Hns Hls].
  set (s3 := Force.initializeNodes phyllotaxis 0 ns s2) in *.
  set (m := Force.nodeById ns s3) in *.
  assert (Hgiven : arr_links s3 ls = arr_links (store v) (links p)).
  { unfold s3. by rewrite arr_links_initializeNodes. }
  pose proof (initializeLinks_nodes _ _ _ _ _ El) as Hnodes.
  eexists. simpl. split; [reflexivity |]. simpl.
  split; [| split; [| split]].
  - rewrite <- Hns. unfold arr_nodes. apply fmap_omap_ext. intros a.
    rewrite Hnodes. apply (initializeNodes_dev phyllotaxis ns 0 s2 a).
  - clear. induction ns as [| a ns IH]; [done |]. csimpl.
    destruct (node_objs s4 !! a) as [n |] eqn:E; csimpl.
    + rewrite filter_cons_True by (rewrite E; eauto). by rewrite IH.
    + rewrite filter_cons_False by (rewrite E; by intros [? ?]). exact IH.
  - rewrite <- Hgiven. unfold arr_links. apply Forall2_omap. intros a Ha.
    destruct (link_objs s3 !! a) as [l |] eqn:Ea.
    2:{ assert (Hn : link_objs s4 !! a = None).
        { apply lookup_ge_None. rewrite (initializeLinks_length _ _ _ _ _ El).
          by apply lookup_ge_None. }
        rewrite Hn. constructor. }
    destruct (initializeLinks_steps m ls 0 s3 s4 a l El Ea)
      as (d & Hd & Hdata & Hs & Ht).
    destruct (initializeLinks_resolves m ls 0 s3 s4 a El Ha)
      as (d' & Hd' & sa & ta & Hsa & Hta); [by rewrite Ea |].
    assert (d' = d) as -> by congruence.
    rewrite Hd. constructor.
    assert (Hl : id_ends l).
    { rewrite <- Hgiven in Hids. unfold arr_links in Hids.
      rewrite Forall_forall in Hids. apply Hids.
      apply list_elem_of_omap. eauto. }
    destruct Hl as (i & j & Hi & Hj).
    assert (Hend : forall e e' k b,
              e = EId k -> e' = ERef b -> end_step m e e' ->
              end_found s4 ns e e').
    { intros e e' k b -> -> [Heq | (k' & b' & Hk & Hb & Hin)]; [done |].
      injection Hk as <-. injection Hb as <-.
      apply nodeById_elem in Hin as (Hb & n & Hn & Hid).
      exists k, b, n. rewrite Hnodes. done. }
    split; [exact Hdata |]. split; eauto.
  - unfold arr_links. apply Forall2_omap. intros a _.
    destruct (link_objs s4 !! a) as [d |] eqn:Ea; constructor. done.
Qed.

(** C1, as the code has it.  The link list is given as [Link] declares
    it, with an id at either end, and the effect gets past the guard of
    the first revision.  When some end names an id that no node of the
    list has, the link force throws "node not found: " followed by the
    first such id (links in their order, the source before the target),
    and the effect throws with it.  Otherwise the effect returns; the
    simulation has the nodes of the data set and holds every link
    given, in order, with its bandwidth, status and label, and with
    either end resolved to a node object of the simulation that has the
    id; and every link of the simulation has its line on the page, in
    the same order. *)
Theorem dangling_link_throws rev p v :
  guards_empty rev && Nat.eqb (length (nodes p)) 0 = false ->
  let ids := ids_of (arr_nodes (store v) (nodes p)) in
  let given := arr_links (store v) (links p) in
  Forall id_ends given ->
  match first_unknown ids given with
  | Some i => effect phyllotaxis rev p v = Throw ("node not found: " +:+ i)
  | None =>
    exists v' sim,
      effect phyllotaxis rev p v = Ok v' /\
      last (sims v') = Some sim /\
      Node.dev <$> arr_nodes (store v') (Force.nodes sim)
      = Node.dev <$> arr_nodes (store v) (nodes p) /\
      Forall2 (link_found (store v') (Force.nodes sim))
              given (arr_links (store v') (Force.links sim)) /\
      Forall2 (fun d ln => link_objs (store v') !! line_datum ln = Some d)
              (arr_links (store v') (Force.links sim)) (lines v')
  end.
Proof.
  intros Hg ids given Hids.
  destruct (first_unknown ids given) as [x |] eqn:Ef.
  - unfold effect. rewrite Hg.
    destruct (own_data rev p (store v)) as [[ns ls] s2] eqn:Ed.
    destruct (own_data_arrays _ _ _ _ _ _ Ed) as [Hns Hls].
    unfold Force.forceSimulation, Force.withForces; simpl.
    set (s3 := Force.initializeNodes phyllotaxis 0 ns s2).
    set (m := Force.nodeById ns s3).
    assert (Hkeys : keys m = ids).
    { unfold m, s3, ids.
      by rewrite nodeById_keys, ids_initializeNodes, Hns. }
    assert (Hgiven : arr_links s3 ls = given).
    { unfold given, s3. by rewrite arr_links_initializeNodes. }
    rewrite <- Hkeys, <- Hgiven in Ef.
    by rewrite (initializeLinks_throws m ls 0 s3 x Ef).
  - assert (Hok : exists v', effect phyllotaxis rev p v = Ok v').
    { apply effect_Ok_iff; [exact Hg |]. by apply first_unknown_None. }
    destruct Hok as [v' Hv'].
    destruct (effect_found rev p v v' Hg Hids Hv')
      as (sim & Hs & Hd & _ & Hl & Hln).
    exists v', sim. split; [exact Hv' |]. rewrite Hs, last_snoc. done.
Qed.

End WithPhysics.


(** C1 on the sample: without the link to "zz" the last revision
    renders it; with that link the first revision throws on it. *)
Lemma dangling_link_throws_witness :
  (guards_empty rev3 && Nat.eqb (length (nodes Sample.good)) 0 = false /\
   Forall id_ends (arr_links Sample.caller (links Sample.good)) /\
   exists v' sim,
     effect Sample.row rev3 Sample.good (initial Sample.caller) = Ok v' /\
     last (sims v') = Some sim /\
     Node.dev <$> arr_nodes (store v') (Force.nodes sim)
     = Node.dev <$> arr_nodes Sample.caller (nodes Sample.good) /\
     Forall2 (link_found (store v') (Force.nodes sim))
             (arr_links Sample.caller (links Sample.good))
             (arr_links (store v') (Force.links sim)) /\
     Forall2 (fun d ln => link_objs (store v') !! line_datum ln = Some d)
             (arr_links (store v') (Force.links sim)) (lines v')) /\
  (guards_empty rev1 && Nat.eqb (length (nodes Sample.dangling)) 0 = false /\
   Forall id_ends (arr_links Sample.caller (links Sample.dangling)) /\
   effect Sample.row rev1 Sample.dangling (initial Sample.caller)
   = Throw "node not found: zz").
Proof.
  assert (H1 : Forall id_ends (arr_links Sample.caller (links Sample.good))).
  { repeat constructor. by eexists _, _. }
  assert (H2 : Forall id_ends
                 (arr_links Sample.caller (links Sample.dangling))).
  { repeat constructor; by eexists _, _. }
  split.
  - split; [reflexivity |]. split; [exact H1 |].
    exact (dangling_link_throws Sample.row rev3 Sample.good
             (initial Sample.caller) eq_refl H1).
  - split; [reflexivity |]. split; [exact H2 |].
    exact (dangling_link_throws Sample.row rev1 Sample.dangling
             (initial Sample.caller) eq_refl H2).
Defined.

(** C1, as the claim words it, fails on the sample: with the link from
    "a" to "zz", an id no node has, in the link list, the effect of
    every revision throws instead of leaving the link out. *)
Lemma dangling_link_is_fatal :
  render Sample.row rev1 Sample.dangling (initial Sample.caller)
    = Throw "node not found: zz" /\
  render Sample.row rev2 Sample.dangling (initial Sample.caller)
    = Throw "node not found: zz" /\
  render Sample.row rev3 Sample.dangling (initial Sample.caller)
    = Throw "node not found: zz".
Proof. by vm_compute. Qed.

End LinkFacts.

(* ===================================================================== *)
(** * Theorems: teardown *)
(* ===================================================================== *)

Module TeardownFacts.
Import TopologyGraph StoreFacts Spec.

Section WithPhysics.

Variable forces : Force.Config -> Q -> list Force.Kin -> list (nat * nat)
  -> list Force.Kin.
Variable phyllotaxis : nat -> Q * Q.

Lemma dead_update_sim_ne i n j f v :
  j <> i -> dead i n v -> dead i n (update_sim j f v).
Proof.
  intros Hne ((sim & Hs & Hr & Ht) & Hg & Hc). split; [| done].
  exists sim. simpl. by rewrite list_lookup_alter_ne.
Qed.

Lemma dead_update_sim i n j f v :
  (forall s, Force.running (f s) = Force.running s /\
             Force.ticks (f s) = Force.ticks s) ->
  dead i n v -> dead i n (update_sim j f v).
Proof.
  intros Hf Hd. destruct (decide (j = i)) as [-> | Hne];
    [| by apply dead_update_sim_ne].
  destruct Hd as ((sim & Hs & Hr & Ht) & Hg & Hc). split; [| done].
  exists (f sim). simpl. rewrite list_lookup_alter_eq, Hs.
  destruct (Hf sim) as [-> ->]. done.
Qed.

Lemma dead_run_cleanup i n v : dead i n v -> dead i n (run_cleanup v).
Proof.
  intros Hd. unfold run_cleanup.
  destruct (cleanup v) as [j |] eqn:Ec; [| done].
  assert (Hne : j <> i).
  { destruct Hd as (_ & _ & Hc). congruence. }
  destruct (dead_update_sim_ne i n j Force.stop v Hne Hd) as (Hs & Hg & _).
  split; [exact Hs |]. split; [exact Hg | done].
Qed.

Lemma draw_dead rev p ns ls sim s v i n :
  (exists sim', sims v !! i = Some sim' /\ Force.running sim' = false /\
                Force.ticks sim' = n) ->
  dead i n (draw rev p (length (sims v)) ns ls sim s v).
Proof.
  intros (sim' & Hs & Hr & Ht).
  assert (Hlt : (i < length (sims v))%nat) by (by eapply lookup_lt_Some).
  split; [| split]; simpl.
  - exists sim'. by rewrite lookup_app_l_Some with (x := sim').
  - apply Forall_forall. intros g Hg.
    apply list_elem_of_omap in Hg as (a & _ & Hg).
    destruct (node_objs s !! a); [| done]. injection Hg as <-. simpl. lia.
  - intros H. injection H as H. lia.
Qed.

Lemma effect_dead rev p v v' i n :
  effect phyllotaxis rev p v = Ok v' -> dead i n v -> dead i n v'.
Proof.
  intros H Hd.
  apply effect_Ok in H
    as [(_ & _ & ->) | (_ & ns & ls & s2 & s4 & Ed & El & ->)]; [done |].
  apply draw_dead. apply Hd.
Qed.

Lemma tick_listener_dead i n j v : dead i n v -> dead i n (tick_listener j v).
Proof.
  intros (Hs & Hg & Hc). split; [exact Hs |]. split; [| exact Hc]. simpl.
  apply Forall_fmap. eapply Forall_impl; [exact Hg |].
  intros g Hne. simpl. destruct (Nat.eqb _ _); [| done].
  unfold place_group. by destruct (node_objs (store v) !! g_datum g).
Qed.

Lemma frame_dead i n j v : dead i n v -> dead i n (frame forces j v).
Proof.
  intros Hd. unfold frame.
  destruct (sims v !! j) as [sim |] eqn:Ej; [| done].
  destruct (Force.running sim) eqn:Er; [| done].
  assert (Hne : j <> i).
  { intros ->. destruct Hd as ((sim' & Hs & Hr & _) & _). congruence. }
  destruct (Force.tick forces sim (store v)) as [sim' s'].
  apply (dead_update_sim_ne i n j (fun _ => sim') v Hne) in Hd.
  apply dead_update_sim_ne; [exact Hne |].
  destruct (Force.on_tick sim').
  - apply tick_listener_dead. apply dead_update_sim_ne; [exact Hne |].
    exact Hd.
  - exact Hd.
Qed.

Lemma dead_set_store i n s v : dead i n v -> dead i n (set_store s v).
Proof. done. Qed.

Lemma dragstarted_dead i n j e v :
  j <> i -> dead i n v -> dead i n (dragstarted j e v).
Proof.
  intros Hne Hd. unfold dragstarted.
  destruct (Nat.eqb _ _); apply dead_set_store;
    [by apply dead_update_sim_ne | done].
Qed.

Lemma dragended_dead i n j e v : dead i n v -> dead i n (dragended j e v).
Proof.
  intros Hd. unfold dragended.
  destruct (Nat.eqb _ _); apply dead_set_store;
    [by apply dead_update_sim | done].
Qed.

Lemma mousedown_dead i n el e v : dead i n v -> dead i n (mousedown el e v).
Proof.
  intros Hd. unfold mousedown.
  destruct (groups v !! el) as [g |] eqn:Eg; [| done].
  destruct (drags v !! g_sim g) as [b |]; [| done].
  destruct (node_objs (store v) !! g_datum g) as [nd |]; [| done].
  assert (Hne : g_sim g <> i).
  { destruct Hd as (_ & Hg & _). apply (Forall_lookup_1 _ _ _ _ Hg Eg). }
  destruct (Drag.mousedowned b _ e) as [b' ev].
  by apply dragstarted_dead.
Qed.

Lemma mousemove_dead i n e v : dead i n v -> dead i n (mousemove e v).
Proof.
  intros Hd. unfold mousemove.
  destruct (window_drag v) as [j |]; [| done].
  by destruct (_ ≫= _) as [[b g] |].
Qed.

Lemma mouseup_dead i n e v : dead i n v -> dead i n (mouseup e v).
Proof.
  intros Hd. unfold mouseup.
  destruct (window_drag v) as [j |]; [| done].
  destruct (_ ≫= _) as [[b g] |]; [| done].
  destruct (Drag.mouseupped b g e) as [b' ev].
  by apply dragended_dead.
Qed.

Lemma click_dead i n el v : dead i n v -> dead i n (click el v).
Proof.
  intros Hd. unfold click. destruct (noclick v); [done |].
  destruct (groups v !! el) as [g |]; [| done].
  by destruct (g_click g) as [[] |].
Qed.

Lemma zoom_by_dead i n rev f v : dead i n v -> dead i n (zoom_by rev f v).
Proof.
  intros Hd. unfold zoom_by, zoomed. destruct (zoomable v); [| done].
  by destruct (tracks_zoom rev).
Qed.

Lemma unmount_dead i n v :
  (exists sim, sims (run_cleanup v) !! i = Some sim /\
               Force.running sim = false /\ Force.ticks sim = n) ->
  dead i n (unmount v).
Proof. intros Hs. split; [exact Hs |]. split; [constructor | done]. Qed.

Lemma handle_dead rev i n v ev v' :
  handle forces phyllotaxis rev v ev = Ok v' -> dead i n v -> dead i n v'.
Proof.
  intros H Hv.
  assert (Hv0 : dead i n (expire_noclick ev v)) by (by destruct ev).
  unfold handle in H. destruct ev; simpl in H; try injection H as <-.
  - eapply effect_dead; [exact H |]. by apply dead_run_cleanup.
  - apply unmount_dead. apply dead_run_cleanup in Hv0. apply Hv0.
  - by apply frame_dead.
  - by apply mousedown_dead.
  - by apply mousemove_dead.
  - by apply mouseup_dead.
  - by apply click_dead.
  - by apply zoom_by_dead.
  - by apply zoom_by_dead.
  - by apply zoom_by_dead.
  - by apply zoom_by_dead.
Qed.

Lemma run_dead rev i n evs : forall v v',
  run forces phyllotaxis rev v evs = Ok v' -> dead i n v -> dead i n v'.
Proof.
  induction evs as [| ev evs IH]; intros v v' H Hv; simpl in H.
  - by injection H as <-.
  - destruct (handle forces phyllotaxis rev v ev) as [v1 | msg] eqn:E;
      [| done].
    eapply IH; [exact H |]. by eapply handle_dead.
Qed.

(** The cleanup stops the simulation it was returned for. *)
Lemma run_cleanup_stops i sim v :
  cleanup v = Some i -> sims v !! i = Some sim ->
  exists sim', sims (run_cleanup v) !! i = Some sim' /\
               Force.running sim' = false /\
               Force.ticks sim' = Force.ticks sim.
Proof.
  intros Hc Hs. unfold run_cleanup. rewrite Hc. simpl.
  exists (Force.stop sim). by rewrite list_lookup_alter_eq, Hs.
Qed.

(** Once an unmount, or a render that gets past the guard, has run the
    cleanup of simulation [i], its tick listener is never called again,
    whatever follows.  Every render of the revisions without the guard
    is such a render. *)
Theorem teardown_stops_ticks rev v i sim td evs v' :
  cleanup v = Some i -> sims v !! i = Some sim ->
  tears_down rev td ->
  run forces phyllotaxis rev v (td :: evs) = Ok v' ->
  ticks_of i v' = Some (Force.ticks sim).
Proof.
  intros Hc Hs Htd H. simpl in H.
  destruct (handle forces phyllotaxis rev v td) as [v1 | msg] eqn:E; [| done].
  assert (Hd : dead i (Force.ticks sim) v1).
  { destruct td; try done; unfold handle in E; simpl in E.
    - unfold render in E. simpl in Htd.
      apply effect_Ok in E
        as [(Hge & Hn & _) | (_ & ns & ls & s2 & s4 & Ed & El & ->)].
      { simpl in Hn. rewrite Hge, Hn in Htd. done. }
      apply draw_dead. by apply run_cleanup_stops.
    - injection E as <-. apply unmount_dead. by apply run_cleanup_stops. }
  destruct (run_dead rev i _ evs v1 v' H Hd) as ((sim' & Hs' & _ & Ht) & _).
  unfold ticks_of. by rewrite Hs', <- Ht.
Qed.

End WithPhysics.

(** On the sample, in the last revision: the graph has ticked once, the
    data set is replaced by the empty one, and neither a press where the
    node was nor the old timer calls the old tick listener again. *)
Lemma teardown_stops_ticks_witness :
  cleanup Sample.ticked = Some 0%nat /\
  sims Sample.ticked !! 0%nat
    = Some (Sample.the_sim (sims Sample.ticked !! 0%nat)) /\
  tears_down rev3 (Render Sample.empty) /\
  run Sample.still Sample.row rev3 Sample.ticked
      [Render Sample.empty; MouseDown 0 (Sample.at_point 1 1); Frame 0]
    = Ok Sample.replaced /\
  ticks_of 0 Sample.replaced = Some 1%nat.
Proof.
  assert (H : run Sample.still Sample.row rev3 Sample.ticked
                  [Render Sample.empty; MouseDown 0 (Sample.at_point 1 1);
                   Frame 0] = Ok Sample.replaced)
    by (vm_compute; reflexivity).
  split; [reflexivity |]. split; [reflexivity |]. split; [reflexivity |].
  split; [exact H |].
  exact (teardown_stops_ticks Sample.still Sample.row rev3 Sample.ticked
           0%nat _ (Render Sample.empty) _ Sample.replaced
           eq_refl eq_refl eq_refl H).
Defined.

(** C2, at the input where the first revision fails it.  The graph of
    the sample is shown and has ticked once; the data set is replaced by
    an empty one, which runs the cleanup and then returns from the effect
    before the svg is cleared; a press on the node that is still on the
    page restarts the stopped simulation, and the next frame calls the
    tick listener of the torn-down effect again. *)
Theorem stale_node_restarts_ticks :
  let shown := [Render Sample.good; Frame 0; Render Sample.empty] in
  let pressed := shown ++ [MouseDown 0 (Sample.at_point 1 1); Frame 0] in
  let after evs := run Sample.still Sample.row rev1 (initial Sample.caller) evs
  in
  observe cleanup (after shown) = Some None /\
  observe (fun v => Force.running <$> sims v !! 0%nat) (after shown)
    = Some (Some false) /\
  observe (ticks_of 0) (after shown) = Some (Some 1%nat) /\
  observe (fun v => length (groups v)) (after shown) = Some 2%nat /\
  observe (fun v => Force.running <$> sims v !! 0%nat) (after pressed)
    = Some (Some true) /\
  observe (ticks_of 0) (after pressed) = Some (Some 2%nat).
Proof. vm_compute. done. Qed.

End TeardownFacts.

(* ===================================================================== *)
(** * Theorems: an empty node list *)
(* ===================================================================== *)

Module EmptyFacts.
Import TopologyGraph StoreFacts Spec LinkFacts.

Section WithPhysics.

Variable phyllotaxis : nat -> Q * Q.

(** The first revision returns from the effect at once: no simulation
    is made and the svg is not touched. *)
Lemma guard_returns_at_once rev p v :
  guards_empty rev = true -> nodes p = [] ->
  render phyllotaxis rev p v = Ok (run_cleanup v).
Proof.
  intros Hg Hn. unfold render, effect. by rewrite Hg, Hn.
Qed.

(** Without the guard an empty node list with no links makes a
    simulation all the same, with alpha 1 and its timer running, and
    draws no element. *)
Lemma unguarded_empty_runs rev p v :
  guards_empty rev = false -> nodes p = [] -> links p = [] ->
  exists v' sim,
    render phyllotaxis rev p v = Ok v' /\
    sims v' = sims (run_cleanup v) ++ [sim] /\
    Force.running sim = true /\ Force.alpha sim = 1%Q /\
    Force.on_tick sim = true /\
    lines v' = [] /\ groups v' = [].
Proof.
  intros Hg Hn Hl. unfold render.
  destruct (effect_Ok_iff phyllotaxis rev p (run_cleanup v)) as [_ Hok].
  { by rewrite Hg. }
  destruct Hok as [v' Hv'].
  { rewrite Hl. constructor. }
  exists v'.
  pose proof Hv' as E.
  apply effect_Ok in E
    as [(Hge & _) | (_ & ns & ls & s2 & s4 & Ed & El & ->)]; [congruence |].
  eexists. split; [exact Hv' |]. simpl.
  assert (ns = [] /\ ls = []) as [-> ->].
  { unfold own_data in Ed. rewrite Hn, Hl in Ed.
    destruct (copies_props rev); simpl in Ed; by injection Ed as <- <- <-. }
  done.
Qed.

(** Without the guard an empty node list with a link that names a node
    makes the effect throw. *)
Lemma unguarded_empty_throws rev p v a l i :
  guards_empty rev = false -> nodes p = [] ->
  a ∈ links p -> link_objs (store v) !! a = Some l ->
  LinkDatum.source l = EId i ->
  exists msg, render phyllotaxis rev p v = Throw msg.
Proof.
  intros Hg Hn Ha Hl Hsrc. unfold render.
  destruct (effect phyllotaxis rev p (run_cleanup v)) as [v' |] eqn:E;
    [| by eexists].
  assert (Hex : exists v', effect phyllotaxis rev p (run_cleanup v) = Ok v')
    by (by eexists).
  apply effect_Ok_iff in Hex; [| by rewrite Hg].
  rewrite Hn in Hex. rewrite Forall_arr_links in Hex.
  assert (Hl' : link_objs (store (run_cleanup v)) !! a = Some l).
  { unfold run_cleanup. by destruct (cleanup v). }
  destruct (Hex a l Ha Hl') as [Hs _]. rewrite Hsrc in Hs.
  simpl in Hs. by apply elem_of_nil in Hs.
Qed.

End WithPhysics.

(** C3, at the inputs where the revisions without the guard fail it.
    With no node and no link they make a simulation that starts at alpha
    1 with its timer running, and its first frame calls the tick
    listener; with no node and one link they throw.  The first revision
    returns from the effect and leaves the view as it was. *)
Theorem empty_nodes_without_guard :
  let mount rev p :=
    run Sample.still Sample.row rev (initial Sample.caller) [Render p] in
  let framed rev p :=
    run Sample.still Sample.row rev (initial Sample.caller)
        [Render p; Frame 0] in
  let runs rev :=
    observe (fun v => Force.running <$> sims v) (mount rev Sample.empty)
      = Some [true] /\
    observe (fun v => Force.alpha <$> sims v) (mount rev Sample.empty)
      = Some [1%Q] /\
    observe (fun v => Force.ticks <$> sims v) (framed rev Sample.empty)
      = Some [1%nat] /\
    observe (fun v => length (lines v) + length (groups v))%nat
            (mount rev Sample.empty) = Some 0%nat /\
    mount rev Sample.empty_with_link = Throw "node not found: a" in
  runs rev2 /\ runs rev3 /\
  mount rev1 Sample.empty = Ok (initial Sample.caller) /\
  mount rev1 Sample.empty_with_link = Ok (initial Sample.caller).
Proof. by vm_compute. Qed.

End EmptyFacts.

(* ===================================================================== *)
(** * Theorems: dragging a node *)
(* ===================================================================== *)

Module DragFacts.
Import TopologyGraph StoreFacts Spec.

Local Open Scope Q_scope.

(** The position update of a tick lets a node without a pin move by its
    velocity and puts a pinned node on its pin. *)
Lemma integrate_free k n :
  Node.fx n = None -> Node.fy n = None ->
  Node.x (Force.integrate k n)
    = Some (Force.kx k + Force.kvx k * Force.velocityDecay) /\
  Node.y (Force.integrate k n)
    = Some (Force.ky k + Force.kvy k * Force.velocityDecay).
Proof.
  intros Hx Hy. unfold Force.integrate. by rewrite Hx, Hy.
Qed.

Lemma integrate_pinned k n px py :
  Node.fx n = Some px -> Node.fy n = Some py ->
  Node.x (Force.integrate k n) = Some px /\
  Node.y (Force.integrate k n) = Some py /\
  Node.vx (Force.integrate k n) = Some 0 /\
  Node.vy (Force.integrate k n) = Some 0.
Proof.
  intros Hx Hy. unfold Force.integrate. by rewrite Hx, Hy.
Qed.

(** ** The three mouse listeners, unfolded *)

Lemma mousedown_unfold el e v g b n :
  groups v !! el = Some g -> drags v !! g_sim g = Some b ->
  node_objs (store v) !! g_datum g = Some n ->
  let gest := Drag.beforestart (g_datum g) n (Drag.pointer e) in
  mousedown el e v
  = dragstarted (g_sim g) (Drag.event_at gest (Drag.active b) (Drag.pointer e))
      (set_window_drag (Some (g_sim g))
         (set_drags
            (<[g_sim g := Drag.mkBehavior (S (Drag.active b)) false
                            (Drag.clientX e) (Drag.clientY e) (Some gest)]>
               (drags v)) v)).
Proof. intros Hg Hb Hn. unfold mousedown. by rewrite Hg, Hb, Hn. Qed.

Lemma mousemove_unfold e v i b gest :
  window_drag v = Some i -> drags v !! i = Some b ->
  Drag.mouse b = Some gest ->
  mousemove e v
  = dragged (Drag.event_at gest (Drag.active b) (Drag.pointer e))
      (set_drags
         (<[i := Drag.mkBehavior (Drag.active b) (Drag.moved b e)
                   (Drag.mousedownx b) (Drag.mousedowny b) (Some gest)]>
            (drags v)) v).
Proof.
  intros Hw Hb Hm. unfold mousemove. rewrite Hw, Hb. simpl. rewrite Hm. simpl.
  unfold Drag.mousemoved. by rewrite Hm.
Qed.

Lemma mouseup_unfold e v i b gest :
  window_drag v = Some i -> drags v !! i = Some b ->
  Drag.mouse b = Some gest ->
  mouseup e v
  = dragended i
      (Drag.event_at gest (Nat.pred (Drag.active b)) (Drag.pointer e))
      (set_noclick (Drag.mousemoving b)
         (set_window_drag None
            (set_drags
               (<[i := Drag.mkBehavior (Nat.pred (Drag.active b))
                         (Drag.mousemoving b) (Drag.mousedownx b)
                         (Drag.mousedowny b) None]>
                  (drags v)) v))).
Proof.
  intros Hw Hb Hm. unfold mouseup. rewrite Hw, Hb. simpl. by rewrite Hm.
Qed.

(** What the drag listeners leave alone, and what they write. *)
Lemma dragstarted_store i e v :
  store (dragstarted i e v)
  = update_node (Drag.ev_subject e)
      (fun n => Node.set_pin (Node.x n) (Node.y n) n) (store v).
Proof. unfold dragstarted. by destruct (Nat.eqb _ _). Qed.

Lemma dragstarted_sims i e v :
  Drag.ev_active e = 0%nat ->
  sims (dragstarted i e v)
  = alter (fun s => Force.restart (Force.set_alphaTarget (3 # 10) s)) i
          (sims v).
Proof. intros H. unfold dragstarted. by rewrite H. Qed.

Lemma dragstarted_rest i e v :
  drags (dragstarted i e v) = drags v /\
  window_drag (dragstarted i e v) = window_drag v /\
  groups (dragstarted i e v) = groups v /\
  selected (dragstarted i e v) = selected v /\
  noclick (dragstarted i e v) = noclick v.
Proof. unfold dragstarted. by destruct (Nat.eqb _ _). Qed.

Lemma dragended_store i e v :
  store (dragended i e v)
  = update_node (Drag.ev_subject e) (Node.set_pin None None) (store v).
Proof. unfold dragended. by destruct (Nat.eqb _ _). Qed.

Lemma dragended_sims i e v :
  Drag.ev_active e = 0%nat ->
  sims (dragended i e v) = alter (Force.set_alphaTarget 0) i (sims v).
Proof. intros H. unfold dragended. by rewrite H. Qed.

Lemma dragended_rest i e v :
  drags (dragended i e v) = drags v /\
  window_drag (dragended i e v) = window_drag v /\
  groups (dragended i e v) = groups v /\
  selected (dragended i e v) = selected v /\
  noclick (dragended i e v) = noclick v.
Proof. unfold dragended. by destruct (Nat.eqb _ _). Qed.

(** A whole gesture on one node, from a view in which no drag is under
    way: the pointer goes down on node group [el] at [e0], moves to
    [e1] and goes up at [e2]. *)
Lemma gesture_on_node v el g b sim n x0 y0 e0 e1 e2 :
  groups v !! el = Some g ->
  drags v !! g_sim g = Some b -> Drag.active b = 0%nat ->
  sims v !! g_sim g = Some sim ->
  node_objs (store v) !! g_datum g = Some n ->
  Node.x n = Some x0 -> Node.y n = Some y0 ->
  let a := g_datum g in
  let i := g_sim g in
  let v1 := mousedown el e0 v in
  let v2 := mousemove e1 v1 in
  let v3 := mouseup e2 v2 in
  let offx := x0 - (Drag.pointer e0).1 in
  let offy := y0 - (Drag.pointer e0).2 in
  (sims v1 !! i
     = Some (Force.restart (Force.set_alphaTarget (3 # 10) sim)) /\
   node_objs (store v1) !! a = Some (Node.set_pin (Some x0) (Some y0) n)) /\
  (sims v2 !! i = sims v1 !! i /\
   node_objs (store v2) !! a
     = Some (Node.set_pin (Some ((Drag.pointer e1).1 + offx))
                          (Some ((Drag.pointer e1).2 + offy)) n)) /\
  (sims v3 !! i
     = Some (Force.set_alphaTarget 0
               (Force.restart (Force.set_alphaTarget (3 # 10) sim))) /\
   node_objs (store v3) !! a = Some (Node.set_pin None None n)) /\
  (forall a', a' <> a ->
     node_objs (store v1) !! a' = node_objs (store v) !! a' /\
     node_objs (store v2) !! a' = node_objs (store v) !! a' /\
     node_objs (store v3) !! a' = node_objs (store v) !! a').
Proof.
  intros Hg Hb Hactive Hsim Hn Hx Hy a i v1 v2 v3 offx offy.
  fold i in Hsim, Hb. fold a in Hn.
  assert (Hlt : (i < length (drags v))%nat) by (by eapply lookup_lt_Some).
  set (gest := Drag.mkGesture a offx offy).
  assert (Hgest : Drag.beforestart a n (Drag.pointer e0) = gest).
  { unfold Drag.beforestart. by rewrite Hx, Hy. }
  (* down *)
  pose proof (mousedown_unfold el e0 v g b n Hg Hb Hn) as E1.
  cbv zeta in E1. fold a i v1 in E1. rewrite Hgest, Hactive in E1.
  set (b1 := Drag.mkBehavior 1 false _ _ (Some gest)) in E1.
  destruct (dragstarted_rest i (Drag.event_at gest 0 (Drag.pointer e0))
              (set_window_drag (Some i)
                 (set_drags (<[i := b1]> (drags v)) v)))
    as (Hd1 & Hw1 & _).
  rewrite <- E1 in Hd1, Hw1. simpl in Hd1, Hw1.
  assert (Hs1 : store v1 = update_node a
                  (fun n => Node.set_pin (Node.x n) (Node.y n) n) (store v)).
  { rewrite E1, dragstarted_store. done. }
  assert (Hm1 : sims v1 = alter
            (fun s => Force.restart (Force.set_alphaTarget (3 # 10) s)) i
            (sims v)).
  { rewrite E1, dragstarted_sims; done. }
  assert (Hb1 : drags v1 !! i = Some b1).
  { rewrite Hd1. by apply list_lookup_insert_eq. }
  (* move *)
  pose proof (mousemove_unfold e1 v1 i b1 gest Hw1 Hb1 eq_refl) as E2.
  fold v2 in E2. change (Drag.active b1) with 1%nat in E2.
  set (b2 := Drag.mkBehavior 1 _ _ _ (Some gest)) in E2.
  assert (Hs2 : store v2 = update_node a
            (Node.set_pin (Some ((Drag.pointer e1).1 + offx))
                          (Some ((Drag.pointer e1).2 + offy))) (store v1)).
  { by rewrite E2. }
  assert (Hm2 : sims v2 = sims v1) by (by rewrite E2).
  assert (Hw2 : window_drag v2 = Some i) by (by rewrite E2).
  assert (Hb2 : drags v2 !! i = Some b2).
  { rewrite E2. simpl. apply list_lookup_insert_eq.
    rewrite Hd1, length_insert. exact Hlt. }
  (* up *)
  pose proof (mouseup_unfold e2 v2 i b2 gest Hw2 Hb2 eq_refl) as E3.
  fold v3 in E3. change (Nat.pred (Drag.active b2)) with 0%nat in E3.
  assert (Hs3 : store v3
                = update_node a (Node.set_pin None None) (store v2)).
  { rewrite E3, dragended_store. done. }
  assert (Hm3 : sims v3 = alter (Force.set_alphaTarget 0) i (sims v2)).
  { rewrite E3, dragended_sims; done. }
  (* the facts *)
  split; [| split; [| split]].
  - split.
    + by rewrite Hm1, list_lookup_alter_eq, Hsim.
    + rewrite Hs1, update_node_eq, Hn. simpl. by rewrite Hx, Hy.
  - split; [by rewrite Hm2 |].
    rewrite Hs2, update_node_eq, Hs1, update_node_eq, Hn. done.
  - split.
    + by rewrite Hm3, list_lookup_alter_eq, Hm2, Hm1, list_lookup_alter_eq,
                 Hsim.
    + rewrite Hs3, update_node_eq, Hs2, update_node_eq, Hs1, update_node_eq,
              Hn. done.
  - intros a' Hne.
    assert (H1 : node_objs (store v1) !! a' = node_objs (store v) !! a')
      by (by rewrite Hs1, update_node_ne).
    assert (H2 : node_objs (store v2) !! a' = node_objs (store v) !! a')
      by (by rewrite Hs2, update_node_ne).
    split; [exact H1 |]. split; [exact H2 |].
    by rewrite Hs3, update_node_ne.
Qed.

(** C4, as the code has it.  A press on a node while no other drag is
    under way sets the alpha target of its simulation to 0.3, restarts
    the timer and pins the node where the node is, not where the pointer
    is.  A move sets the pin to the pointer shifted by the offset the
    node had from the pointer at the press.  The release clears the pin
    and sets the alpha target back to 0, and the position update of the
    next tick moves the node by its velocity.  The listeners write
    nothing but the pin of the dragged node: its position and every
    other node object are as before. *)
Theorem drag_pins_node_at_offset v el g b sim n x0 y0 e0 e1 e2 :
  groups v !! el = Some g ->
  drags v !! g_sim g = Some b -> Drag.active b = 0%nat ->
  sims v !! g_sim g = Some sim ->
  node_objs (store v) !! g_datum g = Some n ->
  Node.x n = Some x0 -> Node.y n = Some y0 ->
  let a := g_datum g in
  let i := g_sim g in
  let v1 := mousedown el e0 v in
  let v2 := mousemove e1 v1 in
  let v3 := mouseup e2 v2 in
  let offx := x0 - (Drag.pointer e0).1 in
  let offy := y0 - (Drag.pointer e0).2 in
  (exists sim1,
     sims v1 !! i = Some sim1 /\ Force.alphaTarget sim1 = 3 # 10 /\
     Force.running sim1 = true) /\
  node_objs (store v1) !! a = Some (Node.set_pin (Some x0) (Some y0) n) /\
  node_objs (store v2) !! a
    = Some (Node.set_pin (Some ((Drag.pointer e1).1 + offx))
                         (Some ((Drag.pointer e1).2 + offy)) n) /\
  node_objs (store v3) !! a = Some (Node.set_pin None None n) /\
  (exists sim3,
     sims v3 !! i = Some sim3 /\ Force.alphaTarget sim3 = 0 /\
     Force.running sim3 = true) /\
  (forall k,
     Node.x (Force.integrate k (Node.set_pin None None n))
       = Some (Force.kx k + Force.kvx k * Force.velocityDecay) /\
     Node.y (Force.integrate k (Node.set_pin None None n))
       = Some (Force.ky k + Force.kvy k * Force.velocityDecay)) /\
  (forall a', a' <> a ->
     node_objs (store v1) !! a' = node_objs (store v) !! a' /\
     node_objs (store v2) !! a' = node_objs (store v) !! a' /\
     node_objs (store v3) !! a' = node_objs (store v) !! a').
Proof.
  intros Hg Hb Hactive Hsim Hn Hx Hy a i v1 v2 v3 offx offy.
  destruct (gesture_on_node v el g b sim n x0 y0 e0 e1 e2
              Hg Hb Hactive Hsim Hn Hx Hy)
    as ((Hs1 & Hn1) & (_ & Hn2) & (Hs3 & Hn3) & Hother).
  split; [by eexists |]. split; [exact Hn1 |]. split; [exact Hn2 |].
  split; [exact Hn3 |]. split; [by eexists |]. split; [| exact Hother].
  intros k. by apply integrate_free.
Qed.

(** ** Click or drag *)

Section WithPhysics.

Variable forces : Force.Config -> Q -> list Force.Kin -> list (nat * nat)
  -> list Force.Kin.
Variable phyllotaxis : nat -> Q * Q.

Lemma dragged_rest e v :
  drags (dragged e v) = drags v /\
  window_drag (dragged e v) = window_drag v /\
  groups (dragged e v) = groups v /\
  selected (dragged e v) = selected v.
Proof. done. Qed.

(** The moves of a gesture: the page and the selection are as before,
    and the behaviour remembers whether one of the moves went beyond the
    click distance. *)
Lemma moves_run rev i gest e0 rest moves : forall v1 b1,
  window_drag v1 = Some i -> drags v1 !! i = Some b1 ->
  Drag.mouse b1 = Some gest ->
  Drag.mousedownx b1 = Drag.clientX e0 ->
  Drag.mousedowny b1 = Drag.clientY e0 ->
  exists v2 b2,
    run forces phyllotaxis rev v1 ((MouseMove <$> moves) ++ rest)
    = run forces phyllotaxis rev v2 rest /\
    window_drag v2 = Some i /\ drags v2 !! i = Some b2 /\
    Drag.mouse b2 = Some gest /\
    Drag.mousemoving b2
    = Drag.mousemoving b1 || existsb (beyond_click_distance e0) moves /\
    groups v2 = groups v1 /\ selected v2 = selected v1.
Proof.
  induction moves as [| m moves IH]; intros v1 b1 Hw Hb Hm Hdx Hdy.
  { exists v1, b1. simpl. by rewrite orb_false_r. }
  simpl.
  pose proof (mousemove_unfold m (set_noclick false v1) i b1 gest Hw Hb Hm)
    as E.
  set (b1' := Drag.mkBehavior _ _ _ _ _) in E.
  assert (Hlt : (i < length (drags v1))%nat) by (by eapply lookup_lt_Some).
  destruct (IH (mousemove m (set_noclick false v1)) b1')
    as (v2 & b2 & Hrun & Hw2 & Hb2 & Hm2 & Hmv & Hg2 & Hs2).
  - by rewrite E.
  - rewrite E. simpl. by apply list_lookup_insert_eq.
  - done.
  - done.
  - done.
  - exists v2, b2. split; [exact Hrun |]. split; [exact Hw2 |].
    split; [exact Hb2 |]. split; [exact Hm2 |]. split; [| split].
    + rewrite Hmv. subst b1'. simpl. unfold Drag.moved.
      rewrite Hdx, Hdy. unfold beyond_click_distance.
      destruct (Drag.mousemoving b1); simpl; [done |].
      by destruct (negb _).
    + rewrite Hg2, E. done.
    + rewrite Hs2, E. done.
Qed.

(** The node groups an effect draws have the click listener exactly in
    the revisions with [node.on("click", ..)], and the listener has a
    callback to call exactly when the prop [onNodeClick] is given. *)
Lemma effect_click_listeners rev p v v' :
  effect phyllotaxis rev p v = Ok v' ->
  v' = v \/
  Forall (fun g => g_click g = if listens_click rev then Some (onNodeClick p)
                               else None) (groups v').
Proof.
  intros H.
  apply effect_Ok in H
    as [(_ & _ & ->) | (_ & ns & ls & s2 & s4 & Ed & El & ->)];
    [by left | right].
  apply Forall_forall. intros g Hg. simpl in Hg.
  apply list_elem_of_omap in Hg as (a & _ & Hg).
  destruct (node_objs s4 !! a); [| done]. by injection Hg as <-.
Qed.

(** C5. A press on a node group whose click listener has a callback,
    any number of moves, the release and the click the browser sends
    then: when no move leaves the click distance of the press (0, the
    default of d3-drag), the callback is called once, in the click
    listener, with the datum of that node; when some move does, the
    click is swallowed and the callback is not called. *)
Theorem click_or_drag rev v el g b n e0 moves e1 :
  groups v !! el = Some g ->
  drags v !! g_sim g = Some b ->
  node_objs (store v) !! g_datum g = Some n ->
  g_click g = Some true ->
  exists v',
    run forces phyllotaxis rev v
        (MouseDown el e0 :: (MouseMove <$> moves) ++ [MouseUp e1; Click el])
    = Ok v' /\
    selected v'
    = selected v ++
      (if existsb (beyond_click_distance e0) moves then []
       else [g_datum g]).
Proof.
  intros Hg Hb Hn Hc.
  set (i := g_sim g). fold i in Hb.
  assert (Hlt : (i < length (drags v))%nat) by (by eapply lookup_lt_Some).
  (* the press *)
  pose proof (mousedown_unfold el e0 (set_noclick false v) g b n Hg Hb Hn)
    as E1.
  cbv zeta in E1. fold i in E1.
  set (gest := Drag.beforestart _ _ _) in E1.
  set (b1 := Drag.mkBehavior _ _ _ _ _) in E1.
  set (v1 := mousedown el e0 (set_noclick false v)) in *.
  match type of E1 with
  | _ = dragstarted ?j ?ev ?vv =>
      destruct (dragstarted_rest j ev vv) as (Hd1 & Hw1 & Hg1 & Hs1 & _)
  end.
  rewrite <- E1 in Hd1, Hw1, Hg1, Hs1. simpl in Hd1, Hw1, Hg1, Hs1.
  assert (Hb1 : drags v1 !! i = Some b1).
  { rewrite Hd1. by apply list_lookup_insert_eq. }
  (* the moves *)
  destruct (moves_run rev i gest e0 [MouseUp e1; Click el] moves v1 b1
              Hw1 Hb1 eq_refl eq_refl eq_refl)
    as (v2 & b2 & Hrun & Hw2 & Hb2 & Hm2 & Hmv & Hg2 & Hs2).
  change (run forces phyllotaxis rev v (MouseDown el e0 :: ?l))
    with (run forces phyllotaxis rev v1 l).
  rewrite Hrun. simpl in Hmv.
  (* the release *)
  pose proof (mouseup_unfold e1 (set_noclick false v2) i b2 gest Hw2 Hb2 Hm2)
    as E3.
  set (v3 := mouseup e1 (set_noclick false v2)) in *.
  match type of E3 with
  | _ = dragended ?j ?ev ?vv =>
      destruct (dragended_rest j ev vv) as (_ & _ & Hg3 & Hs3 & Hn3)
  end.
  rewrite <- E3 in Hg3, Hs3, Hn3. simpl in Hg3, Hs3, Hn3.
  (* the click *)
  exists (click el v3).
  split; [reflexivity |].
  unfold click. rewrite Hn3, Hmv.
  destruct (existsb (beyond_click_distance e0) moves).
  - rewrite app_nil_r. congruence.
  - rewrite Hg3, Hg2, Hg1, Hg, Hc. simpl. congruence.
Qed.

End WithPhysics.

(** C4, as the claim words it, fails on the sample: the first node sits
    at (0, 0); the pointer goes down on it at (5, 5) and the pin is
    (0, 0); the pointer moves to (7, 5) and the pin is (2, 0). *)
Lemma pin_is_not_the_pointer :
  let pin_of v :=
    (fun n => (Node.fx n, Node.fy n)) <$> node_objs (store v) !! 2%nat in
  let after evs :=
    run Sample.still Sample.row rev3 (initial Sample.caller)
        (Render Sample.good :: evs) in
  observe pin_of (after [MouseDown 0 (Sample.at_point 5 5)])
    = Some (Some (Some 0, Some 0)) /\
  observe pin_of (after [MouseDown 0 (Sample.at_point 5 5);
                         MouseMove (Sample.at_point 7 5)])
    = Some (Some (Some 2, Some 0)) /\
  ~ (0 == 5) /\ ~ (2 == 7).
Proof. vm_compute. repeat split; discriminate. Qed.


(** C4 on the sample: the first node, at (0, 0), is pressed at (5, 5),
    taken to (7, 5) and released there. *)
Lemma drag_pins_node_at_offset_witness :
  let v := Sample.rendered in
  let g := Sample.rendered_group in
  let n := Sample.rendered_node in
  let e0 := Sample.at_point 5 5 in
  let e1 := Sample.at_point 7 5 in
  groups v !! 0%nat = Some g /\
  drags v !! g_sim g = Some Drag.init /\ Drag.active Drag.init = 0%nat /\
  sims v !! g_sim g = Some Sample.rendered_sim /\
  node_objs (store v) !! g_datum g = Some n /\
  Node.x n = Some 0 /\ Node.y n = Some 0 /\
  let v1 := mousedown 0 e0 v in
  let v2 := mousemove e1 v1 in
  let v3 := mouseup e1 v2 in
  node_objs (store v1) !! g_datum g = Some (Node.set_pin (Some 0) (Some 0) n)
  /\
  node_objs (store v2) !! g_datum g
    = Some (Node.set_pin (Some (7 + (0 - 5))) (Some (5 + (0 - 5))) n) /\
  node_objs (store v3) !! g_datum g = Some (Node.set_pin None None n).
Proof.
  intros v g n e0 e1.
  assert (H1 : groups v !! 0%nat = Some g) by reflexivity.
  assert (H2 : drags v !! g_sim g = Some Drag.init) by reflexivity.
  assert (H3 : sims v !! g_sim g = Some Sample.rendered_sim) by reflexivity.
  assert (H4 : node_objs (store v) !! g_datum g = Some n) by reflexivity.
  assert (H5 : Node.x n = Some 0) by reflexivity.
  assert (H6 : Node.y n = Some 0) by reflexivity.
  split; [exact H1 |]. split; [exact H2 |]. split; [reflexivity |].
  split; [exact H3 |]. split; [exact H4 |]. split; [exact H5 |].
  split; [exact H6 |]. intros v1 v2 v3.
  destruct (drag_pins_node_at_offset v 0%nat g Drag.init Sample.rendered_sim
              n 0 0 e0 e1 e1 H1 H2 eq_refl H3 H4 H5 H6)
    as (_ & Hv1 & Hv2 & Hv3 & _).
  exact (conj Hv1 (conj Hv2 Hv3)).
Defined.

(** C5 on the sample: a press and a release in place, and a press, a
    move and a release. *)
Lemma click_or_drag_witness :
  let v := Sample.rendered in
  let g := Sample.rendered_group in
  groups v !! 0%nat = Some g /\
  drags v !! g_sim g = Some Drag.init /\
  node_objs (store v) !! g_datum g = Some Sample.rendered_node /\
  g_click g = Some true /\
  (exists v',
     run Sample.still Sample.row rev3 v
         [MouseDown 0 (Sample.at_point 5 5); MouseUp (Sample.at_point 5 5);
          Click 0] = Ok v' /\
     selected v' = [g_datum g]) /\
  (exists v',
     run Sample.still Sample.row rev3 v
         [MouseDown 0 (Sample.at_point 5 5); MouseMove (Sample.at_point 7 5);
          MouseUp (Sample.at_point 7 5); Click 0] = Ok v' /\
     selected v' = []).
Proof.
  intros v g.
  assert (H1 : groups v !! 0%nat = Some g) by reflexivity.
  assert (H2 : drags v !! g_sim g = Some Drag.init) by reflexivity.
  assert (H3 : node_objs (store v) !! g_datum g = Some Sample.rendered_node)
    by reflexivity.
  assert (H4 : g_click g = Some true) by reflexivity.
  split; [exact H1 |]. split; [exact H2 |]. split; [exact H3 |].
  split; [exact H4 |]. split.
  - exact (click_or_drag Sample.still Sample.row rev3 v 0%nat g Drag.init
             Sample.rendered_node (Sample.at_point 5 5) []
             (Sample.at_point 5 5) H1 H2 H3 H4).
  - exact (click_or_drag Sample.still Sample.row rev3 v 0%nat g Drag.init
             Sample.rendered_node (Sample.at_point 5 5)
             [Sample.at_point 7 5] (Sample.at_point 7 5) H1 H2 H3 H4).
Defined.

End DragFacts.

(* ===================================================================== *)
(** * Theorems: the lines follow the nodes *)
(* ===================================================================== *)

Module TickFacts.
Import TopologyGraph StoreFacts Spec LinkFacts.

Lemma same_picture_refl v : same_picture v v.
Proof. repeat split; eauto. Qed.

Lemma same_picture_trans v1 v2 v3 :
  same_picture v1 v2 -> same_picture v2 v3 -> same_picture v1 v3.
Proof.
  intros (Hl & Hk & Hx & Hy & Hs) (Hl' & Hk' & Hx' & Hy' & Hs').
  split; [congruence |]. split; [congruence |].
  split; [intros a; by rewrite Hx', Hx |].
  split; [intros a; by rewrite Hy', Hy |].
  intros j sim Hj. destruct (Hs j sim Hj) as (sim' & Hj' & Ho).
  destruct (Hs' j sim' Hj') as (sim'' & Hj'' & Ho').
  exists sim''. split; [done | congruence].
Qed.

Lemma bind_proj {B} (pr : Node.t -> option B) (o o' : option Node.t) :
  pr <$> o' = pr <$> o -> o' ≫= pr = o ≫= pr.
Proof. destruct o, o'; simpl; congruence. Qed.

Lemma placed_same_picture i v v' :
  same_picture v v' -> placed i v -> placed i v'.
Proof.
  intros (Hl & Hk & Hx & Hy & Hs) ((Hsh & Hsim) & Hcur).
  split; [split |].
  - rewrite Hl, Hk. exact Hsh.
  - destruct Hsim as (sim & Hj & Ho).
    destruct (Hs i sim Hj) as (sim' & Hj' & Ho'). exists sim'.
    split; [done | congruence].
  - rewrite Hl. eapply Forall_impl; [exact Hcur |].
    intros ln (d & a & b & Hd & Ha & Hb & H1 & H2 & H3 & H4).
    exists d, a, b. rewrite Hk.
    rewrite (bind_proj Node.x _ _ (Hx a)), (bind_proj Node.y _ _ (Hy a)),
            (bind_proj Node.x _ _ (Hx b)), (bind_proj Node.y _ _ (Hy b)).
    done.
Qed.

(** ** What leaves the picture as it is *)

Lemma same_picture_update_sim j f v :
  (forall s, Force.on_tick (f s) = Force.on_tick s) ->
  same_picture v (update_sim j f v).
Proof.
  intros Hf. repeat split; try done.
  intros k sim Hk. simpl. destruct (decide (j = k)) as [-> | Hne].
  - exists (f sim). by rewrite list_lookup_alter_eq, Hk.
  - exists sim. by rewrite list_lookup_alter_ne.
Qed.

Lemma same_picture_pin a f v :
  (forall n, Node.x (f n) = Node.x n) ->
  (forall n, Node.y (f n) = Node.y n) ->
  same_picture v (set_store (update_node a f (store v)) v).
Proof.
  intros Hx Hy. split; [done |]. split; [done |].
  split; [intros a'; by apply update_node_proj |].
  split; [intros a'; by apply update_node_proj |].
  intros j sim Hj. eauto.
Qed.

Lemma same_picture_dragstarted i e v : same_picture v (dragstarted i e v).
Proof.
  unfold dragstarted. destruct (Nat.eqb _ _).
  - eapply same_picture_trans;
      [apply (same_picture_update_sim i
                (fun s => Force.restart (Force.set_alphaTarget (3 # 10) s)));
       done |].
    by apply same_picture_pin.
  - by apply same_picture_pin.
Qed.

Lemma same_picture_dragged e v : same_picture v (dragged e v).
Proof. unfold dragged. by apply same_picture_pin. Qed.

Lemma same_picture_dragended i e v : same_picture v (dragended i e v).
Proof.
  unfold dragended. destruct (Nat.eqb _ _).
  - eapply same_picture_trans;
      [apply (same_picture_update_sim i (Force.set_alphaTarget 0)); done |].
    by apply same_picture_pin.
  - by apply same_picture_pin.
Qed.

Lemma same_picture_mousedown el e v : same_picture v (mousedown el e v).
Proof.
  unfold mousedown.
  destruct (groups v !! el) as [g |]; [| apply same_picture_refl].
  destruct (drags v !! g_sim g) as [b |]; [| apply same_picture_refl].
  destruct (node_objs (store v) !! g_datum g) as [n |];
    [| apply same_picture_refl].
  destruct (Drag.mousedowned b _ e) as [b' ev].
  eapply same_picture_trans; [| apply same_picture_dragstarted].
  repeat split; eauto.
Qed.

Lemma same_picture_mousemove e v : same_picture v (mousemove e v).
Proof.
  unfold mousemove.
  destruct (window_drag v) as [i |]; [| apply same_picture_refl].
  destruct (_ ≫= _) as [[b g] |]; [| apply same_picture_refl].
  destruct (Drag.mousemoved b g e) as [b' ev].
  eapply same_picture_trans; [| apply same_picture_dragged].
  repeat split; eauto.
Qed.

Lemma same_picture_mouseup e v : same_picture v (mouseup e v).
Proof.
  unfold mouseup.
  destruct (window_drag v) as [i |]; [| apply same_picture_refl].
  destruct (_ ≫= _) as [[b g] |]; [| apply same_picture_refl].
  destruct (Drag.mouseupped b g e) as [b' ev].
  eapply same_picture_trans; [| apply same_picture_dragended].
  repeat split; eauto.
Qed.

Lemma same_picture_click el v : same_picture v (click el v).
Proof.
  unfold click. destruct (noclick v); [apply same_picture_refl |].
  destruct (groups v !! el) as [g |]; [| apply same_picture_refl].
  destruct (g_click g) as [[] |]; repeat split; eauto.
Qed.

Lemma same_picture_zoom_by rev f v : same_picture v (zoom_by rev f v).
Proof.
  unfold zoom_by, zoomed. destruct (zoomable v); [| apply same_picture_refl].
  destruct (tracks_zoom rev); repeat split; eauto.
Qed.

Lemma same_picture_expire ev v : same_picture v (expire_noclick ev v).
Proof. destruct ev; repeat split; eauto. Qed.

Section WithPhysics.

Variable forces : Force.Config -> Q -> list Force.Kin -> list (nat * nat)
  -> list Force.Kin.
Variable phyllotaxis : nat -> Q * Q.

(** ** A frame *)

Lemma place_line_current s ln d :
  link_objs s !! line_datum ln = Some d -> resolved d ->
  line_current s (place_line s ln) /\
  line_sim (place_line s ln) = line_sim ln /\
  line_datum (place_line s ln) = line_datum ln.
Proof.
  intros Hd (a & b & Ha & Hb). unfold place_line. rewrite Hd, Ha, Hb.
  split; [| done]. exists d, a, b. done.
Qed.

(** A frame of a running simulation places every line of its effect
    run. *)
Lemma frame_places i v sim :
  shown i v -> sims v !! i = Some sim -> Force.running sim = true ->
  placed i (frame forces i v).
Proof.
  intros (Hsh & sim0 & Hs0 & Ho) Hs Hr.
  assert (sim0 = sim) as -> by congruence.
  unfold frame. rewrite Hs, Hr.
  pose proof (tick_links forces sim (store v)) as Hk.
  pose proof (tick_sim forces sim (store v)) as (_ & _ & _ & Hot & _).
  destruct (Force.tick forces sim (store v)) as [sim' s']. simpl in Hk, Hot.
  rewrite Hot, Ho.
  assert (Hlt : (i < length (sims v))%nat) by (by eapply lookup_lt_Some).
  split; [split |]; simpl.
  - apply Forall_fmap. eapply Forall_impl; [exact Hsh |].
    intros ln (Hi & d & Hd & Hres). simpl.
    rewrite Hi, Nat.eqb_refl. rewrite <- Hk in Hd.
    destruct (place_line_current s' ln d Hd Hres) as (_ & -> & ->).
    split; [done |]. rewrite Hk. rewrite Hk in Hd. eauto.
  - eexists. split.
    + rewrite !list_lookup_alter_eq, Hs. simpl. reflexivity.
    + destruct (settle_sim (Force.count_tick sim')) as (_ & -> & _).
      simpl. congruence.
  - apply Forall_fmap. eapply Forall_impl; [exact Hsh |].
    intros ln (Hi & d & Hd & Hres). simpl.
    rewrite Hi, Nat.eqb_refl. rewrite <- Hk in Hd.
    by destruct (place_line_current s' ln d Hd Hres) as (Hc & _).
Qed.

Lemma frame_lines_length i v :
  length (lines (frame forces i v)) = length (lines v).
Proof.
  unfold frame.
  destruct (sims v !! i) as [sm |]; [| done].
  destruct (Force.running sm); [| done].
  destruct (Force.tick forces sm (store v)) as [sim' s'].
  destruct (Force.on_tick sim'); [| done].
  unfold tick_listener. simpl. apply length_fmap.
Qed.

(** A frame keeps the lines placed: a stopped simulation moves
    nothing, a running one places the lines again. *)
Lemma frame_keeps_placed i v : placed i v -> placed i (frame forces i v).
Proof.
  intros Hp. pose proof Hp as ((Hsh & sim & Hs & Ho) & Hcur).
  destruct (Force.running sim) eqn:Hr.
  - eapply frame_places; [by split; eauto | exact Hs | exact Hr].
  - unfold frame. by rewrite Hs, Hr.
Qed.

Lemma handle_keeps_placed rev i v ev v' :
  quiet i ev -> handle forces phyllotaxis rev v ev = Ok v' ->
  placed i v -> placed i v'.
Proof.
  intros Hq H Hp.
  assert (Hp0 : placed i (expire_noclick ev v)).
  { eapply placed_same_picture; [apply same_picture_expire | exact Hp]. }
  unfold handle in H. destruct ev; simpl in H, Hq; try done;
    injection H as <-.
  - subst. by apply frame_keeps_placed.
  - eapply placed_same_picture; [apply same_picture_mousedown | done].
  - eapply placed_same_picture; [apply same_picture_mousemove | done].
  - eapply placed_same_picture; [apply same_picture_mouseup | done].
  - eapply placed_same_picture; [apply same_picture_click | done].
  - eapply placed_same_picture; [apply same_picture_zoom_by | done].
  - eapply placed_same_picture; [apply same_picture_zoom_by | done].
  - eapply placed_same_picture; [apply same_picture_zoom_by | done].
  - eapply placed_same_picture; [apply same_picture_zoom_by | done].
Qed.

Lemma run_keeps_placed rev i evs : forall v v',
  Forall (quiet i) evs -> run forces phyllotaxis rev v evs = Ok v' ->
  placed i v -> placed i v'.
Proof.
  induction evs as [| ev evs IH]; intros v v' Hq H Hp; simpl in H.
  - by injection H as <-.
  - inversion Hq as [| ? ? Hq1 Hq2]; subst.
    destruct (handle forces phyllotaxis rev v ev) as [v1 | msg] eqn:E;
      [| done].
    eapply IH; [exact Hq2 | exact H |]. by eapply handle_keeps_placed.
Qed.

Lemma handle_lines_length rev i v ev v' :
  quiet i ev -> handle forces phyllotaxis rev v ev = Ok v' ->
  length (lines v') = length (lines v).
Proof.
  intros Hq H. unfold handle in H.
  destruct ev; simpl in H, Hq; try done; injection H as <-.
  - exact (frame_lines_length _ (set_noclick false v)).
  - exact (f_equal length
             (proj1 (same_picture_mousedown el e (set_noclick false v)))).
  - exact (f_equal length
             (proj1 (same_picture_mousemove e (set_noclick false v)))).
  - exact (f_equal length
             (proj1 (same_picture_mouseup e (set_noclick false v)))).
  - exact (f_equal length (proj1 (same_picture_click el v))).
  - exact (f_equal length
             (proj1 (same_picture_zoom_by rev _ (set_noclick false v)))).
  - exact (f_equal length
             (proj1 (same_picture_zoom_by rev _ (set_noclick false v)))).
  - exact (f_equal length
             (proj1 (same_picture_zoom_by rev _ (set_noclick false v)))).
  - exact (f_equal length
             (proj1 (same_picture_zoom_by rev _ (set_noclick false v)))).
Qed.

Lemma run_lines_length rev i evs : forall v v',
  Forall (quiet i) evs -> run forces phyllotaxis rev v evs = Ok v' ->
  length (lines v') = length (lines v).
Proof.
  induction evs as [| ev evs IH]; intros v v' Hq H; simpl in H.
  - by injection H as <-.
  - inversion Hq as [| ? ? Hq1 Hq2]; subst.
    destruct (handle forces phyllotaxis rev v ev) as [v1 | msg] eqn:E;
      [| done].
    rewrite (IH _ _ Hq2 H). by eapply handle_lines_length.
Qed.

(** ** The effect *)

Lemma effect_shows rev p v v' :
  guards_empty rev && Nat.eqb (length (nodes p)) 0 = false ->
  effect phyllotaxis rev p v = Ok v' ->
  shown (length (sims v)) v' /\
  exists sim, sims v' !! length (sims v) = Some sim /\
              Force.running sim = true.
Proof.
  intros Hg H.
  apply effect_Ok in H
    as [(Hge & Hn & _) | (_ & ns & ls & s2 & s4 & Ed & El & ->)].
  { rewrite Hge, Hn in Hg. done. }
  set (s3 := Force.initializeNodes phyllotaxis 0 ns s2) in *.
  split; [split |]; simpl.
  - apply Forall_forall. intros ln Hln.
    apply list_elem_of_omap in Hln as (a & Ha & Hla).
    destruct (link_objs s4 !! a) as [d |] eqn:Ea; [| done].
    injection Hla as <-. simpl. split; [done |].
    destruct (initializeLinks_resolves _ _ _ _ _ a El Ha) as (l' & Hl' & Hr).
    { apply lookup_lt_is_Some.
      rewrite <- (initializeLinks_length _ _ _ _ _ El).
      by eapply lookup_lt_Some. }
    exists d. split; [done | congruence].
  - eexists. by rewrite list_lookup_middle.
  - eexists. by rewrite list_lookup_middle.
Qed.

End WithPhysics.

End TickFacts.

(* ===================================================================== *)
(** * Theorems: the generated topology *)
(* ===================================================================== *)

Module GeneratorFacts.
Import MockData Spec Generated.

Lemma Qgtb_true a b : Qgtb a b = true <-> (b < a)%Q.
Proof.
  unfold Qgtb. rewrite negb_true_iff. split.
  - intros H. apply Qnot_le_lt. intros Hle.
    apply Qle_bool_iff in Hle. congruence.
  - intros H. destruct (Qle_bool a b) eqn:E; [| reflexivity].
    apply Qle_bool_iff in E. by apply Qlt_not_le in H.
Qed.

Lemma randomBelow_at rnd n k :
  randomBelow rnd n k = (Qfloor (Number.mul (rnd k) (inject_Z n)), S k).
Proof. reflexivity. Qed.

Lemma generateDeviceStatus_shape rnd cfg k :
  random_ok rnd ->
  exists d k',
    generateDeviceStatus rnd cfg k = (d, k') /\
    config d = cfg /\ device_ok d /\
    (status d = DeviceStatus.OFFLINE <-> (Number.lit (9 # 10) < rnd k)%Q) /\
    (status d = DeviceStatus.WARNING <->
       (rnd k <= Number.lit (9 # 10))%Q /\
       (Number.lit (8 # 10) < rnd (S k))%Q) /\
    k' = (if bool_decide (status d = DeviceStatus.OFFLINE)
          then S k else 6 + k)%nat.
Proof.
  intros Hr. unfold generateDeviceStatus, bind at 1, random at 1.
  destruct (Qgtb (rnd k) (Number.lit (9 # 10))) eqn:Eoff.
  - eexists _, _. split; [reflexivity |]. simpl.
    split; [reflexivity |]. split; [left; done |].
    apply Qgtb_true in Eoff.
    split; [done |]. split; [| reflexivity].
    split; [done |]. intros [Hle _]. by apply Qlt_not_le in Eoff.
  - assert (Hnot : (rnd k <= Number.lit (9 # 10))%Q).
    { apply Qnot_lt_le. intros H. apply Qgtb_true in H. congruence. }
    unfold bind, random, ret. rewrite !randomBelow_at.
    destruct (Hr (S (S k))) as (Hdd & Hd0 & Hd1).
    destruct (Hr (S (S (S k)))) as (Hhd & Hh0 & Hh1).
    destruct (Hr (S (S (S (S k))))) as (Hcd & Hc0 & Hc1).
    destruct (Hr (S (S (S (S (S k)))))) as (Hmd & Hm0 & Hm1).
    assert (Hup : forall st c m,
      uptime_ok (mkDevice cfg st
        (pretty (Qfloor (Number.mul (rnd (S (S k))) (inject_Z 100)))
         +:+ "d " +:+
         pretty (Qfloor (Number.mul (rnd (S (S (S k)))) (inject_Z 24)))
         +:+ "h") c m)).
    { intros st c m. eexists _, _. split; [| split; [| reflexivity]].
      - by apply NumberFacts.floor_mul_range.
      - by apply NumberFacts.floor_mul_range. }
    destruct (Qgtb (rnd (S k)) (Number.lit (8 # 10))) eqn:Ewarn.
    + eexists _, _. split; [reflexivity |]. simpl.
      split; [reflexivity |]. split.
      { right; left. split; [reflexivity |]. split; [apply Hup |].
        split; by apply NumberFacts.floor_mul_range. }
      apply Qgtb_true in Ewarn.
      split; [split; [done | intros H; by apply Qlt_not_le in H] |].
      split; [done | reflexivity].
    + eexists _, _. split; [reflexivity |]. simpl.
      split; [reflexivity |]. split.
      { right; right. split; [reflexivity |]. split; [apply Hup |].
        split; by apply NumberFacts.floor_mul_range. }
      split; [split; [done | intros H; by apply Qlt_not_le in H] |].
      split; [| reflexivity].
      split; [done |]. intros [_ H]. apply Qgtb_true in H. congruence.
Qed.

Lemma mapM_devices rnd configs : forall k ns k',
  random_ok rnd ->
  mapM (generateDeviceStatus rnd) configs k = (ns, k') ->
  config <$> ns = configs /\ Forall device_ok ns.
Proof.
  induction configs as [| cfg rest IH]; intros k ns k' Hr H; simpl in H.
  - injection H as <- <-. split; [reflexivity | constructor].
  - unfold bind in H.
    destruct (generateDeviceStatus_shape rnd cfg k Hr)
      as (d & k1 & E & Hc & Hd & _).
    rewrite E in H.
    destruct (mapM (generateDeviceStatus rnd) rest k1) as [ds k2] eqn:E2.
    injection H as <- <-.
    destruct (IH k1 ds k2 Hr E2) as [Hcs Hds].
    split; [by rewrite fmap_cons, Hc, Hcs | by constructor].
Qed.

Lemma js_index_next {A} (ns : list A) (i : nat) :
  (0 < length ns)%nat ->
  js_index ns ((Z.of_nat i + 1) mod Z.of_nat (length ns))
  = ns !! (S i mod length ns)%nat.
Proof.
  intros Hn. unfold js_index.
  replace (Z.of_nat i + 1) with (Z.of_nat (S i)) by lia.
  rewrite <- Nat2Z.inj_mod.
  destruct (Z.ltb_spec (Z.of_nat (S i mod length ns)) 0); [lia |].
  by rewrite Nat2Z.id.
Qed.

Lemma ringStep_round rnd ns acc i k :
  random_ok rnd -> (i < length ns)%nat ->
  exists new k',
    ringStep rnd ns acc i k = (Ok (acc ++ new), k') /\ round ns i new.
Proof.
  intros Hr Hi. unfold ringStep.
  destruct (lookup_lt_is_Some_2 ns i Hi) as [s Hs]. rewrite Hs.
  assert (Hpos : (0 < length ns)%nat) by lia.
  rewrite js_index_next by exact Hpos.
  destruct (lookup_lt_is_Some_2 ns (S i mod length ns)) as [t Ht].
  { by apply Nat.mod_upper_bound, Nat.neq_0_lt_0. }
  rewrite Ht. unfold bind at 1, random at 1.
  set (ring := Link.mk (id s) (id t) _ _ None).
  assert (Hring : ring_link ns i ring).
  { exists s, t. subst ring; simpl.
    split; [exact Hs |]. split; [exact Ht |].
    split; [reflexivity |]. split; [reflexivity |].
    split; [destruct (Qgtb (rnd k) _); auto |].
    split; [| reflexivity].
    destruct (bool_decide (status s = DeviceStatus.OFFLINE)) eqn:E1;
      [apply bool_decide_eq_true in E1; left; auto |].
    destruct (bool_decide (status t = DeviceStatus.OFFLINE)) eqn:E2;
      [apply bool_decide_eq_true in E2; left; auto |].
    apply bool_decide_eq_false in E1, E2. right. auto. }
  destruct (Z.ltb_spec 3 (Z.of_nat (length ns))) as [H3 | H3].
  2:{ exists [ring], (S k). split; [reflexivity |].
      exists ring. split; [exact Hring | by left]. }
  unfold bind at 1, random at 1.
  destruct (Qgtb (rnd (S k)) _).
  2:{ exists [ring], (S (S k)). split; [reflexivity |].
      exists ring. split; [exact Hring | by left]. }
  destruct (MockDataFacts.randomBelow_range rnd (Z.of_nat (length ns))
              (S (S k)) Hr) as (j & Hj & Hjr); [lia |].
  unfold bind. rewrite Hj.
  destruct (MockDataFacts.js_index_in_range ns j Hjr) as (rt & Hrt & Hrtin).
  rewrite Hrt.
  destruct (bool_decide (id rt = id s)) eqn:E1; simpl.
  { exists [ring], (S (S (S k))). split; [reflexivity |].
    exists ring. split; [exact Hring | by left]. }
  destruct (bool_decide (id rt = id t)) eqn:E2; simpl.
  { exists [ring], (S (S (S k))). split; [reflexivity |].
    exists ring. split; [exact Hring | by left]. }
  apply bool_decide_eq_false in E1, E2.
  exists [ring; Link.mk (id s) (id rt) "40Gbps" "UP" None], (S (S (S k))).
  split; [unfold ret; by rewrite <- app_assoc |].
  exists ring. split; [exact Hring |]. right. split; [lia |].
  eexists. split; [| reflexivity].
  exists s, t, rt. simpl. repeat split; done.
Qed.

Lemma ringLoop_rounds rnd ns idxs : forall acc k,
  random_ok rnd -> Forall (fun i => (i < length ns)%nat) idxs ->
  exists news k',
    ringLoop rnd ns idxs acc k = (Ok (acc ++ concat news), k') /\
    Forall2 (round ns) idxs news.
Proof.
  induction idxs as [| i rest IH]; intros acc k Hr Hall; simpl.
  - exists [], k. simpl. rewrite app_nil_r. split; [reflexivity | constructor].
  - inversion Hall as [| ? ? Hi Hrest]; subst.
    destruct (ringStep_round rnd ns acc i k Hr Hi) as (new1 & k1 & E1 & F1).
    unfold bind. rewrite E1.
    destruct (IH (acc ++ new1) k1 Hr Hrest) as (news & k2 & E2 & F2).
    exists (new1 :: news), k2. rewrite E2. simpl. rewrite app_assoc.
    split; [reflexivity | by constructor].
Qed.

(** The shape of what [generateTopologyFromConfig] returns. *)
Lemma generated_shape rnd configs k :
  random_ok rnd ->
  exists t k',
    generateTopologyFromConfig rnd configs k = (Ok t, k') /\
    config <$> nodes t = configs /\ Forall device_ok (nodes t) /\
    ((length (nodes t) < 2)%nat /\ links t = [] \/
     (2 <= length (nodes t))%nat /\
     exists news, links t = concat news /\
       Forall2 (round (nodes t)) (seq 0 (length (nodes t))) news).
Proof.
  intros Hr. unfold generateTopologyFromConfig, bind.
  destruct (mapM (generateDeviceStatus rnd) configs k) as [ns k0] eqn:E0.
  destruct (mapM_devices rnd configs k ns k0 Hr E0) as [Hc Hd].
  destruct (Z.ltb_spec 1 (Z.of_nat (length ns))) as [Hlen | Hlen].
  - destruct (ringLoop_rounds rnd ns (seq 0 (length ns)) [] k0 Hr)
      as (news & k1 & E & F).
    { apply Forall_forall. intros i Hi. apply elem_of_seq in Hi. lia. }
    rewrite E. exists (mkTopology ns (concat news)), k1.
    split; [reflexivity |]. simpl. split; [exact Hc |]. split; [exact Hd |].
    right. split; [lia |]. by exists news.
  - exists (mkTopology ns []), k0. split; [reflexivity |]. simpl.
    split; [exact Hc |]. split; [exact Hd |]. left. split; [lia | reflexivity].
Qed.

Lemma rounds_ring ns idxs news i :
  Forall2 (round ns) idxs news -> i ∈ idxs ->
  exists l, l ∈ concat news /\ ring_link ns i l.
Proof.
  induction 1 as [| j new idxs news Hround _ IH]; intros Hi.
  - by apply elem_of_nil in Hi.
  - apply elem_of_cons in Hi as [-> | Hi].
    + destruct Hround as (r & Hr & Hnew).
      exists r. split; [| exact Hr]. simpl. apply elem_of_app. left.
      destruct Hnew as [-> | (_ & m & _ & ->)]; apply elem_of_cons; by left.
    + destruct (IH Hi) as (l & Hl & Hring).
      exists l. split; [| exact Hring]. simpl. apply elem_of_app. by right.
Qed.

Lemma rounds_elem ns idxs news l :
  Forall2 (round ns) idxs news -> l ∈ concat news ->
  exists i, i ∈ idxs /\ (ring_link ns i l \/ mesh_link ns i l).
Proof.
  induction 1 as [| j new idxs news Hround _ IH]; simpl; intros Hl.
  - by apply elem_of_nil in Hl.
  - apply elem_of_app in Hl as [Hl | Hl].
    + exists j. split; [apply elem_of_cons; by left |].
      destruct Hround as (r & Hr & [-> | (_ & m & Hm & ->)]).
      * apply list_elem_of_singleton in Hl as ->. by left.
      * apply elem_of_cons in Hl as [-> | Hl]; [by left |].
        apply list_elem_of_singleton in Hl as ->. by right.
    + destruct (IH Hl) as (i & Hi & H'). exists i. split; [apply elem_of_cons; by right | done].
Qed.

Lemma rounds_length ns idxs news :
  Forall2 (round ns) idxs news ->
  (length idxs <= length (concat news) <= 2 * length idxs)%nat /\
  ((length ns <= 3)%nat -> length (concat news) = length idxs).
Proof.
  induction 1 as [| j new idxs news Hround _ IH]; simpl.
  - split; [lia | done].
  - rewrite length_app. destruct IH as [IH1 IH2].
    destruct Hround as (r & _ & [-> | (H3 & m & _ & ->)]); simpl.
    + split; [lia |]. intros H. rewrite IH2 by exact H. reflexivity.
    + split; lia.
Qed.

Lemma ring_step_differs (n i : nat) :
  (2 <= n)%nat -> (i < n)%nat -> (S i mod n)%nat <> i.
Proof.
  intros Hn Hi. destruct (decide (S i = n)) as [Heq | Hne].
  - rewrite Heq, Nat.Div0.mod_same. lia.
  - rewrite Nat.mod_small; lia.
Qed.

Lemma reach_ring ns ls :
  (forall i, (i < length ns)%nat -> exists l, l ∈ ls /\ ring_link ns i l) ->
  forall k i s u,
    ns !! i = Some s -> ns !! ((i + k) mod length ns)%nat = Some u ->
    reach ls (id s) (id u).
Proof.
  intros Hring. induction k as [| k IH]; intros i s u Hs Hu.
  - assert (Hi : (i < length ns)%nat) by (eapply lookup_lt_Some, Hs).
    rewrite Nat.add_0_r, Nat.mod_small in Hu by exact Hi.
    assert (s = u) as -> by congruence. constructor.
  - assert (Hi : (i < length ns)%nat) by (eapply lookup_lt_Some, Hs).
    destruct (Hring i Hi) as (l & Hl & s' & t & Hs' & Ht & Hsrc & Htgt & _).
    assert (s' = s) as -> by congruence.
    apply reach_step with l; [exact Hl | exact Hsrc |].
    rewrite Htgt. apply (IH (S i mod length ns)%nat t u Ht).
    rewrite Nat.Div0.add_mod_idemp_l.
    by replace (S i + k)%nat with (i + S k)%nat by lia.
Qed.

(** X1.  [generateDeviceStatus] keeps the configuration and returns a
    status of the enum with figures in the ranges that go with it
    (nothing but zeros for an offline device, a load below 60 for an
    online one).  The device is offline exactly when the first random
    number is above the double 0.9; otherwise it is in the warning state
    exactly when the second is above the double 0.8.  The call takes
    one random number for an offline device and six otherwise. *)
Theorem generateDeviceStatus_ranges rnd cfg k :
  random_ok rnd ->
  exists d k',
    generateDeviceStatus rnd cfg k = (d, k') /\
    config d = cfg /\ device_ok d /\
    (status d = DeviceStatus.OFFLINE <-> (Number.lit (9 # 10) < rnd k)%Q) /\
    (status d = DeviceStatus.WARNING <->
       (rnd k <= Number.lit (9 # 10))%Q /\
       (Number.lit (8 # 10) < rnd (S k))%Q) /\
    k' = (if bool_decide (status d = DeviceStatus.OFFLINE)
          then S k else 6 + k)%nat.
Proof. apply generateDeviceStatus_shape. Qed.

(** X2.  [generateTopologyFromConfig] returns one device per configuration,
    in the order of the configurations and with the configuration
    unchanged, each with a status and figures as [generateDeviceStatus]
    makes them. *)
Theorem generated_nodes rnd configs k :
  random_ok rnd ->
  exists t k',
    generateTopologyFromConfig rnd configs k = (Ok t, k') /\
    config <$> nodes t = configs /\ Forall device_ok (nodes t).
Proof.
  intros Hr.
  destruct (generated_shape rnd configs k Hr) as (t & k' & E & Hc & Hd & _).
  by exists t, k'.
Qed.

(** X3.  With two configurations or more, the links hold the ring: for every
    device a link to the device after it (the last to the first), of
    1 or 10 Gbps, which is DOWN exactly when one of the two devices is
    OFFLINE. *)
Theorem generated_ring rnd configs k :
  random_ok rnd -> (2 <= length configs)%nat ->
  exists t k',
    generateTopologyFromConfig rnd configs k = (Ok t, k') /\
    forall i, (i < length configs)%nat ->
      exists l, l ∈ links t /\ ring_link (nodes t) i l.
Proof.
  intros Hr Hn.
  destruct (generated_shape rnd configs k Hr)
    as (t & k' & E & Hc & _ & Hl).
  exists t, k'. split; [exact E |]. intros i Hi.
  assert (Hlen : length (nodes t) = length configs)
    by (by rewrite <- Hc, length_fmap).
  destruct Hl as [[Hlt _] | (_ & news & -> & F)]; [lia |].
  apply rounds_ring with (seq 0 (length (nodes t))); [exact F |].
  apply elem_of_seq. lia.
Qed.

(** X4.  The number of links: none below two devices; otherwise at least one
    and at most two per device, and exactly one per device up to three
    devices. *)
Theorem generated_link_count rnd configs k :
  random_ok rnd ->
  exists t k',
    generateTopologyFromConfig rnd configs k = (Ok t, k') /\
    ((length configs < 2)%nat -> links t = []) /\
    ((2 <= length configs)%nat ->
       (length configs <= length (links t) <= 2 * length configs)%nat) /\
    ((2 <= length configs <= 3)%nat -> length (links t) = length configs).
Proof.
  intros Hr.
  destruct (generated_shape rnd configs k Hr)
    as (t & k' & E & Hc & _ & Hl).
  exists t, k'. split; [exact E |].
  assert (Hlen : length (nodes t) = length configs)
    by (by rewrite <- Hc, length_fmap).
  destruct Hl as [[Hlt ->] | (Hge & news & -> & F)].
  - split; [done |]. split; intros H; lia.
  - destruct (rounds_length _ _ _ F) as [Hb Hs].
    rewrite length_seq, Hlen in Hb, Hs.
    split; [intros H; lia |]. split; [intros _; exact Hb |].
    intros H. apply Hs. lia.
Qed.

(** X5.  Every device of the generated topology can be reached from every
    other one by following links from source to target. *)
Theorem generated_connected rnd configs k :
  random_ok rnd ->
  exists t k',
    generateTopologyFromConfig rnd configs k = (Ok t, k') /\
    forall d1 d2, d1 ∈ nodes t -> d2 ∈ nodes t ->
      reach (links t) (id d1) (id d2).
Proof.
  intros Hr.
  destruct (generated_shape rnd configs k Hr)
    as (t & k' & E & _ & _ & Hl).
  exists t, k'. split; [exact E |]. intros d1 d2 H1 H2.
  apply list_elem_of_lookup_1 in H1 as [i Hi], H2 as [j Hj].
  assert (Hilt : (i < length (nodes t))%nat) by (eapply lookup_lt_Some, Hi).
  assert (Hjlt : (j < length (nodes t))%nat) by (eapply lookup_lt_Some, Hj).
  destruct Hl as [[Hlt _] | (Hge & news & Hlinks & F)].
  - assert (i = j) as -> by lia. assert (d1 = d2) as -> by congruence.
    constructor.
  - apply (reach_ring (nodes t) (links t)) with (k := (j + length (nodes t) - i)%nat)
                                                (i := i); [| exact Hi |].
    + intros i' Hi'. rewrite Hlinks.
      apply rounds_ring with (seq 0 (length (nodes t))); [exact F |].
      apply elem_of_seq. lia.
    + replace (i + (j + length (nodes t) - i))%nat
        with (j + 1 * length (nodes t))%nat by lia.
      rewrite Nat.Div0.mod_add, Nat.mod_small by lia. exact Hj.
Qed.

(** X6.  When the configurations have pairwise different ids, no generated
    link joins a device to itself. *)
Theorem generated_no_self_loop rnd configs k :
  random_ok rnd -> NoDup (cfg_id <$> configs) ->
  exists t k',
    generateTopologyFromConfig rnd configs k = (Ok t, k') /\
    forall l, l ∈ links t -> Link.source l <> Link.target l.
Proof.
  intros Hr Hnd.
  destruct (generated_shape rnd configs k Hr)
    as (t & k' & E & Hc & _ & Hl).
  exists t, k'. split; [exact E |]. intros l Hin.
  assert (Hids : NoDup (id <$> nodes t)).
  { unfold id. rewrite <- Hc, <- list_fmap_compose in Hnd. exact Hnd. }
  destruct Hl as [[_ Hnil] | (Hge & news & Hlinks & F)].
  { rewrite Hnil in Hin. by apply elem_of_nil in Hin. }
  rewrite Hlinks in Hin.
  destruct (rounds_elem _ _ _ _ F Hin) as (i & Hi & [Hring | Hmesh]).
  - destruct Hring as (s & u & Hs & Hu & -> & -> & _).
    apply elem_of_seq in Hi. intros Heq.
    assert (Hne := ring_step_differs (length (nodes t)) i Hge ltac:(lia)).
    apply Hne. symmetry.
    apply (NoDup_lookup (id <$> nodes t) i (S i mod length (nodes t)) (id s));
      [exact Hids | by rewrite list_lookup_fmap, Hs |].
    by rewrite list_lookup_fmap, Hu, Heq.
  - destruct Hmesh as (s & u & r & _ & _ & _ & -> & -> & Hne & _).
    congruence.
Qed.

(** X1 where the first random number is the double 0.9 itself: the
    device is not offline, and with 7/8 as the second number it is in
    the warning state. *)
Lemma generateDeviceStatus_ranges_witness :
  random_ok Draws.at_threshold /\
  (exists d k',
     generateDeviceStatus Draws.at_threshold Cases.core 0%nat = (d, k') /\
     config d = Cases.core /\ device_ok d /\
     (status d = DeviceStatus.OFFLINE
      <-> (Number.lit (9 # 10) < Draws.at_threshold 0%nat)%Q) /\
     (status d = DeviceStatus.WARNING <->
        (Draws.at_threshold 0%nat <= Number.lit (9 # 10))%Q /\
        (Number.lit (8 # 10) < Draws.at_threshold 1%nat)%Q) /\
     k' = (if bool_decide (status d = DeviceStatus.OFFLINE)
           then 1 else 6 + 0)%nat) /\
  generateDeviceStatus Draws.at_threshold Cases.core 0%nat
  = (mkDevice Cases.core DeviceStatus.WARNING "87d 21h" 87 78, 6%nat).
Proof.
  assert (H : random_ok Draws.at_threshold).
  { intros [| k]; (split; [| split; by vm_compute]).
    - exists 8106479329266893%Z, (-53)%Z.
      split; [reflexivity |]. split; [lia | by vm_compute].
    - exists 7%Z, (-3)%Z. split; [reflexivity |]. split; [lia | reflexivity]. }
  split; [exact H |]. split; [| by vm_compute].
  exact (generateDeviceStatus_ranges Draws.at_threshold Cases.core 0%nat H).
Defined.

(** X2 on the sample. *)
Lemma generated_nodes_witness :
  random_ok Sample.three_quarters /\
  exists t k',
    generateTopologyFromConfig Sample.three_quarters DEFAULT_DEVICES 0%nat
      = (Ok t, k') /\
    config <$> nodes t = DEFAULT_DEVICES /\ Forall device_ok (nodes t).
Proof.
  assert (H : random_ok Sample.three_quarters).
  { intros k. split; [| split; vm_compute; congruence].
    exists 3%Z, (-2)%Z. split; [reflexivity |]. split; [lia | reflexivity]. }
  split; [exact H |].
  exact (generated_nodes Sample.three_quarters DEFAULT_DEVICES 0%nat H).
Defined.

(** X3 on the sample. *)
Lemma generated_ring_witness :
  random_ok Sample.three_quarters /\
  (2 <= length DEFAULT_DEVICES)%nat /\
  exists t k',
    generateTopologyFromConfig Sample.three_quarters DEFAULT_DEVICES 0%nat
      = (Ok t, k') /\
    forall i, (i < length DEFAULT_DEVICES)%nat ->
      exists l, l ∈ links t /\ ring_link (nodes t) i l.
Proof.
  assert (H : random_ok Sample.three_quarters).
  { intros k. split; [| split; vm_compute; congruence].
    exists 3%Z, (-2)%Z. split; [reflexivity |]. split; [lia | reflexivity]. }
  assert (H2 : (2 <= length DEFAULT_DEVICES)%nat) by (simpl; lia).
  split; [exact H |]. split; [exact H2 |].
  exact (generated_ring Sample.three_quarters DEFAULT_DEVICES 0%nat H H2).
Defined.

(** X4 on the sample. *)
Lemma generated_link_count_witness :
  random_ok Sample.three_quarters /\
  exists t k',
    generateTopologyFromConfig Sample.three_quarters Sample.four 0%nat
      = (Ok t, k') /\
    ((length Sample.four < 2)%nat -> links t = []) /\
    ((2 <= length Sample.four)%nat ->
       (length Sample.four <= length (links t) <= 2 * length Sample.four)%nat)
    /\
    ((2 <= length Sample.four <= 3)%nat ->
       length (links t) = length Sample.four).
Proof.
  assert (H : random_ok Sample.three_quarters).
  { intros k. split; [| split; vm_compute; congruence].
    exists 3%Z, (-2)%Z. split; [reflexivity |]. split; [lia | reflexivity]. }
  split; [exact H |].
  exact (generated_link_count Sample.three_quarters Sample.four 0%nat H).
Defined.

(** X5 on the sample. *)
Lemma generated_connected_witness :
  random_ok Sample.three_quarters /\
  exists t k',
    generateTopologyFromConfig Sample.three_quarters Sample.four 0%nat
      = (Ok t, k') /\
    forall d1 d2, d1 ∈ nodes t -> d2 ∈ nodes t ->
      reach (links t) (id d1) (id d2).
Proof.
  assert (H : random_ok Sample.three_quarters).
  { intros k. split; [| split; vm_compute; congruence].
    exists 3%Z, (-2)%Z. split; [reflexivity |]. split; [lia | reflexivity]. }
  split; [exact H |].
  exact (generated_connected Sample.three_quarters Sample.four 0%nat H).
Defined.

(** X6 on the sample. *)
Lemma generated_no_self_loop_witness :
  random_ok Sample.three_quarters /\
  NoDup (cfg_id <$> Sample.four) /\
  exists t k',
    generateTopologyFromConfig Sample.three_quarters Sample.four 0%nat
      = (Ok t, k') /\
    forall l, l ∈ links t -> Link.source l <> Link.target l.
Proof.
  assert (H : random_ok Sample.three_quarters).
  { intros k. split; [| split; vm_compute; congruence].
    exists 3%Z, (-2)%Z. split; [reflexivity |]. split; [lia | reflexivity]. }
  assert (H2 : NoDup (cfg_id <$> Sample.four)).
  { apply (bool_decide_unpack _). by vm_compute. }
  split; [exact H |]. split; [exact H2 |].
  exact (generated_no_self_loop Sample.three_quarters Sample.four 0%nat H H2).
Defined.

End GeneratorFacts.

(* ===================================================================== *)
(** * Theorems: the generated alarms *)
(* ===================================================================== *)

Module AlarmFacts.
Import MockAlarms Spec Generated.

Section WithWorld.

Variable rnd : nat -> Q.
Variable toString36 : Q -> string.
Variable now : nat -> string.

Local Abbreviation pushAlarm := (MockAlarms.pushAlarm rnd toString36 now).
Local Abbreviation forEach := (MockAlarms.forEach rnd toString36 now).
Local Abbreviation generateMockAlarms :=
  (MockAlarms.generateMockAlarms rnd toString36 now).

Local Abbreviation stamped := (Generated.stamped rnd toString36 now).

Lemma pushAlarm_shape alarms d w :
  (unhealthy d = true /\
   exists a, pushAlarm alarms d w = (alarms ++ [a], after 1 w) /\
             alarm_of d a /\ stamped w a) \/
  (unhealthy d = false /\ pushAlarm alarms d w = (alarms, w)).
Proof.
  unfold MockAlarms.pushAlarm, unhealthy.
  destruct (bool_decide (status d = DeviceStatus.OFFLINE)) eqn:Eoff; simpl.
  - left. split; [reflexivity |]. eexists. split; [reflexivity |].
    apply bool_decide_eq_true in Eoff.
    split; [| split; reflexivity].
    split; [reflexivity |]. split; [reflexivity |]. left. done.
  - apply bool_decide_eq_false in Eoff.
    destruct (bool_decide (status d = DeviceStatus.WARNING) || (80 <? cpuLoad d))
      eqn:E.
    + left. split; [reflexivity |]. eexists. split; [reflexivity |].
      split; [| split; reflexivity].
      split; [reflexivity |]. split; [reflexivity |]. right. done.
    + right. done.
Qed.

Lemma forEach_shape devices : forall alarms w,
  exists new,
    forEach devices alarms w = (alarms ++ new, after (length new) w) /\
    Forall2 alarm_of (filter (fun d => unhealthy d = true) devices) new /\
    (forall i a, new !! i = Some a -> stamped (after i w) a).
Proof.
  induction devices as [| d rest IH]; intros alarms w; simpl.
  - exists []. rewrite app_nil_r. split; [by destruct w |].
    split; [constructor | done].
  - unfold MockAlarms.bind.
    destruct (pushAlarm_shape alarms d w) as [(Hu & a & E & Ha & Hst) | (Hu & E)];
      rewrite E.
    + destruct (IH (alarms ++ [a]) (after 1 w)) as (new & E' & F & Hs).
      exists (a :: new). rewrite E'. rewrite <- app_assoc. simpl.
      split; [f_equal; unfold after; simpl; f_equal; lia |].
      rewrite filter_cons_True by exact Hu.
      split; [by constructor |].
      intros [| i] b Hb; simpl in Hb.
      * injection Hb as <-. by destruct w.
      * specialize (Hs i b Hb).
        replace (after (S i) w) with (after i (after 1 w)); [exact Hs |].
        unfold after; simpl. f_equal; lia.
    + destruct (IH alarms w) as (new & E' & F & Hs).
      exists new. rewrite E'. split; [reflexivity |].
      rewrite filter_cons_False by congruence. done.
Qed.

(** X7.  [generateMockAlarms] raises one alarm for each device that is
    OFFLINE, WARNING or above 80 % load, in the order of the devices,
    and none for the others; the alarm carries the id and the name of
    its device, is CRITICAL for an offline device and MAJOR otherwise,
    and takes one random number and one date. *)
Theorem generateMockAlarms_per_device devices w :
  exists alarms,
    generateMockAlarms devices w = (alarms, after (length alarms) w) /\
    Forall2 alarm_of (filter (fun d => unhealthy d = true) devices) alarms /\
    (forall i a, alarms !! i = Some a -> stamped (after i w) a).
Proof.
  destruct (forEach_shape devices [] w) as (new & E & F & Hs).
  exists new. done.
Qed.

Lemma device_ok_unhealthy d :
  device_ok d -> unhealthy d = true <-> status d <> DeviceStatus.ONLINE.
Proof.
  unfold unhealthy.
  intros [(Hs & _) | [(Hs & _) | (Hs & _ & Hc & _)]]; rewrite Hs.
  - split; [intros _; done | reflexivity].
  - split; [intros _; done | reflexivity].
  - destruct (Z.ltb_spec 80 (cpuLoad d)) as [Hgt | Hle]; [lia |].
    split; [done | intros Hne; by destruct Hne].
Qed.

Lemma filter_unhealthy devices :
  Forall device_ok devices ->
  filter (fun d => unhealthy d = true) devices
  = filter (fun d => status d <> DeviceStatus.ONLINE) devices.
Proof.
  induction 1 as [| d rest Hd _ IH]; [reflexivity |].
  destruct (device_ok_unhealthy d Hd) as [H1 H2].
  destruct (decide (status d = DeviceStatus.ONLINE)) as [Hon | Hon].
  - rewrite !filter_cons_False; [exact IH | by intros H; apply H |].
    intros H. by apply H1 in H.
  - rewrite !filter_cons_True; [by rewrite IH | exact Hon | by apply H2].
Qed.

Lemma alarms_deviceId devices alarms :
  Forall2 alarm_of devices alarms -> Alarm.deviceId <$> alarms = id <$> devices.
Proof.
  induction 1 as [| d a ds als (Hid & _) _ IH]; [reflexivity |].
  by rewrite !fmap_cons, Hid, IH.
Qed.

Lemma alarms_critical devices alarms :
  Forall2 alarm_of devices alarms ->
  length (filter (fun a => Alarm.severity a = AlarmSeverity.CRITICAL) alarms)
  = length (filter (fun d => status d = DeviceStatus.OFFLINE) devices).
Proof.
  induction 1 as [| d a ds als (_ & _ & Hsev) _ IH]; [reflexivity |].
  destruct Hsev as [(Hs & Hc & _) | (Hs & Hc & _)].
  - rewrite !filter_cons_True by done. simpl. by rewrite IH.
  - rewrite !filter_cons_False; [exact IH | exact Hs |].
    rewrite Hc. done.
Qed.

Lemma filter_offline_unhealthy (devices : list Device) :
  filter (fun d => status d = DeviceStatus.OFFLINE)
         (filter (fun d => unhealthy d = true) devices)
  = filter (fun d => status d = DeviceStatus.OFFLINE) devices.
Proof.
  induction devices as [| d rest IH]; [reflexivity |].
  destruct (decide (status d = DeviceStatus.OFFLINE)) as [Hoff | Hoff].
  - assert (Hu : unhealthy d = true).
    { unfold unhealthy. by rewrite bool_decide_eq_true_2. }
    rewrite (filter_cons_True (fun d => unhealthy d = true)) by exact Hu.
    rewrite !filter_cons_True by exact Hoff. by rewrite IH.
  - rewrite (filter_cons_False (fun d => status d = _) d rest) by exact Hoff.
    destruct (decide (unhealthy d = true)) as [Hu | Hu].
    + rewrite filter_cons_True by exact Hu.
      rewrite filter_cons_False by exact Hoff. exact IH.
    + rewrite filter_cons_False by exact Hu. exact IH.
Qed.

(** X8.  For the devices [generateTopologyFromConfig] returns, the alarms
    are those of the devices that are not ONLINE, one each and in their
    order, and as many of them are CRITICAL as devices are OFFLINE. *)
Theorem generated_alarms configs k w :
  random_ok rnd ->
  exists t k' alarms w',
    MockData.generateTopologyFromConfig rnd configs k = (Ok t, k') /\
    generateMockAlarms (nodes t) w = (alarms, w') /\
    Alarm.deviceId <$> alarms
    = id <$> filter (fun d => status d <> DeviceStatus.ONLINE) (nodes t) /\
    length (filter (fun a => Alarm.severity a = AlarmSeverity.CRITICAL)
                   alarms)
    = length (filter (fun d => status d = DeviceStatus.OFFLINE) (nodes t)).
Proof.
  intros Hr.
  destruct (GeneratorFacts.generated_shape rnd configs k Hr)
    as (t & k' & E & _ & Hd & _).
  destruct (forEach_shape (nodes t) [] w) as (alarms & Ea & F & _).
  exists t, k', alarms, (after (length alarms) w).
  split; [exact E |]. split; [exact Ea |]. split.
  - rewrite (alarms_deviceId _ _ F). by rewrite filter_unhealthy.
  - rewrite (alarms_critical _ _ F). by rewrite filter_offline_unhealthy.
Qed.

End WithWorld.

(** X8 on four devices of which the first is generated offline and the
    second in the warning state: two alarms, the first of them
    critical. *)
Lemma generated_alarms_witness :
  random_ok Draws.mixed /\
  (exists t k' alarms w',
     MockData.generateTopologyFromConfig Draws.mixed Sample.four 0%nat
       = (Ok t, k') /\
     generateMockAlarms Draws.mixed (fun _ => "0.r")
       (fun _ => "2024-01-01T00:00:00.000Z") (nodes t) (mkWorld 0%nat 0%nat)
       = (alarms, w') /\
     Alarm.deviceId <$> alarms
     = id <$> filter (fun d => status d <> DeviceStatus.ONLINE) (nodes t) /\
     length (filter (fun a => Alarm.severity a = AlarmSeverity.CRITICAL)
                    alarms)
     = length (filter (fun d => status d = DeviceStatus.OFFLINE) (nodes t))) /\
  MockData.generateTopologyFromConfig Draws.mixed Sample.four 0%nat
    = (Ok Draws.mixed_topology, 27%nat) /\
  status <$> nodes Draws.mixed_topology
    = [ DeviceStatus.OFFLINE; DeviceStatus.WARNING; DeviceStatus.ONLINE;
        DeviceStatus.ONLINE ] /\
  generateMockAlarms Draws.mixed (fun _ => "0.r")
    (fun _ => "2024-01-01T00:00:00.000Z") (nodes Draws.mixed_topology)
    (mkWorld 0%nat 0%nat)
    = (Draws.mixed_alarms, mkWorld 2%nat 2%nat) /\
  Alarm.deviceId <$> Draws.mixed_alarms = ["core-01"; "sw-01"] /\
  Alarm.severity <$> Draws.mixed_alarms
    = [AlarmSeverity.CRITICAL; AlarmSeverity.MAJOR].
Proof.
  assert (H : random_ok Draws.mixed).
  { intros k. split; [| split; destruct k as [| [| [| k]]]; by vm_compute].
    destruct k as [| [| [| k]]].
    - exists 15%Z, (-4)%Z. split; [reflexivity |]. split; [lia | reflexivity].
    - exists 1%Z, (-1)%Z. split; [reflexivity |]. split; [lia | reflexivity].
    - exists 7%Z, (-3)%Z. split; [reflexivity |]. split; [lia | reflexivity].
    - exists 1%Z, (-2)%Z. split; [reflexivity |]. split; [lia | reflexivity]. }
  split; [exact H |]. split.
  - exact (generated_alarms Draws.mixed (fun _ => "0.r")
             (fun _ => "2024-01-01T00:00:00.000Z") Sample.four 0%nat
             (mkWorld 0%nat 0%nat) H).
  - repeat split; by vm_compute.
Defined.

End AlarmFacts.

(* ===================================================================== *)
(** * Theorems: what the graph writes *)
(* ===================================================================== *)

Module FootprintFacts.
Import TopologyGraph StoreFacts Spec Footprint.

Lemma writes_trans s1 s2 s3 : writes s1 s2 -> writes s2 s3 -> writes s1 s3.
Proof.
  induction 1 as [| a f s s' Hf _ IH | a f s s' Hf _ IH | arr s s' _ IH
                 | arr s s' _ IH]; intros H3.
  - exact H3.
  - eapply writes_node; [exact Hf | by apply IH].
  - eapply writes_link; [exact Hf | by apply IH].
  - eapply writes_copy_nodes. by apply IH.
  - eapply writes_copy_links. by apply IH.
Qed.

Lemma writes_node_1 a f s :
  (forall n, node_write n (f n)) -> writes s (update_node a f s).
Proof. intros H. eapply writes_node; [intros n _; apply H | constructor]. Qed.

Lemma set_pin_write fx fy n : node_write n (Node.set_pin fx fy n).
Proof. done. Qed.

Lemma keeps_data_refl s : keeps_data s s.
Proof. split; intros a x H; by exists x. Qed.

Lemma keeps_data_trans s1 s2 s3 :
  keeps_data s1 s2 -> keeps_data s2 s3 -> keeps_data s1 s3.
Proof.
  intros [Hn1 Hl1] [Hn2 Hl2]. split.
  - intros a n H. destruct (Hn1 a n H) as (n' & H' & E').
    destruct (Hn2 a n' H') as (n'' & H'' & E''). exists n''. split; congruence.
  - intros a l H. destruct (Hl1 a l H) as (l' & H' & E').
    destruct (Hl2 a l' H') as (l'' & H'' & E''). exists l''. split; congruence.
Qed.

Lemma writes_keeps_data s s' : writes s s' -> keeps_data s s'.
Proof.
  induction 1 as [| a f s s' Hf _ IH | a f s s' Hf _ IH | arr s s' _ IH
                 | arr s s' _ IH].
  - apply keeps_data_refl.
  - eapply keeps_data_trans; [| exact IH]. split; [| intros a' l H; by exists l].
    intros a' n H. destruct (decide (a = a')) as [<- | Hne].
    + exists (f n). rewrite update_node_eq, H. split; [done | by apply Hf].
    + exists n. by rewrite update_node_ne.
  - eapply keeps_data_trans; [| exact IH]. split; [intros a' n H; by exists n |].
    intros a' l H. destruct (decide (a = a')) as [<- | Hne].
    + exists (f l). rewrite update_link_eq, H. split; [done | by apply Hf].
    + exists l. by rewrite update_link_ne.
  - eapply keeps_data_trans; [| exact IH]. split; [| intros a' l H; by exists l].
    intros a' n H. exists n. split; [| done]. simpl.
    by apply lookup_app_l_Some.
  - eapply keeps_data_trans; [| exact IH]. split; [intros a' n H; by exists n |].
    intros a' l H. exists l. split; [| done]. simpl.
    by apply lookup_app_l_Some.
Qed.

Lemma writes_from_caller s0 s s' :
  writes s s' -> from_caller s0 s -> from_caller s0 s'.
Proof.
  induction 1 as [| a f s s' Hf _ IH | a f s s' Hf _ IH | arr s s' _ IH
                 | arr s s' _ IH]; intros H0.
  - exact H0.
  - apply IH. intros a' n H. destruct (decide (a = a')) as [<- | Hne].
    + rewrite update_node_eq in H.
      destruct (node_objs s !! a) as [n1 |] eqn:E; [| done].
      injection H as <-. destruct (H0 a n1 E) as (a0 & n0 & E0 & Hd).
      exists a0, n0. split; [done |]. destruct (Hf n1 eq_refl) as [-> _]. done.
    + rewrite update_node_ne in H by done. by apply (H0 a').
  - apply IH. intros a' n H. by apply (H0 a').
  - apply IH. intros a' n H. simpl in H.
    apply lookup_app_Some in H as [H | [_ H]]; [by apply (H0 a') |].
    apply list_elem_of_lookup_2, list_elem_of_omap in H as (a1 & _ & H1).
    by apply (H0 a1).
  - apply IH. intros a' n H. by apply (H0 a').
Qed.

Lemma writes_positioned s s' :
  writes s s' ->
  forall a n, node_objs s !! a = Some n -> positioned n ->
    exists n', node_objs s' !! a = Some n' /\ positioned n'.
Proof.
  induction 1 as [| a f s s' Hf _ IH | a f s s' Hf _ IH | arr s s' _ IH
                 | arr s s' _ IH]; intros a' n Hn Hp.
  - by exists n.
  - apply (IH a' (if decide (a = a') then f n else n)).
    + destruct (decide (a = a')) as [<- | Hne].
      * by rewrite update_node_eq, Hn.
      * by rewrite update_node_ne.
    + destruct (decide (a = a')) as [<- | Hne]; [| done].
      destruct (Hf n Hn) as (_ & Hx & Hy). destruct Hp. split; auto.
  - by apply (IH a' n).
  - apply (IH a' n); [| done]. simpl. by apply lookup_app_l_Some.
  - by apply (IH a' n).
Qed.

Lemma end_ok_writes s s' e : writes s s' -> end_ok s e -> end_ok s' e.
Proof.
  intros Hw. destruct e as [i | a]; [done |]. simpl.
  intros (n & Hn & Hp). by eapply writes_positioned.
Qed.

Lemma writes_sound s s' : writes s s' -> sound s -> sound s'.
Proof.
  induction 1 as [| a f s s' Hf Hw IH | a f s s' Hf Hw IH | arr s s' Hw IH
                 | arr s s' Hw IH]; intros Hs.
  - exact Hs.
  - apply IH. intros a' l Hl. simpl in Hl.
    assert (H1 : writes s (update_node a f s)).
    { eapply writes_node; [exact Hf | constructor]. }
    destruct (Hs a' l Hl) as [H2 H3].
    split; by eapply end_ok_writes.
  - apply IH. intros a' l Hl.
    destruct (decide (a = a')) as [<- | Hne].
    + rewrite update_link_eq in Hl.
      destruct (link_objs s !! a) as [l0 |] eqn:E0; [| done].
      injection Hl as <-. destruct (Hs a l0 E0) as [H2 H3].
      destruct (Hf l0 eq_refl) as (_ & Hsrc & Htgt). split.
      * destruct Hsrc as [-> | (i & b & n & _ & -> & Hn & Hp)];
          [exact H2 | by exists n].
      * destruct Htgt as [-> | (i & b & n & _ & -> & Hn & Hp)];
          [exact H3 | by exists n].
    + rewrite update_link_ne in Hl by done. by apply (Hs a').
  - apply IH. intros a' l Hl. simpl in Hl.
    assert (H1 : writes s (spread_nodes arr s).2).
    { eapply writes_copy_nodes. constructor. }
    destruct (Hs a' l Hl) as [H2 H3].
    split; by eapply end_ok_writes.
  - apply IH. intros a' l Hl. simpl in Hl.
    apply lookup_app_Some in Hl as [Hl | [_ Hl]]; [by apply (Hs a') |].
    apply list_elem_of_lookup_2, list_elem_of_omap in Hl as (a1 & _ & H1).
    by apply (Hs a1).
Qed.

Lemma ids_only_sound s : ids_only s -> sound s.
Proof.
  intros H a l Hl. destruct (H a l Hl) as (i & j & -> & ->). done.
Qed.

Section WithPhysics.

Variable forces : Force.Config -> Q -> list Force.Kin -> list (nat * nat)
  -> list Force.Kin.
Variable phyllotaxis : nat -> Q * Q.

Lemma initializeNode_positioned i n :
  positioned (Force.initializeNode phyllotaxis i n).
Proof.
  unfold Force.initializeNode.
  destruct n as [d ix x y vx vy fx fy]; simpl.
  destruct fx, fy, x, y, vx, vy; simpl;
    try destruct (phyllotaxis i); simpl; split; done.
Qed.

Lemma initializeNode_write i n :
  node_write n (Force.initializeNode phyllotaxis i n).
Proof.
  split; [apply initializeNode_dev |].
  unfold Force.initializeNode.
  destruct n as [d ix x y vx vy fx fy]; simpl.
  destruct fx, fy, x, y, vx, vy; simpl;
    try destruct (phyllotaxis i); simpl; split; intros H; try done;
    by inversion H.
Qed.

Lemma integrate_write k n : node_write n (Force.integrate k n).
Proof.
  split; [apply integrate_keeps |].
  unfold Force.integrate.
  destruct n as [d ix x y vx vy [fx |] [fy |]]; simpl; done.
Qed.

Lemma initializeNodes_writes ns : forall i s,
  writes s (Force.initializeNodes phyllotaxis i ns s).
Proof.
  induction ns as [| a ns IH]; intros i s; simpl; [constructor |].
  eapply writes_node; [| apply IH].
  intros n _. apply initializeNode_write.
Qed.

Lemma initializeNodes_positioned ns : forall i s a n,
  a ∈ ns ->
  node_objs (Force.initializeNodes phyllotaxis i ns s) !! a = Some n ->
  positioned n.
Proof.
  induction ns as [| a0 ns IH]; intros i s a n Ha Hn; simpl in Hn.
  - by apply elem_of_nil in Ha.
  - destruct (decide (a ∈ ns)) as [Hin | Hnin]; [by eapply IH |].
    apply elem_of_cons in Ha as [-> | Ha]; [| done].
    rewrite initializeNodes_other in Hn by done.
    rewrite update_node_eq in Hn.
    destruct (node_objs s !! a0) as [n0 |]; [| done].
    injection Hn as <-. apply initializeNode_positioned.
Qed.

Lemma find_elem m i a : Force.find m i = Ok a -> exists k, (k, a) ∈ m.
Proof.
  unfold Force.find.
  destruct (list_find _ (reverse m)) as [[j [k b]] |] eqn:E; [| done].
  intros H. injection H as <-.
  apply list_find_Some in E as (Hj & _ & _).
  exists k. apply elem_of_reverse. by eapply list_elem_of_lookup_2.
Qed.

Lemma resolve_end_write m s e e' :
  placed_map m s -> Force.resolve m e = Ok e' -> end_write s e e'.
Proof.
  intros Hm. destruct e as [i | a]; simpl.
  - destruct (Force.find m i) as [a |] eqn:E; [| done].
    intros H. injection H as <-. right.
    destruct (find_elem m i a E) as [k Hk].
    destruct (Hm (k, a) Hk) as (n & Hn & Hp). by exists i, a, n.
  - intros H. injection H as <-. by left.
Qed.

Lemma initializeLinks_writes m ls : forall i s s',
  placed_map m s ->
  Force.initializeLinks m i ls s = Ok s' -> writes s s'.
Proof.
  induction ls as [| a ls IH]; intros i s s' Hm H; simpl in H.
  - injection H as <-. constructor.
  - destruct (link_objs s !! a) as [l |] eqn:El; [| by eapply IH].
    destruct (Force.resolve m (LinkDatum.source l)) as [src |] eqn:Es;
      [| done].
    destruct (Force.resolve m (LinkDatum.target l)) as [tgt |] eqn:Et;
      [| done].
    eapply writes_link; [| eapply IH; [| exact H]; exact Hm].
    intros l0 Hl0. assert (l0 = l) as -> by congruence.
    split; [reflexivity |]. simpl.
    split; by eapply resolve_end_write.
Qed.

Lemma nodeById_placed ns s :
  placed_map (Force.nodeById ns (Force.initializeNodes phyllotaxis 0 ns s))
             (Force.initializeNodes phyllotaxis 0 ns s).
Proof.
  intros kv Hkv. unfold Force.nodeById in Hkv.
  apply list_elem_of_omap in Hkv as (a & Ha & Hkv).
  destruct (node_objs _ !! a) as [n |] eqn:E; [| done].
  injection Hkv as <-. simpl. exists n. split; [exact E |].
  by eapply initializeNodes_positioned.
Qed.

Lemma integrateAll_writes ns : forall ks s,
  writes s (Force.integrateAll ns ks s).
Proof.
  induction ns as [| a ns IH]; intros ks s; [destruct ks; constructor |].
  destruct ks as [| k ks]; simpl.
  - eapply writes_node; [| apply IH]. intros n _. apply integrate_write.
  - eapply writes_node; [| apply IH]. intros n _. apply integrate_write.
Qed.

Lemma own_data_writes rev p s ns ls s2 :
  own_data rev p s = (ns, ls, s2) -> writes s s2.
Proof.
  unfold own_data. destruct (copies_props rev).
  - destruct (spread_nodes (nodes p) s) as [ns' s1] eqn:E1.
    destruct (spread_links (links p) s1) as [ls' s2'] eqn:E2.
    intros H. injection H as <- <- <-.
    eapply writes_copy_nodes. rewrite E1. simpl.
    eapply writes_copy_links. rewrite E2. constructor.
  - intros H. injection H as <- <- <-. constructor.
Qed.

Lemma run_cleanup_store v : store (run_cleanup v) = store v.
Proof. unfold run_cleanup. by destruct (cleanup v). Qed.

Lemma effect_writes rev p v v' :
  effect phyllotaxis rev p v = Ok v' -> writes (store v) (store v').
Proof.
  intros H.
  apply effect_Ok in H
    as [(_ & _ & ->) | (_ & ns & ls & s2 & s4 & Ed & El & ->)];
    [constructor |].
  simpl. eapply writes_trans; [eapply own_data_writes, Ed |].
  eapply writes_trans; [apply initializeNodes_writes |].
  eapply initializeLinks_writes; [| exact El]. apply nodeById_placed.
Qed.

Lemma frame_store i v :
  store (frame forces i v) = store v \/
  exists sim, sims v !! i = Some sim /\
    store (frame forces i v) = (Force.tick forces sim (store v)).2.
Proof.
  unfold frame. destruct (sims v !! i) as [sim |] eqn:E; [| by left].
  destruct (Force.running sim); [| by left].
  right. exists sim. split; [done |].
  destruct (Force.tick forces sim (store v)) as [sim' s'].
  by destruct (Force.on_tick sim').
Qed.

Lemma frame_writes i v : writes (store v) (store (frame forces i v)).
Proof.
  destruct (frame_store i v) as [-> | (sim & _ & ->)]; [constructor |].
  apply integrateAll_writes.
Qed.

Lemma mousedown_writes el e v : writes (store v) (store (mousedown el e v)).
Proof.
  unfold mousedown.
  destruct (groups v !! el) as [g |]; [| constructor].
  destruct (drags v !! g_sim g) as [b |]; [| constructor].
  destruct (node_objs (store v) !! g_datum g) as [n |]; [| constructor].
  destruct (Drag.mousedowned b _ e) as [b' ev].
  rewrite DragFacts.dragstarted_store. simpl. apply writes_node_1.
  intros n0. apply set_pin_write.
Qed.

Lemma mousemove_writes e v : writes (store v) (store (mousemove e v)).
Proof.
  unfold mousemove.
  destruct (window_drag v) as [i |]; [| constructor].
  destruct (_ ≫= _) as [[b g] |]; [| constructor].
  destruct (Drag.mousemoved b g e) as [b' ev]. simpl.
  apply writes_node_1. intros n0. apply set_pin_write.
Qed.

Lemma mouseup_writes e v : writes (store v) (store (mouseup e v)).
Proof.
  unfold mouseup.
  destruct (window_drag v) as [i |]; [| constructor].
  destruct (_ ≫= _) as [[b g] |]; [| constructor].
  destruct (Drag.mouseupped b g e) as [b' ev].
  rewrite DragFacts.dragended_store. simpl. apply writes_node_1.
  intros n0. apply set_pin_write.
Qed.

Lemma click_store el v : store (click el v) = store v.
Proof.
  unfold click. destruct (noclick v); [done |].
  destruct (groups v !! el) as [g |]; [| done].
  by destruct (g_click g) as [[] |].
Qed.

Lemma zoom_by_store rev f v : store (zoom_by rev f v) = store v.
Proof.
  unfold zoom_by, zoomed. destruct (zoomable v); [| done].
  by destruct (tracks_zoom rev).
Qed.

Lemma handle_writes rev v ev v' :
  handle forces phyllotaxis rev v ev = Ok v' -> writes (store v) (store v').
Proof.
  intros H.
  assert (Hs : store (expire_noclick ev v) = store v) by (by destruct ev).
  unfold handle in H. destruct ev; simpl in H; try injection H as <-.
  - apply effect_writes in H. by rewrite run_cleanup_store in H.
  - simpl. rewrite run_cleanup_store. constructor.
  - apply (frame_writes i (set_noclick false v)).
  - apply (mousedown_writes el e (set_noclick false v)).
  - apply (mousemove_writes e (set_noclick false v)).
  - apply (mouseup_writes e (set_noclick false v)).
  - rewrite click_store. constructor.
  - rewrite zoom_by_store. constructor.
  - rewrite zoom_by_store. constructor.
  - rewrite zoom_by_store. constructor.
  - rewrite zoom_by_store. constructor.
Qed.

Lemma run_writes rev evs : forall v v',
  run forces phyllotaxis rev v evs = Ok v' -> writes (store v) (store v').
Proof.
  induction evs as [| ev evs IH]; intros v v' H; simpl in H.
  - injection H as <-. constructor.
  - destruct (handle forces phyllotaxis rev v ev) as [v1 | msg] eqn:E;
      [| done].
    eapply writes_trans; [eapply handle_writes, E | by apply IH].
Qed.

(** X9.  No revision writes a field of a device, or the bandwidth, the
    status or the label of a link: after any sequence of events every
    object the caller passed in still carries the device and the link
    data it came with, and every node object there is carries a device
    of the caller. *)
Theorem device_data_never_written rev s0 evs v :
  run forces phyllotaxis rev (initial s0) evs = Ok v ->
  keeps_data s0 (store v) /\ from_caller s0 (store v).
Proof.
  intros H. apply run_writes in H. simpl in H. split.
  - by apply writes_keeps_data.
  - eapply writes_from_caller; [exact H |]. intros a n Hn. by exists a, n.
Qed.

(** ** The node groups and the clicks *)

Lemma effect_groups rev p v v' :
  effect phyllotaxis rev p v = Ok v' ->
  selected v' = selected v /\
  (groups v' = groups v \/
   Forall (fun g => is_Some (node_objs (store v') !! g_datum g)) (groups v')).
Proof.
  intros H.
  apply effect_Ok in H
    as [(_ & _ & ->) | (_ & ns & ls & s2 & s4 & Ed & El & ->)];
    [by split; [| left] |].
  split; [reflexivity |]. right. simpl.
  apply Forall_forall. intros g Hg.
  apply list_elem_of_omap in Hg as (a & _ & Hg).
  destruct (node_objs s4 !! a) as [n |] eqn:E; [| done].
  injection Hg as <-. simpl. by rewrite E.
Qed.

Lemma run_cleanup_groups v :
  groups (run_cleanup v) = groups v /\ selected (run_cleanup v) = selected v.
Proof. unfold run_cleanup. by destruct (cleanup v). Qed.

Lemma frame_groups i v :
  g_datum <$> groups (frame forces i v) = g_datum <$> groups v /\
  selected (frame forces i v) = selected v.
Proof.
  unfold frame. destruct (sims v !! i) as [sim |]; [| done].
  destruct (Force.running sim); [| done].
  destruct (Force.tick forces sim (store v)) as [sim' s'].
  destruct (Force.on_tick sim'); [| done]. simpl. split; [| done].
  rewrite <- list_fmap_compose. apply list_fmap_ext.
  intros k g _. simpl. destruct (Nat.eqb _ _); [| done].
  unfold place_group. by destruct (node_objs s' !! g_datum g).
Qed.

Lemma mousedown_groups el e v :
  groups (mousedown el e v) = groups v /\
  selected (mousedown el e v) = selected v.
Proof.
  unfold mousedown.
  destruct (groups v !! el) as [g |]; [| done].
  destruct (drags v !! g_sim g) as [b |]; [| done].
  destruct (node_objs (store v) !! g_datum g) as [n |]; [| done].
  destruct (Drag.mousedowned b _ e) as [b' ev].
  by destruct (DragFacts.dragstarted_rest (g_sim g) ev
       (set_window_drag (Some (g_sim g))
          (set_drags (<[g_sim g := b']> (drags v)) v)))
    as (_ & _ & -> & -> & _).
Qed.

Lemma mousemove_groups e v :
  groups (mousemove e v) = groups v /\ selected (mousemove e v) = selected v.
Proof.
  unfold mousemove.
  destruct (window_drag v) as [i |]; [| done].
  destruct (_ ≫= _) as [[b g] |]; [| done].
  by destruct (Drag.mousemoved b g e) as [b' ev].
Qed.

Lemma mouseup_groups e v :
  groups (mouseup e v) = groups v /\ selected (mouseup e v) = selected v.
Proof.
  unfold mouseup.
  destruct (window_drag v) as [i |]; [| done].
  destruct (_ ≫= _) as [[b g] |]; [| done].
  destruct (Drag.mouseupped b g e) as [b' ev].
  by destruct (DragFacts.dragended_rest i ev
       (set_noclick (Drag.mousemoving b)
          (set_window_drag None (set_drags (<[i := b']> (drags v)) v))))
    as (_ & _ & -> & -> & _).
Qed.

Lemma click_groups el v :
  groups (click el v) = groups v /\
  (selected (click el v) = selected v \/
   exists g, g ∈ groups v /\ selected (click el v) = selected v ++ [g_datum g]).
Proof.
  unfold click. destruct (noclick v); [by split; [| left] |].
  destruct (groups v !! el) as [g |] eqn:E; [| by split; [| left]].
  destruct (g_click g) as [[] |]; try (by split; [| left]).
  split; [done |]. right. exists g. split; [| done].
  by eapply list_elem_of_lookup_2.
Qed.

Lemma zoom_by_groups rev f v :
  groups (zoom_by rev f v) = groups v /\
  selected (zoom_by rev f v) = selected v.
Proof.
  unfold zoom_by, zoomed. destruct (zoomable v); [| done].
  by destruct (tracks_zoom rev).
Qed.

Lemma is_Some_kept s s' a :
  keeps_data s s' -> is_Some (node_objs s !! a) -> is_Some (node_objs s' !! a).
Proof.
  intros [Hk _] [n Hn]. destruct (Hk a n Hn) as (n' & -> & _). done.
Qed.

Lemma Forall_datum (P : nat -> Prop) (gs gs' : list NodeEl) :
  g_datum <$> gs' = g_datum <$> gs ->
  Forall (fun g => P (g_datum g)) gs -> Forall (fun g => P (g_datum g)) gs'.
Proof.
  intros E H.
  apply (Forall_fmap g_datum P). rewrite E. by apply Forall_fmap.
Qed.

Lemma handle_grounded rev v ev v' :
  handle forces phyllotaxis rev v ev = Ok v' -> grounded v -> grounded v'.
Proof.
  intros H [Hg Hs].
  pose proof (writes_keeps_data _ _ (handle_writes rev v ev v' H)) as Hk.
  assert (Hg' : Forall (fun g => is_Some (node_objs (store v') !! g_datum g))
                       (groups v)).
  { eapply Forall_impl; [exact Hg |]. intros g. by apply is_Some_kept. }
  assert (Hs' : Forall (fun a => is_Some (node_objs (store v') !! a))
                       (selected v)).
  { eapply Forall_impl; [exact Hs |]. intros a. by apply is_Some_kept. }
  unfold handle in H. destruct ev; simpl in H; try injection H as <-.
  - apply effect_groups in H as [Hsel [Hgr | Hgr]].
    + destruct (run_cleanup_groups (set_noclick false v)) as [E1 E2].
      rewrite E2 in Hsel. rewrite E1 in Hgr. simpl in Hsel, Hgr.
      split; [by rewrite Hgr | by rewrite Hsel].
    + destruct (run_cleanup_groups (set_noclick false v)) as [E1 E2].
      rewrite E2 in Hsel. simpl in Hsel.
      split; [exact Hgr | by rewrite Hsel].
  - split; [constructor |]. simpl.
    destruct (run_cleanup_groups (set_noclick false v)) as [_ ->]. exact Hs'.
  - destruct (frame_groups i (set_noclick false v)) as [E1 E2].
    split; [| by rewrite E2].
    eapply (Forall_datum (fun a => is_Some (node_objs _ !! a)));
      [exact E1 | exact Hg'].
  - destruct (mousedown_groups el e (set_noclick false v)) as [E1 E2].
    split; [by rewrite E1 | by rewrite E2].
  - destruct (mousemove_groups e (set_noclick false v)) as [E1 E2].
    split; [by rewrite E1 | by rewrite E2].
  - destruct (mouseup_groups e (set_noclick false v)) as [E1 E2].
    split; [by rewrite E1 | by rewrite E2].
  - destruct (click_groups el v) as [E1 [E2 | (g & Hin & E2)]].
    + split; [by rewrite E1 | by rewrite E2].
    + split; [by rewrite E1 |]. rewrite E2. apply Forall_app. split; [done |].
      constructor; [| constructor].
      rewrite Forall_forall in Hg'. by apply Hg'.
  - destruct (zoom_by_groups rev (fun t => Zoom.wheeled scaleExtent t factor p)
                (set_noclick false v)) as [E1 E2].
    split; [by rewrite E1 | by rewrite E2].
  - destruct (zoom_by_groups rev
                (fun t => Zoom.dblclicked scaleExtent t shift p)
                (set_noclick false v)) as [E1 E2].
    split; [by rewrite E1 | by rewrite E2].
  - destruct (zoom_by_groups rev (fun t => Zoom.panned t p0 p)
                (set_noclick false v)) as [E1 E2].
    split; [by rewrite E1 | by rewrite E2].
  - destruct (zoom_by_groups rev
                (fun t => Zoom.pinched scaleExtent t ratio p l)
                (set_noclick false v)) as [E1 E2].
    split; [by rewrite E1 | by rewrite E2].
Qed.

Lemma handle_selected rev v ev v' :
  handle forces phyllotaxis rev v ev = Ok v' ->
  selected v' = selected v \/
  exists g, g ∈ groups v /\ selected v' = selected v ++ [g_datum g].
Proof.
  intros H. unfold handle in H.
  destruct ev; simpl in H; try injection H as <-.
  - apply effect_groups in H as [-> _].
    destruct (run_cleanup_groups (set_noclick false v)) as [_ ->]. by left.
  - simpl. destruct (run_cleanup_groups (set_noclick false v)) as [_ ->].
    by left.
  - destruct (frame_groups i (set_noclick false v)) as [_ ->]. by left.
  - destruct (mousedown_groups el e (set_noclick false v)) as [_ ->]. by left.
  - destruct (mousemove_groups e (set_noclick false v)) as [_ ->]. by left.
  - destruct (mouseup_groups e (set_noclick false v)) as [_ ->]. by left.
  - destruct (click_groups el v) as [_ [-> | Hr]]; [by left | by right].
  - destruct (zoom_by_groups rev (fun t => Zoom.wheeled scaleExtent t factor p)
                (set_noclick false v)) as [_ ->]. by left.
  - destruct (zoom_by_groups rev
                (fun t => Zoom.dblclicked scaleExtent t shift p)
                (set_noclick false v)) as [_ ->]. by left.
  - destruct (zoom_by_groups rev (fun t => Zoom.panned t p0 p)
                (set_noclick false v)) as [_ ->]. by left.
  - destruct (zoom_by_groups rev
                (fun t => Zoom.pinched scaleExtent t ratio p l)
                (set_noclick false v)) as [_ ->]. by left.
Qed.

Lemma run_clicks s0 rev evs : forall v v',
  copies_props rev = true ->
  run forces phyllotaxis rev v evs = Ok v' ->
  private s0 v -> grounded v -> Forall (own_n s0) (selected v) ->
  private s0 v' /\ grounded v' /\ Forall (own_n s0) (selected v').
Proof.
  induction evs as [| ev evs IH]; intros v v' Hc H Hp Hg Ho; simpl in H.
  - by injection H as <-.
  - destruct (handle forces phyllotaxis rev v ev) as [v1 | msg] eqn:E;
      [| done].
    apply (IH v1 v' Hc H).
    + by eapply CallerFacts.handle_private.
    + by eapply handle_grounded.
    + destruct (handle_selected rev v ev v1 E) as [-> | (g & Hin & ->)];
        [exact Ho |].
      apply Forall_app. split; [exact Ho |]. constructor; [| constructor].
      destruct Hp as (_ & _ & Hgr & _). rewrite Forall_forall in Hgr.
      by apply Hgr.
Qed.

(** X10.  In the revisions that copy their props, every object [onNodeClick]
    is called with is a copy the component made, not an object of the
    caller, and it carries the device of one of the caller's objects. *)
Theorem click_passes_copy rev s0 evs v :
  copies_props rev = true ->
  run forces phyllotaxis rev (initial s0) evs = Ok v ->
  Forall (fun a =>
            own_n s0 a /\
            exists n a0 n0,
              node_objs (store v) !! a = Some n /\
              node_objs s0 !! a0 = Some n0 /\ Node.dev n = Node.dev n0)
         (selected v).
Proof.
  intros Hc H.
  destruct (run_clicks s0 rev evs _ _ Hc H) as (_ & [_ Hg] & Ho).
  { apply CallerFacts.initial_private. }
  { split; constructor. }
  { constructor. }
  assert (Hfrom : from_caller s0 (store v)).
  { eapply writes_from_caller; [eapply run_writes, H |].
    intros a n Hn. by exists a, n. }
  apply Forall_forall. intros a Ha.
  rewrite Forall_forall in Hg, Ho.
  split; [by apply Ho |].
  destruct (Hg a Ha) as [n Hn]. destruct (Hfrom a n Hn) as (a0 & n0 & E0 & Ed).
  by exists n, a0, n0.
Qed.

End WithPhysics.

(** X9 on the sample. *)
Lemma device_data_never_written_witness :
  run Sample.still Sample.row rev1 (initial Sample.caller)
      Sample.mounted_and_played = Ok Cases.first_played /\
  keeps_data Sample.caller (store Cases.first_played) /\
  from_caller Sample.caller (store Cases.first_played).
Proof.
  assert (H : run Sample.still Sample.row rev1 (initial Sample.caller)
                  Sample.mounted_and_played = Ok Cases.first_played)
    by (vm_compute; reflexivity).
  split; [exact H |].
  exact (device_data_never_written Sample.still Sample.row rev1
           Sample.caller Sample.mounted_and_played Cases.first_played H).
Defined.

(** X10 on the sample. *)
Lemma click_passes_copy_witness :
  copies_props rev3 = true /\
  run Sample.still Sample.row rev3 (initial Sample.caller)
      Sample.mounted_and_played = Ok Sample.played /\
  Forall (fun a =>
            own_n Sample.caller a /\
            exists n a0 n0,
              node_objs (store Sample.played) !! a = Some n /\
              node_objs Sample.caller !! a0 = Some n0 /\
              Node.dev n = Node.dev n0)
         (selected Sample.played).
Proof.
  assert (H : run Sample.still Sample.row rev3 (initial Sample.caller)
                  Sample.mounted_and_played = Ok Sample.played)
    by (vm_compute; reflexivity).
  split; [reflexivity |]. split; [exact H |].
  exact (click_passes_copy Sample.still Sample.row rev3 Sample.caller
           Sample.mounted_and_played Sample.played eq_refl H).
Defined.

End FootprintFacts.

(* ===================================================================== *)
(** * Theorems: colours *)
(* ===================================================================== *)

Module ColourFacts.
Import TopologyGraph StoreFacts Spec Footprint.

Lemma linkStroke_red (st : string) : linkStroke st = "#ef4444" <-> st = "DOWN".
Proof.
  unfold linkStroke. case_bool_decide; split; intros; try done.
Qed.

Section WithPhysics.

Variable forces : Force.Config -> Q -> list Force.Kin -> list (nat * nat)
  -> list Force.Kin.
Variable phyllotaxis : nat -> Q * Q.

(** The link force leaves the bandwidth, the status and the label of
    every link as they are. *)
Lemma initializeLinks_data m ls : forall i s s' a,
  Force.initializeLinks m i ls s = Ok s' ->
  link_data <$> link_objs s' !! a = link_data <$> link_objs s !! a.
Proof.
  induction ls as [| a0 ls IH]; intros i s s' a H; simpl in H.
  { by injection H as <-. }
  destruct (link_objs s !! a0) as [l0 |] eqn:El; [| by eapply IH].
  destruct (Force.resolve m (LinkDatum.source l0)) as [src |]; [| done].
  destruct (Force.resolve m (LinkDatum.target l0)) as [tgt |]; [| done].
  rewrite (IH _ _ _ a H).
  destruct (decide (a0 = a)) as [-> | Hne].
  - by rewrite update_link_eq, El.
  - by rewrite update_link_ne.
Qed.

(** What the effect draws: one node group for every node of the data
    set and one line for every link, in their order, with the colours
    of their statuses as strokes. *)
Lemma effect_strokes rev p v v' :
  guards_empty rev && Nat.eqb (length (nodes p)) 0 = false ->
  effect phyllotaxis rev p v = Ok v' ->
  g_stroke <$> groups v'
  = (fun n => getStatusColor (status (Node.dev n)))
      <$> arr_nodes (store v) (nodes p) /\
  line_stroke <$> lines v'
  = (fun l => linkStroke (LinkDatum.status l))
      <$> arr_links (store v) (links p).
Proof.
  intros Hg H.
  apply effect_Ok in H
    as [(Hge & Hn & _) | (_ & ns & ls & s2 & s4 & Ed & El & ->)].
  { rewrite Hge, Hn in Hg. done. }
  destruct (LinkFacts.own_data_arrays _ _ _ _ _ _ Ed) as [<- <-].
  set (s3 := Force.initializeNodes phyllotaxis 0 ns s2) in *.
  unfold arr_nodes, arr_links. simpl. split.
  - apply LinkFacts.fmap_omap_ext. intros a.
    rewrite (initializeLinks_nodes _ _ _ _ _ El).
    pose proof (initializeNodes_dev phyllotaxis ns 0 s2 a) as Hd. fold s3 in Hd.
    destruct (node_objs s3 !! a) as [n3 |], (node_objs s2 !! a) as [n2 |];
      try done.
    simpl in *. injection Hd as ->. done.
  - apply LinkFacts.fmap_omap_ext. intros a.
    pose proof (initializeLinks_data _ _ _ _ _ a El) as Hd.
    unfold s3 in Hd. rewrite initializeNodes_links in Hd.
    destruct (link_objs s4 !! a) as [l4 |], (link_objs s2 !! a) as [l2 |];
      try done.
    simpl in *. injection Hd as _ Hst _. by rewrite Hst.
Qed.

(** The tick listener moves the elements and leaves their strokes. *)
Lemma frame_strokes i v :
  g_stroke <$> groups (frame forces i v) = g_stroke <$> groups v /\
  line_stroke <$> lines (frame forces i v) = line_stroke <$> lines v.
Proof.
  unfold frame. destruct (sims v !! i) as [sim |]; [| done].
  destruct (Force.running sim); [| done].
  destruct (Force.tick forces sim (store v)) as [sim' s'].
  destruct (Force.on_tick sim'); [| done]. simpl.
  rewrite <- !list_fmap_compose. split; apply list_fmap_ext.
  - intros k g _. simpl. destruct (Nat.eqb _ _); [| done].
    unfold place_group. by destruct (node_objs s' !! g_datum g).
  - intros k ln _. simpl. destruct (Nat.eqb _ _); [| done].
    unfold place_line. by destruct (link_objs s' !! line_datum ln).
Qed.

Lemma handle_strokes rev v ev v' :
  keeps_data_set ev -> handle forces phyllotaxis rev v ev = Ok v' ->
  g_stroke <$> groups v' = g_stroke <$> groups v /\
  line_stroke <$> lines v' = line_stroke <$> lines v.
Proof.
  intros Hk H. unfold handle in H.
  destruct ev; simpl in H, Hk; try done; injection H as <-.
  - exact (frame_strokes i (set_noclick false v)).
  - destruct (FootprintFacts.mousedown_groups el e (set_noclick false v))
      as [-> _].
    by destruct (TickFacts.same_picture_mousedown el e (set_noclick false v))
      as [-> _].
  - destruct (FootprintFacts.mousemove_groups e (set_noclick false v))
      as [-> _].
    by destruct (TickFacts.same_picture_mousemove e (set_noclick false v))
      as [-> _].
  - destruct (FootprintFacts.mouseup_groups e (set_noclick false v))
      as [-> _].
    by destruct (TickFacts.same_picture_mouseup e (set_noclick false v))
      as [-> _].
  - destruct (FootprintFacts.click_groups el v) as [-> _].
    by destruct (TickFacts.same_picture_click el v) as [-> _].
  - destruct (FootprintFacts.zoom_by_groups rev
                (fun t => Zoom.wheeled scaleExtent t factor p)
                (set_noclick false v)) as [-> _].
    by destruct (TickFacts.same_picture_zoom_by rev
                   (fun t => Zoom.wheeled scaleExtent t factor p)
                   (set_noclick false v)) as [-> _].
  - destruct (FootprintFacts.zoom_by_groups rev
                (fun t => Zoom.dblclicked scaleExtent t shift p)
                (set_noclick false v)) as [-> _].
    by destruct (TickFacts.same_picture_zoom_by rev
                   (fun t => Zoom.dblclicked scaleExtent t shift p)
                   (set_noclick false v)) as [-> _].
  - destruct (FootprintFacts.zoom_by_groups rev
                (fun t => Zoom.panned t p0 p)
                (set_noclick false v)) as [-> _].
    by destruct (TickFacts.same_picture_zoom_by rev
                   (fun t => Zoom.panned t p0 p)
                   (set_noclick false v)) as [-> _].
  - destruct (FootprintFacts.zoom_by_groups rev
                (fun t => Zoom.pinched scaleExtent t ratio p l)
                (set_noclick false v)) as [-> _].
    by destruct (TickFacts.same_picture_zoom_by rev
                   (fun t => Zoom.pinched scaleExtent t ratio p l)
                   (set_noclick false v)) as [-> _].
Qed.

Lemma run_strokes rev evs : forall v v',
  Forall keeps_data_set evs -> run forces phyllotaxis rev v evs = Ok v' ->
  g_stroke <$> groups v' = g_stroke <$> groups v /\
  line_stroke <$> lines v' = line_stroke <$> lines v.
Proof.
  induction evs as [| ev evs IH]; intros v v' Hk H; simpl in H.
  - by injection H as <-.
  - inversion Hk as [| ? ? Hk1 Hk2]; subst.
    destruct (handle forces phyllotaxis rev v ev) as [v1 | msg] eqn:E;
      [| done].
    destruct (IH _ _ Hk2 H) as [-> ->].
    by eapply handle_strokes.
Qed.

(** C8. Status to colour: ONLINE is green, WARNING amber, OFFLINE red;
    a link is red exactly when its status is DOWN and has the neutral
    colour otherwise.  And this is what is drawn: when a data set is
    rendered (the effect gets past its guard and returns), then and for
    as long as this data set is on the page (through frames, drags,
    clicks and zooming) there is one node group for every node of the
    data set and one line for every link, in their order, and their
    strokes are these colours of the statuses of the nodes and of the
    links. *)
Theorem health_colours rev p v0 v evs v' :
  guards_empty rev && Nat.eqb (length (nodes p)) 0 = false ->
  render phyllotaxis rev p v0 = Ok v ->
  Forall keeps_data_set evs ->
  run forces phyllotaxis rev v evs = Ok v' ->
  getStatusColor DeviceStatus.ONLINE = "#10b981" /\
  getStatusColor DeviceStatus.WARNING = "#f59e0b" /\
  getStatusColor DeviceStatus.OFFLINE = "#ef4444" /\
  (forall st, linkStroke st = "#ef4444" <-> st = "DOWN") /\
  (forall st, st <> "DOWN" -> linkStroke st = "#475569") /\
  g_stroke <$> groups v'
  = (fun n => getStatusColor (status (Node.dev n)))
      <$> arr_nodes (store v0) (nodes p) /\
  line_stroke <$> lines v'
  = (fun l => linkStroke (LinkDatum.status l))
      <$> arr_links (store v0) (links p).
Proof.
  intros Hg Hr Hk H.
  split; [reflexivity |]. split; [reflexivity |]. split; [reflexivity |].
  split; [apply linkStroke_red |].
  split; [intros st Hst; unfold linkStroke; by case_bool_decide |].
  unfold render in Hr.
  destruct (effect_strokes rev p _ v Hg Hr) as [Hn Hl].
  rewrite FootprintFacts.run_cleanup_store in Hn, Hl.
  destruct (run_strokes rev evs v v' Hk H) as [-> ->]. by split.
Qed.

End WithPhysics.

(** C8 on the sample, rendered by the last revision and played with:
    the group of the online device "a" is green, that of the offline
    device "b" is red, and so is the line of the link between them,
    which is down. *)
Lemma health_colours_witness :
  guards_empty rev3 && Nat.eqb (length (nodes Sample.good)) 0 = false /\
  render Sample.row rev3 Sample.good (initial Sample.caller)
    = Ok Sample.rendered /\
  Forall keeps_data_set (Frame 0 :: Sample.play) /\
  run Sample.still Sample.row rev3 Sample.rendered (Frame 0 :: Sample.play)
    = Ok Sample.played /\
  (getStatusColor DeviceStatus.ONLINE = "#10b981" /\
   getStatusColor DeviceStatus.WARNING = "#f59e0b" /\
   getStatusColor DeviceStatus.OFFLINE = "#ef4444" /\
   (forall st, linkStroke st = "#ef4444" <-> st = "DOWN") /\
   (forall st, st <> "DOWN" -> linkStroke st = "#475569") /\
   g_stroke <$> groups Sample.played
   = (fun n => getStatusColor (status (Node.dev n)))
       <$> arr_nodes (store (initial Sample.caller)) (nodes Sample.good) /\
   line_stroke <$> lines Sample.played
   = (fun l => linkStroke (LinkDatum.status l))
       <$> arr_links (store (initial Sample.caller)) (links Sample.good)) /\
  g_stroke <$> groups Sample.played = ["#10b981"; "#ef4444"] /\
  line_stroke <$> lines Sample.played = ["#ef4444"].
Proof.
  assert (H1 : render Sample.row rev3 Sample.good (initial Sample.caller)
               = Ok Sample.rendered) by (vm_compute; reflexivity).
  assert (H2 : Forall keeps_data_set (Frame 0 :: Sample.play)).
  { repeat constructor. }
  assert (H3 : run Sample.still Sample.row rev3 Sample.rendered
                   (Frame 0 :: Sample.play) = Ok Sample.played)
    by (vm_compute; reflexivity).
  split; [reflexivity |]. split; [exact H1 |]. split; [exact H2 |].
  split; [exact H3 |]. split; [| split; reflexivity].
  exact (health_colours Sample.still Sample.row rev3 Sample.good
           (initial Sample.caller) Sample.rendered (Frame 0 :: Sample.play)
           Sample.played eq_refl H1 H2 H3).
Defined.

End ColourFacts.

(* ===================================================================== *)
(** * Theorems: the details panel *)
(* ===================================================================== *)

Module PanelFacts.
Import Spec NodeDetailsPanel Generated.

Lemma is_id_true e i : is_id e i = true <-> e = EId i.
Proof.
  destruct e as [s | a]; simpl; [| done].
  rewrite bool_decide_eq_true. split; congruence.
Qed.

Lemma connected_iff device l :
  connected device l = true <->
  LinkDatum.source l = EId (id device) \/ LinkDatum.target l = EId (id device).
Proof.
  unfold connected. rewrite orb_true_iff, !is_id_true. done.
Qed.

(** What a row shows as the neighbour: the other end of its link. *)
Lemma row_neighbour device l :
  connected device l = true ->
  (LinkDatum.source l = EId (id device) /\
   neighborId (row device l) = LinkDatum.target l) \/
  (LinkDatum.source l <> EId (id device) /\
   LinkDatum.target l = EId (id device) /\
   neighborId (row device l) = LinkDatum.source l).
Proof.
  intros H. apply connected_iff in H. unfold row. simpl.
  destruct (is_id (LinkDatum.source l) (id device)) eqn:E.
  - apply is_id_true in E. by left.
  - right. assert (Hne : LinkDatum.source l <> EId (id device)).
    { intros Heq. apply is_id_true in Heq. congruence. }
    destruct H as [H | H]; done.
Qed.

(** X12.  In a generated topology of two devices or more, the panel of every
    device has a row: no device is shown without connections. *)
Theorem generated_devices_have_neighbours rnd configs k :
  random_ok rnd -> (2 <= length configs)%nat ->
  exists t k',
    MockData.generateTopologyFromConfig rnd configs k = (Ok t, k') /\
    forall d, d ∈ nodes t ->
      exists rows,
        panel (Some d) (LinkDatum.of_link <$> links t) = Some rows /\
        rows <> [].
Proof.
  intros Hr Hn.
  destruct (GeneratorFacts.generated_shape rnd configs k Hr)
    as (t & k' & E & Hc & _ & Hl).
  exists t, k'. split; [exact E |]. intros d Hd.
  eexists. split; [reflexivity |].
  assert (Hlen : length (nodes t) = length configs)
    by (by rewrite <- Hc, length_fmap).
  destruct Hl as [[Hlt _] | (_ & news & Hlinks & F)]; [lia |].
  apply list_elem_of_lookup_1 in Hd as [i Hi].
  destruct (GeneratorFacts.rounds_ring (nodes t) _ news i F)
    as (l & Hin & s & u & Hs & _ & Hsrc & _).
  { apply elem_of_seq. apply lookup_lt_Some in Hi. lia. }
  assert (s = d) as -> by congruence.
  assert (Hcon : LinkDatum.of_link l
                 ∈ connections (LinkDatum.of_link <$> links t) d).
  { apply list_elem_of_filter. split.
    - apply connected_iff. left. simpl. by rewrite Hsrc.
    - apply list_elem_of_fmap_2. by rewrite Hlinks. }
  intros Hnil. apply fmap_nil_inv in Hnil. rewrite Hnil in Hcon.
  by apply elem_of_nil in Hcon.
Qed.

(** X12 on the sample. *)
Lemma generated_devices_have_neighbours_witness :
  random_ok Sample.three_quarters /\
  (2 <= length DEFAULT_DEVICES)%nat /\
  exists t k',
    MockData.generateTopologyFromConfig Sample.three_quarters
      DEFAULT_DEVICES 0%nat = (Ok t, k') /\
    forall d, d ∈ nodes t ->
      exists rows,
        panel (Some d) (LinkDatum.of_link <$> links t) = Some rows /\
        rows <> [].
Proof.
  assert (H : random_ok Sample.three_quarters).
  { intros k. split; [| split; vm_compute; congruence].
    exists 3%Z, (-2)%Z. split; [reflexivity |]. split; [lia | reflexivity]. }
  assert (H2 : (2 <= length DEFAULT_DEVICES)%nat) by (simpl; lia).
  split; [exact H |]. split; [exact H2 |].
  exact (generated_devices_have_neighbours Sample.three_quarters
           DEFAULT_DEVICES 0%nat H H2).
Defined.

End PanelFacts.

Module ClickFacts.
Import TopologyGraph Spec Footprint NodeDetailsPanel.

Lemma arr_links_untouched s0 s ls :
  untouched s0 s ->
  Forall (fun a => (a < length (link_objs s0))%nat) ls ->
  arr_links s ls = arr_links s0 ls.
Proof.
  intros [_ Hu] Hls. unfold arr_links.
  induction Hls as [| a ls Ha _ IH]; [reflexivity |].
  destruct (lookup_lt_is_Some_2 _ _ Ha) as [l Hl].
  simpl. rewrite (Hu a l Hl), Hl. f_equal. exact IH.
Qed.

Section WithPhysics.

Variable forces : Force.Config -> Q -> list Force.Kin -> list (nat * nat)
  -> list Force.Kin.
Variable phyllotaxis : nat -> Q * Q.

(** X11.  The panel after a click, in the revisions that copy their props:
    the device shown is one of the caller's, and whatever the graph has
    gone through, the rows are those of the caller's links that have
    the id of this device at one end, each showing the other end. *)
Theorem panel_lists_caller_links rev s0 evs v ls n :
  copies_props rev = true ->
  run forces phyllotaxis rev (initial s0) evs = Ok v ->
  Forall (fun a => (a < length (link_objs s0))%nat) ls ->
  selectedDevice v = Some n ->
  (exists a0 n0, node_objs s0 !! a0 = Some n0 /\ Node.dev n0 = Node.dev n) /\
  panel (Some (Node.dev n)) (arr_links (store v) ls)
  = Some (row (Node.dev n) <$> connections (arr_links s0 ls) (Node.dev n)) /\
  (forall l, l ∈ connections (arr_links s0 ls) (Node.dev n) <->
     l ∈ arr_links s0 ls /\
     (LinkDatum.source l = EId (id (Node.dev n)) \/
      LinkDatum.target l = EId (id (Node.dev n)))) /\
  (forall l, l ∈ connections (arr_links s0 ls) (Node.dev n) ->
     (LinkDatum.source l = EId (id (Node.dev n)) /\
      neighborId (row (Node.dev n) l) = LinkDatum.target l) \/
     (LinkDatum.source l <> EId (id (Node.dev n)) /\
      LinkDatum.target l = EId (id (Node.dev n)) /\
      neighborId (row (Node.dev n) l) = LinkDatum.source l)).
Proof.
  intros Hc H Hls Hsel.
  assert (Hp : private s0 v).
  { eapply CallerFacts.run_private; [exact Hc | exact H |].
    apply CallerFacts.initial_private. }
  assert (Hfrom : from_caller s0 (store v)).
  { eapply FootprintFacts.writes_from_caller; [eapply FootprintFacts.run_writes, H |].
    intros a n' Hn. by exists a, n'. }
  split; [| split; [| split]].
  - unfold selectedDevice in Hsel.
    destruct (last (selected v)) as [a |]; [| done]. simpl in Hsel.
    exact (Hfrom a n Hsel).
  - simpl. by rewrite (arr_links_untouched s0 (store v) ls (proj1 Hp) Hls).
  - intros l. unfold connections. rewrite list_elem_of_filter, PanelFacts.connected_iff.
    tauto.
  - intros l Hl. apply list_elem_of_filter in Hl as [Hl _].
    by apply PanelFacts.row_neighbour.
Qed.

End WithPhysics.

(** X11 on the sample. *)
Lemma panel_lists_caller_links_witness :
  copies_props rev3 = true /\
  run Sample.still Sample.row rev3 (initial Sample.caller)
      Sample.mounted_and_played = Ok Sample.played /\
  Forall (fun a => (a < length (link_objs Sample.caller))%nat) [0; 1]%nat /\
  selectedDevice Sample.played = Some Cases.clicked /\
  (exists a0 n0, node_objs Sample.caller !! a0 = Some n0 /\
                 Node.dev n0 = Node.dev Cases.clicked) /\
  panel (Some (Node.dev Cases.clicked))
        (arr_links (store Sample.played) [0; 1]%nat)
  = Some (row (Node.dev Cases.clicked)
            <$> connections (arr_links Sample.caller [0; 1]%nat)
                            (Node.dev Cases.clicked)) /\
  (forall l, l ∈ connections (arr_links Sample.caller [0; 1]%nat)
                             (Node.dev Cases.clicked) <->
     l ∈ arr_links Sample.caller [0; 1]%nat /\
     (LinkDatum.source l = EId (id (Node.dev Cases.clicked)) \/
      LinkDatum.target l = EId (id (Node.dev Cases.clicked)))) /\
  (forall l, l ∈ connections (arr_links Sample.caller [0; 1]%nat)
                             (Node.dev Cases.clicked) ->
     (LinkDatum.source l = EId (id (Node.dev Cases.clicked)) /\
      neighborId (row (Node.dev Cases.clicked) l) = LinkDatum.target l) \/
     (LinkDatum.source l <> EId (id (Node.dev Cases.clicked)) /\
      LinkDatum.target l = EId (id (Node.dev Cases.clicked)) /\
      neighborId (row (Node.dev Cases.clicked) l) = LinkDatum.source l)).
Proof.
  assert (H : run Sample.still Sample.row rev3 (initial Sample.caller)
                  Sample.mounted_and_played = Ok Sample.played)
    by (vm_compute; reflexivity).
  assert (H2 : Forall (fun a => (a < length (link_objs Sample.caller))%nat)
                      [0; 1]%nat).
  { repeat constructor. }
  assert (H3 : selectedDevice Sample.played = Some Cases.clicked)
    by (vm_compute; reflexivity).
  split; [reflexivity |]. split; [exact H |]. split; [exact H2 |].
  split; [exact H3 |].
  exact (panel_lists_caller_links Sample.still Sample.row rev3 Sample.caller
           Sample.mounted_and_played Sample.played [0; 1]%nat Cases.clicked
           eq_refl H H2 H3).
Defined.

End ClickFacts.

(* ===================================================================== *)
(** * Theorems: the zoom level *)
(* ===================================================================== *)

Module ControlFacts.
Import TopologyGraph Spec.

Local Open Scope Q_scope.

Section WithPhysics.

Variable forces : Force.Config -> Q -> list Force.Kin -> list (nat * nat)
  -> list Force.Kin.
Variable phyllotaxis : nat -> Q * Q.

(** What a step leaves of the transform and of the zoom level: both as
    they were, both as at the mount, or what the "zoom" listener made
    of a new transform. *)
Lemma handle_zoom rev v ev v' :
  handle forces phyllotaxis rev v ev = Ok v' ->
  (zoom v' = zoom v /\ zoomLevel v' = zoomLevel v) \/
  (zoom v' = Zoom.identity /\ zoomLevel v' = 1) \/
  (exists t, v' = zoomed rev t (expire_noclick ev v)).
Proof.
  intros H. unfold handle in H.
  destruct ev; simpl in H; try injection H as <-.
  - left. unfold render, effect in H.
    assert (E : zoom (run_cleanup (set_noclick false v)) = zoom v /\
                zoomLevel (run_cleanup (set_noclick false v)) = zoomLevel v).
    { unfold run_cleanup. by destruct (cleanup _). }
    destruct E as [E1 E2].
    destruct (guards_empty rev && Nat.eqb (length (nodes p)) 0).
    { injection H as <-. done. }
    destruct (own_data rev p _) as [[ns ls] s2].
    destruct (Force.forceSimulation phyllotaxis ns s2) as [sim s3].
    destruct (Force.withForces _ ls sim s3) as [[sim' s4] | msg]; [| done].
    injection H as <-. done.
  - right; left. done.
  - left. unfold frame.
    destruct (sims _ !! i) as [sim |]; [| done].
    destruct (Force.running sim); [| done].
    destruct (Force.tick forces sim _) as [sim' s'].
    by destruct (Force.on_tick sim').
  - left. unfold mousedown, dragstarted.
    destruct (groups _ !! el); [| done].
    destruct (drags _ !! _); [| done].
    destruct (node_objs _ !! _); [| done]. simpl.
    by destruct (Nat.eqb _ _).
  - left. unfold mousemove.
    destruct (window_drag _); [| done].
    by destruct (_ ≫= _) as [[b g] |].
  - left. unfold mouseup, dragended.
    destruct (window_drag _); [| done].
    destruct (_ ≫= _) as [[b g] |]; [| done]. simpl.
    by destruct (Nat.eqb _ _).
  - left. unfold click. destruct (noclick v); [done |].
    destruct (groups v !! el) as [g |]; [| done].
    by destruct (g_click g) as [[] |].
  - unfold zoom_by. destruct (zoomable _); [right; right; eauto | by left].
  - unfold zoom_by. destruct (zoomable _); [right; right; eauto | by left].
  - unfold zoom_by. destruct (zoomable _); [right; right; eauto | by left].
  - unfold zoom_by. destruct (zoomable _); [right; right; eauto | by left].
Qed.

Lemma run_zoom_level rev evs : forall v v',
  tracks_zoom rev = true ->
  run forces phyllotaxis rev v evs = Ok v' ->
  zoomLevel v = Zoom.k (zoom v) -> zoomLevel v' = Zoom.k (zoom v').
Proof.
  induction evs as [| ev evs IH]; intros v v' Ht H Hv; simpl in H.
  - by injection H as <-.
  - destruct (handle forces phyllotaxis rev v ev) as [v1 | msg] eqn:E;
      [| done].
    apply (IH v1 v' Ht H).
    destruct (handle_zoom rev v ev v1 E) as [[-> ->] | [[-> ->] | [t ->]]];
      [exact Hv | reflexivity |].
    unfold zoomed. by rewrite Ht.
Qed.

(** X13.  In the revisions with [setZoomLevel], the zoom level the component
    keeps is the scale of the transform on the svg, at any moment. *)
Theorem zoom_level_is_scale rev s0 evs v :
  tracks_zoom rev = true ->
  run forces phyllotaxis rev (initial s0) evs = Ok v ->
  zoomLevel v = Zoom.k (zoom v).
Proof.
  intros Ht H. by apply (run_zoom_level rev evs _ _ Ht H).
Qed.

Lemma Math_round_range (q : Q) (lo hi : Z) :
  inject_Z lo <= q -> q <= inject_Z hi ->
  (lo <= Math_round q <= hi)%Z.
Proof.
  intros Hlo Hhi. unfold Math_round. split.
  - rewrite <- (Qfloor_Z lo). apply Qfloor_resp_le.
    apply Qle_trans with q; [exact Hlo |].
    rewrite <- (Qplus_0_r q) at 1. by apply Qplus_le_r.
  - apply Z.lt_succ_r. rewrite Zlt_Qlt.
    eapply Qle_lt_trans; [apply Qfloor_le |].
    apply Qle_lt_trans with (inject_Z hi + (1 # 2)).
    + by apply Qplus_le_l.
    + replace (Z.succ hi) with (hi + 1)%Z by lia.
      rewrite inject_Z_plus. by apply Qplus_lt_r.
Qed.

(** X14.  The percentage next to the refresh button is between 10 and 400,
    whatever the component has been put through. *)
Theorem zoom_percent_range rev s0 evs v :
  run forces phyllotaxis rev (initial s0) evs = Ok v ->
  (10 <= Controls.zoomPercent v <= 400)%Z.
Proof.
  intros H.
  destruct (ZoomFacts.run_zoom_ok forces phyllotaxis rev evs _ _ H
              ZoomFacts.identity_ok) as [_ [Hlo Hhi]].
  apply Math_round_range.
  - apply Qle_trans with ((1 # 10) * 100); [by vm_compute |].
    apply Qmult_le_compat_r; [exact Hlo | done].
  - apply Qle_trans with (4 * 100); [| by vm_compute].
    apply Qmult_le_compat_r; [exact Hhi | done].
Qed.

End WithPhysics.

(** X13 on the sample. *)
Lemma zoom_level_is_scale_witness :
  tracks_zoom rev2 = true /\
  run Sample.still Sample.row rev2 (initial Sample.caller) Sample.zooming
  = Ok Cases.zoomed_second /\
  zoomLevel Cases.zoomed_second = Zoom.k (zoom Cases.zoomed_second).
Proof.
  assert (H : run Sample.still Sample.row rev2 (initial Sample.caller)
                  Sample.zooming = Ok Cases.zoomed_second)
    by (vm_compute; reflexivity).
  split; [reflexivity |]. split; [exact H |].
  exact (zoom_level_is_scale Sample.still Sample.row rev2 Sample.caller
           Sample.zooming Cases.zoomed_second eq_refl H).
Defined.

(** X14 on the sample. *)
Lemma zoom_percent_range_witness :
  run Sample.still Sample.row rev1 (initial Sample.caller) Sample.zooming
  = Ok Cases.zoomed_first /\
  (10 <= Controls.zoomPercent Cases.zoomed_first <= 400)%Z.
Proof.
  assert (H : run Sample.still Sample.row rev1 (initial Sample.caller)
                  Sample.zooming = Ok Cases.zoomed_first)
    by (vm_compute; reflexivity).
  split; [exact H |].
  exact (zoom_percent_range Sample.still Sample.row rev1 Sample.caller
           Sample.zooming Cases.zoomed_first H).
Defined.

End ControlFacts.

(* ===================================================================== *)
(** * Theorems: the life of a simulation *)
(* ===================================================================== *)

Module CoolingFacts.
Import TopologyGraph StoreFacts Spec Cooling.

Local Open Scope Q_scope.

Section WithPhysics.

Variable forces : Force.Config -> Q -> list Force.Kin -> list (nat * nat)
  -> list Force.Kin.
Variable phyllotaxis : nat -> Q * Q.

(** ** What a frame does to the simulations *)

Lemma frame_sims_other i j v :
  j <> i -> sims (frame forces i v) !! j = sims v !! j.
Proof.
  intros Hne. unfold frame.
  destruct (sims v !! i) as [sim |]; [| done].
  destruct (Force.running sim); [| done].
  destruct (Force.tick forces sim (store v)) as [sim' s'].
  destruct (Force.on_tick sim'); simpl;
    rewrite ?list_lookup_alter_ne by done; done.
Qed.

Lemma frame_stopped i v sim :
  sims v !! i = Some sim -> Force.running sim = false ->
  frame forces i v = v.
Proof. intros Hs Hr. unfold frame. by rewrite Hs, Hr. Qed.

Lemma frame_running i v sim :
  sims v !! i = Some sim -> Force.running sim = true ->
  exists sim',
    sims (frame forces i v) !! i = Some (Force.settle sim') /\
    Force.alpha sim'
    = Force.alpha sim
      + (Force.alphaTarget sim - Force.alpha sim) * Force.alphaDecay /\
    Force.alphaTarget sim' = Force.alphaTarget sim /\
    Force.running sim' = true /\
    (Force.ticks sim' <= S (Force.ticks sim))%nat.
Proof.
  intros Hs Hr. unfold frame. rewrite Hs, Hr.
  unfold Force.tick.
  set (sim1 := Force.set_alpha _ sim).
  set (s' := Force.integrateAll _ _ _).
  destruct (Force.on_tick sim1).
  - exists (Force.count_tick sim1). simpl.
    rewrite !list_lookup_alter_eq, Hs. simpl.
    repeat split; first [done | simpl; lia].
  - exists sim1. simpl. rewrite !list_lookup_alter_eq, Hs. simpl.
    repeat split; first [done | simpl; lia].
Qed.

Lemma settle_fields sim :
  Force.alpha (Force.settle sim) = Force.alpha sim /\
  Force.alphaTarget (Force.settle sim) = Force.alphaTarget sim /\
  Force.ticks (Force.settle sim) = Force.ticks sim.
Proof. unfold Force.settle. by destruct (Qlt_le_dec _ _). Qed.

Lemma settle_running sim :
  Force.running sim = true ->
  (Force.running (Force.settle sim) = true /\
   Force.alphaMin <= Force.alpha sim) \/
  (Force.running (Force.settle sim) = false /\
   Force.alpha sim < Force.alphaMin).
Proof.
  intros Hr. unfold Force.settle.
  destruct (Qlt_le_dec _ _) as [Hlt | Hle]; [by right | by left].
Qed.

(** ** While a node is held *)

Lemma frame_hot i j v : hot i v -> hot i (frame forces j v).
Proof.
  intros (sim & Hs & Hr & Ht & Ha).
  destruct (decide (i = j)) as [<- | Hne].
  2:{ exists sim. by rewrite frame_sims_other. }
  destruct (frame_running i v sim Hs Hr) as (sim' & Hs' & Ha' & Ht' & Hr' & _).
  exists (Force.settle sim'). split; [exact Hs' |].
  destruct (settle_fields sim') as (Ea & Et & _).
  rewrite Ea, Et, Ht', Ha', Ht.
  assert (Hge : 0 <= Force.alpha sim
                     + ((3 # 10) - Force.alpha sim) * Force.alphaDecay /\
                Force.alphaMin
                <= Force.alpha sim
                   + ((3 # 10) - Force.alpha sim) * Force.alphaDecay).
  { unfold Force.alphaDecay, Force.alphaMin. split; lra. }
  destruct Hge as [H0 Hmin].
  destruct (settle_running sim' Hr') as [[Hrun _] | [_ Hlt]].
  - done.
  - rewrite Ha', Ht in Hlt. lra.
Qed.

Lemma handle_hot rev i v ev v' :
  holding ev -> handle forces phyllotaxis rev v ev = Ok v' ->
  hot i v -> hot i v'.
Proof.
  intros Hh H Hv. unfold handle in H.
  destruct ev; simpl in H, Hh; try done; injection H as <-.
  - by apply frame_hot.
  - unfold mousemove. simpl.
    destruct (window_drag v); [| done].
    by destruct (_ ≫= _) as [[b g] |].
  - unfold click. destruct (noclick v); [done |].
    destruct (groups v !! el) as [g |]; [| done].
    by destruct (g_click g) as [[] |].
  - unfold zoom_by, zoomed. simpl. destruct (zoomable v); [| done].
    by destruct (tracks_zoom rev).
  - unfold zoom_by, zoomed. simpl. destruct (zoomable v); [| done].
    by destruct (tracks_zoom rev).
  - unfold zoom_by, zoomed. simpl. destruct (zoomable v); [| done].
    by destruct (tracks_zoom rev).
  - unfold zoom_by, zoomed. simpl. destruct (zoomable v); [| done].
    by destruct (tracks_zoom rev).
Qed.

Lemma run_hot rev i evs : forall v v',
  Forall holding evs -> run forces phyllotaxis rev v evs = Ok v' ->
  hot i v -> hot i v'.
Proof.
  induction evs as [| ev evs IH]; intros v v' Hh H Hv; simpl in H.
  - by injection H as <-.
  - inversion Hh as [| ? ? Hh1 Hh2]; subst.
    destruct (handle forces phyllotaxis rev v ev) as [v1 | msg] eqn:E;
      [| done].
    eapply IH; [exact Hh2 | exact H |]. by eapply handle_hot.
Qed.

(** X15.  While the mouse button is held down on a node (no other gesture
    being under way), the simulation of that node runs and never comes
    to rest, however many frames pass: its target is 0.3, above the
    threshold at which the timer would stop. *)
Theorem held_node_keeps_simulation_running rev v el g b n sim e0 evs v' :
  groups v !! el = Some g -> drags v !! g_sim g = Some b ->
  Drag.active b = 0%nat ->
  node_objs (store v) !! g_datum g = Some n ->
  sims v !! g_sim g = Some sim -> 0 <= Force.alpha sim ->
  Forall holding evs ->
  run forces phyllotaxis rev v (MouseDown el e0 :: evs) = Ok v' ->
  exists sim',
    sims v' !! g_sim g = Some sim' /\ Force.running sim' = true /\
    Force.alphaTarget sim' = 3 # 10.
Proof.
  intros Hg Hb Hact Hn Hs Ha Hh H. simpl in H.
  assert (Hhot : hot (g_sim g) (mousedown el e0 (set_noclick false v))).
  { rewrite (DragFacts.mousedown_unfold el e0 (set_noclick false v) g b n)
      by done.
    rewrite Hact. exists (Force.restart (Force.set_alphaTarget (3 # 10) sim)).
    rewrite DragFacts.dragstarted_sims by done. simpl.
    rewrite list_lookup_alter_eq, Hs. done. }
  destruct (run_hot rev (g_sim g) evs _ v' Hh H Hhot)
    as (sim' & Hs' & Hr' & Ht' & _).
  by exists sim'.
Qed.

(** ** Cooling down *)

(** The decay rate is the double that prints as 0.02276277904418933. *)
Lemma alphaDecay_double :
  Number.is_double Force.alphaDecay /\
  Number.lit (2276277904418933 # 100000000000000000) == Force.alphaDecay.
Proof.
  split; [| by vm_compute].
  exists 6407152701333%Z, (-48)%Z.
  split; [reflexivity |]. split; [lia | by vm_compute].
Qed.

(** After 299 firings alpha is 0.00102, after 301 it is 0.00098; after
    300 it is within 1e-14 of [alphaMin]. *)
Lemma pow_cooling_301 :
  Force.alphaMin < pow cooling 299 /\ pow cooling 301 < Force.alphaMin.
Proof. split; by vm_compute. Qed.

Lemma cooling_pos : 0 <= cooling.
Proof. by vm_compute. Qed.

Lemma frame_cooled i n k v :
  cooled i n k v -> cooled i n (S k) (frame forces i v).
Proof.
  intros (sim & Hs & Ht & Hn & Hc).
  destruct (Force.running sim) eqn:Hr.
  2:{ rewrite (frame_stopped i v sim Hs Hr). exists sim.
      split; [done |]. split; [done |]. split; [lia | by left]. }
  destruct Hc as [Hc | [Ha _]]; [congruence |].
  destruct (frame_running i v sim Hs Hr) as (sim' & Hs' & Ha' & Ht' & Hr' & Hn').
  exists (Force.settle sim'). split; [exact Hs' |].
  destruct (settle_fields sim') as (Ea & Et & En).
  rewrite Ea, Et, En, Ht', Ha', Ht.
  split; [done |]. split; [lia |].
  destruct (settle_running sim' Hr') as [[Hrun Hmin] | [Hstop _]];
    [right | by left].
  rewrite Ha', Ht in Hmin. split; [| intros _; exact Hmin].
  simpl. unfold cooling, Force.alphaDecay in *. lra.
Qed.

Lemma frames_cooled rev i n m : forall k v,
  cooled i n k v ->
  exists v', run forces phyllotaxis rev v (replicate m (Frame i)) = Ok v' /\
             cooled i n (m + k) v'.
Proof.
  induction m as [| m IH]; intros k v Hc; simpl.
  - by exists v.
  - assert (Hc' : cooled i n k (set_noclick false v)) by exact Hc.
    apply frame_cooled in Hc'.
    destruct (IH (S k) _ Hc') as (v' & Hrun & Hc'').
    exists v'. split; [exact Hrun |].
    by replace (S (m + k)) with (m + S k)%nat by lia.
Qed.

Lemma pow_cooling_le k : 0 <= pow cooling k /\ pow cooling (S k) <= pow cooling k.
Proof.
  induction k as [| k [IH0 IH1]]; [by vm_compute |].
  assert (Hc : 0 <= cooling /\ cooling <= 1) by (by vm_compute).
  destruct Hc as [Hc0 Hc1].
  change (pow cooling (S (S k))) with (cooling * pow cooling (S k)).
  assert (H0 : 0 <= pow cooling (S k)).
  { change (pow cooling (S k)) with (cooling * pow cooling k).
    by apply Qmult_le_0_compat. }
  split; [exact H0 |].
  rewrite <- (Qmult_1_l (pow cooling (S k))) at 2.
  by apply Qmult_le_compat_r.
Qed.

Lemma pow_cooling_mono k n : (k <= n)%nat -> pow cooling n <= pow cooling k.
Proof.
  induction 1 as [| n _ IH]; [apply Qle_refl |].
  eapply Qle_trans; [apply pow_cooling_le | exact IH].
Qed.

(** X16.  A simulation whose target is zero comes to rest: once its timer
    has fired 301 times or more, it is stopped, and the tick listener
    has been called no more often than the timer fired.  (d3 sets the
    decay rate for 300 iterations; after the 300th firing alpha is
    within 1e-14 of [alphaMin], too close for a bound that should not
    depend on how the arithmetic is rounded, so the bound takes one
    firing more.) *)
Theorem simulation_comes_to_rest rev v i sim n :
  sims v !! i = Some sim -> Force.alphaTarget sim = 0 ->
  Force.alpha sim <= 1 -> (301 <= n)%nat ->
  exists v' sim',
    run forces phyllotaxis rev v (replicate n (Frame i)) = Ok v' /\
    sims v' !! i = Some sim' /\ Force.running sim' = false /\
    (Force.ticks sim' <= Force.ticks sim + n)%nat.
Proof.
  intros Hs Ht Ha Hn.
  assert (Hc : cooled i (Force.ticks sim) 0 v).
  { exists sim. split; [done |]. split; [done |]. split; [lia |].
    right. split; [exact Ha | lia]. }
  destruct (frames_cooled rev i (Force.ticks sim) n 0 v Hc)
    as (v' & Hrun & sim' & Hs' & _ & Hn' & Hc').
  exists v', sim'. split; [exact Hrun |]. split; [exact Hs' |].
  split; [| lia].
  destruct Hc' as [Hstop | [Hle Hmin]]; [exact Hstop |].
  exfalso. destruct pow_cooling_301 as [_ Hp].
  assert (Hm : Force.alphaMin <= Force.alpha sim') by (apply Hmin; lia).
  pose proof (pow_cooling_mono 301 (n + 0)) as Hmono.
  assert (Hle' : pow cooling (n + 0) <= pow cooling 301)
    by (apply Hmono; lia).
  lra.
Qed.

End WithPhysics.

(** X15 on the sample. *)
Lemma held_node_keeps_simulation_running_witness :
  groups Sample.rendered !! 0%nat = Some Sample.rendered_group /\
  drags Sample.rendered !! g_sim Sample.rendered_group = Some Drag.init /\
  Drag.active Drag.init = 0%nat /\
  node_objs (store Sample.rendered) !! g_datum Sample.rendered_group
  = Some Sample.rendered_node /\
  sims Sample.rendered !! g_sim Sample.rendered_group
  = Some Sample.rendered_sim /\
  0 <= Force.alpha Sample.rendered_sim /\
  Forall holding Cases.holding_on /\
  run Sample.still Sample.row rev3 Sample.rendered
      (MouseDown 0 (Sample.at_point 5 5) :: Cases.holding_on)
  = Ok Cases.held /\
  exists sim',
    sims Cases.held !! g_sim Sample.rendered_group = Some sim' /\
    Force.running sim' = true /\ Force.alphaTarget sim' = 3 # 10.
Proof.
  assert (H : run Sample.still Sample.row rev3 Sample.rendered
                  (MouseDown 0 (Sample.at_point 5 5) :: Cases.holding_on)
              = Ok Cases.held) by (vm_compute; reflexivity).
  assert (Ha : 0 <= Force.alpha Sample.rendered_sim) by (by vm_compute).
  assert (Hh : Forall holding Cases.holding_on) by (repeat constructor).
  split; [reflexivity |]. split; [reflexivity |]. split; [reflexivity |].
  split; [reflexivity |]. split; [reflexivity |]. split; [exact Ha |].
  split; [exact Hh |]. split; [exact H |].
  exact (held_node_keeps_simulation_running Sample.still Sample.row rev3
           Sample.rendered 0%nat Sample.rendered_group Drag.init
           Sample.rendered_node Sample.rendered_sim (Sample.at_point 5 5)
           Cases.holding_on Cases.held
           eq_refl eq_refl eq_refl eq_refl eq_refl Ha Hh H).
Defined.

(** X16 on the sample: 301 firings after it was rendered. *)
Lemma simulation_comes_to_rest_witness :
  sims Sample.rendered !! 0%nat = Some Sample.rendered_sim /\
  Force.alphaTarget Sample.rendered_sim = 0 /\
  Force.alpha Sample.rendered_sim <= 1 /\
  (301 <= 301)%nat /\
  exists v' sim',
    run Sample.still Sample.row rev3 Sample.rendered
        (replicate 301 (Frame 0)) = Ok v' /\
    sims v' !! 0%nat = Some sim' /\ Force.running sim' = false /\
    (Force.ticks sim' <= Force.ticks Sample.rendered_sim + 301)%nat.
Proof.
  assert (Ha : Force.alpha Sample.rendered_sim <= 1) by (by vm_compute).
  assert (Hn : (301 <= 301)%nat) by lia.
  split; [reflexivity |]. split; [reflexivity |]. split; [exact Ha |].
  split; [exact Hn |].
  exact (simulation_comes_to_rest Sample.still Sample.row rev3
           Sample.rendered 0%nat Sample.rendered_sim 301%nat
           eq_refl eq_refl Ha Hn).
Defined.

End CoolingFacts.

(* ===================================================================== *)
(** * Theorems: devices that share an id *)
(* ===================================================================== *)

Module DuplicateFacts.
Import TopologyGraph StoreFacts Spec.

Lemma find_snoc m k b i :
  Force.find (m ++ [(k, b)]) i
  = if decide (k = i) then Ok b else Force.find m i.
Proof.
  unfold Force.find. rewrite reverse_snoc. simpl.
  destruct (decide (k = i)) as [-> | Hne]; [done |].
  destruct (list_find _ (reverse m)) as [[j [k' b']] |]; done.
Qed.

Lemma nodeById_snoc ns a s :
  Force.nodeById (ns ++ [a]) s
  = Force.nodeById ns s
    ++ match node_objs s !! a with
       | Some n => [(id (Node.dev n), a)]
       | None => []
       end.
Proof.
  unfold Force.nodeById. rewrite omap_app. simpl.
  by destruct (node_objs s !! a).
Qed.

(** X17.  The link force resolves an id to the last node object of the array
    that has it: when two devices share an id, every link end that
    names it is attached to the later one. *)
Theorem duplicate_ids_resolve_to_last ns s i a :
  Force.find (Force.nodeById ns s) i = Ok a ->
  exists k n,
    ns !! k = Some a /\ node_objs s !! a = Some n /\ id (Node.dev n) = i /\
    forall k' a' n',
      (k < k')%nat -> ns !! k' = Some a' -> node_objs s !! a' = Some n' ->
      id (Node.dev n') <> i.
Proof.
  revert a. induction ns as [| a0 ns IH] using rev_ind; intros a H.
  - done.
  - rewrite nodeById_snoc in H.
    assert (Hold : Force.find (Force.nodeById ns s) i = Ok a ->
                   (forall n0, node_objs s !! a0 = Some n0 ->
                               id (Node.dev n0) <> i) ->
                   exists k n,
                     (ns ++ [a0]) !! k = Some a /\
                     node_objs s !! a = Some n /\ id (Node.dev n) = i /\
                     forall k' a' n',
                       (k < k')%nat -> (ns ++ [a0]) !! k' = Some a' ->
                       node_objs s !! a' = Some n' -> id (Node.dev n') <> i).
    { intros Hf Hlast. destruct (IH a Hf) as (k & n & Hk & Hn & Hi & Hlater).
      exists k, n. split; [by apply lookup_app_l_Some |].
      split; [exact Hn |]. split; [exact Hi |].
      intros k' a' n' Hlt Hk' Hn'.
      apply lookup_app_Some in Hk' as [Hk' | [Hge Hk']].
      - by apply (Hlater k' a' n').
      - apply list_lookup_singleton_Some in Hk' as [_ <-]. by apply Hlast. }
    destruct (node_objs s !! a0) as [n0 |] eqn:E0.
    + rewrite find_snoc in H.
      destruct (decide (id (Node.dev n0) = i)) as [Hi | Hne].
      * injection H as <-. exists (length ns), n0.
        split; [by rewrite list_lookup_middle |].
        split; [exact E0 |]. split; [exact Hi |].
        intros k' a' n' Hlt Hk'. apply lookup_lt_Some in Hk'.
        rewrite length_app in Hk'. simpl in Hk'. lia.
      * apply Hold; [exact H |]. intros n1 Hn1. congruence.
    + rewrite app_nil_r in H. apply Hold; [exact H | done].
Qed.

(** X17 on the sample. *)
Lemma duplicate_ids_resolve_to_last_witness :
  Force.find (Force.nodeById [0; 1]%nat Cases.twins) "a" = Ok 1%nat /\
  exists k n,
    [0; 1]%nat !! k = Some 1%nat /\
    node_objs Cases.twins !! 1%nat = Some n /\ id (Node.dev n) = "a" /\
    forall k' a' n',
      (k < k')%nat -> [0; 1]%nat !! k' = Some a' ->
      node_objs Cases.twins !! a' = Some n' -> id (Node.dev n') <> "a".
Proof.
  assert (H : Force.find (Force.nodeById [0; 1]%nat Cases.twins) "a"
              = Ok 1%nat) by (vm_compute; reflexivity).
  split; [exact H |].
  exact (duplicate_ids_resolve_to_last [0; 1]%nat Cases.twins "a" 1%nat H).
Defined.

End DuplicateFacts.

(* ===================================================================== *)
(** * Theorems: node groups and labels *)
(* ===================================================================== *)

Module PageFacts.
Import TopologyGraph StoreFacts Spec Footprint Page.

Local Open Scope Q_scope.

Lemma writes_resolved s s' :
  writes s s' ->
  forall a l, link_objs s !! a = Some l -> resolved l ->
    exists l', link_objs s' !! a = Some l' /\ resolved l'.
Proof.
  induction 1 as [| a f s s' Hf _ IH | a f s s' Hf _ IH | arr s s' _ IH
                 | arr s s' _ IH]; intros a' l Hl Hr.
  - by exists l.
  - by apply (IH a' l).
  - destruct (decide (a = a')) as [<- | Hne].
    + apply (IH a (f l)); [by rewrite update_link_eq, Hl |].
      destruct Hr as (sa & ta & Hsa & Hta).
      destruct (Hf l Hl) as (_ & Hsrc & Htgt).
      exists sa, ta. split.
      * destruct Hsrc as [-> | (i & b & n & He & _)]; [done | congruence].
      * destruct Htgt as [-> | (i & b & n & He & _)]; [done | congruence].
    + apply (IH a' l); [by rewrite update_link_ne | done].
  - by apply (IH a' l).
  - apply (IH a' l); [| done]. simpl. by apply lookup_app_l_Some.
Qed.

(** ** Placing a node group and a label *)

Lemma place_group_current s g n :
  node_objs s !! g_datum g = Some n -> positioned n ->
  group_current s (place_group s g) /\
  g_sim (place_group s g) = g_sim g /\
  g_datum (place_group s g) = g_datum g.
Proof.
  intros Hn [[x Hx] [y Hy]]. unfold place_group. rewrite Hn.
  split; [| done]. exists n, x, y. simpl. by rewrite Hn, Hx, Hy.
Qed.

Lemma place_label_current s lb d :
  link_objs s !! label_datum lb = Some d -> resolved d ->
  end_ok s (LinkDatum.source d) -> end_ok s (LinkDatum.target d) ->
  label_current s (place_label s lb) /\
  label_sim (place_label s lb) = label_sim lb /\
  label_datum (place_label s lb) = label_datum lb.
Proof.
  intros Hd (a & b & Ha & Hb) Hsa Hsb. rewrite Ha in Hsa. rewrite Hb in Hsb.
  destruct Hsa as (na & Hna & [[sx Hsx] [sy Hsy]]).
  destruct Hsb as (nb & Hnb & [[tx Htx] [ty Hty]]).
  unfold place_label. rewrite Hd, Ha, Hb. simpl. rewrite Hna, Hnb. simpl.
  rewrite Hsx, Hsy, Htx, Hty. simpl.
  split; [| done]. exists d, a, b, na, nb, sx, sy, tx, ty. simpl.
  by rewrite Hd.
Qed.

Lemma staged_writes i v s' :
  writes (store v) s' -> staged i v -> staged i (set_store s' v).
Proof.
  intros Hw [Hg Hl]. split; simpl.
  - eapply Forall_impl; [exact Hg |]. intros g (Hi & n & Hn & Hp).
    split; [exact Hi |]. by eapply FootprintFacts.writes_positioned.
  - eapply Forall_impl; [exact Hl |]. intros lb (Hi & d & Hd & Hr).
    split; [exact Hi |]. by eapply writes_resolved.
Qed.

Section WithPhysics.

Variable forces : Force.Config -> Q -> list Force.Kin -> list (nat * nat)
  -> list Force.Kin.
Variable phyllotaxis : nat -> Q * Q.

Lemma frame_unfold i v sim :
  sims v !! i = Some sim -> Force.running sim = true ->
  Force.on_tick sim = true ->
  let s' := (Force.tick forces sim (store v)).2 in
  store (frame forces i v) = s' /\
  groups (frame forces i v)
  = (fun g => if Nat.eqb (g_sim g) i then place_group s' g else g)
      <$> groups v /\
  labels (frame forces i v)
  = (fun lb => if Nat.eqb (label_sim lb) i then place_label s' lb else lb)
      <$> labels v.
Proof.
  intros Hs Hr Ho. unfold frame. rewrite Hs, Hr.
  pose proof (tick_sim forces sim (store v)) as (_ & _ & _ & Hot & _).
  destruct (Force.tick forces sim (store v)) as [sim' s']. simpl in *.
  rewrite Hot, Ho. done.
Qed.

Lemma frame_idle i v :
  (forall sim, sims v !! i = Some sim -> Force.running sim = false) ->
  frame forces i v = v.
Proof.
  intros H. unfold frame. destruct (sims v !! i) as [sim |] eqn:E; [| done].
  by rewrite (H sim eq_refl).
Qed.

(** What the steps between two data sets leave of the labels. *)
Lemma mousedown_labels el e v : labels (mousedown el e v) = labels v.
Proof.
  unfold mousedown, dragstarted.
  destruct (groups v !! el) as [g |]; [| done].
  destruct (drags v !! g_sim g) as [b |]; [| done].
  destruct (node_objs (store v) !! g_datum g) as [n |]; [| done]. simpl.
  by destruct (Nat.eqb _ _).
Qed.

Lemma mousemove_labels e v : labels (mousemove e v) = labels v.
Proof.
  unfold mousemove.
  destruct (window_drag v) as [i |]; [| done].
  by destruct (_ ≫= _) as [[b g] |].
Qed.

Lemma mouseup_labels e v : labels (mouseup e v) = labels v.
Proof.
  unfold mouseup, dragended.
  destruct (window_drag v) as [i |]; [| done].
  destruct (_ ≫= _) as [[b g] |]; [| done]. simpl.
  by destruct (Nat.eqb _ _).
Qed.

Lemma click_labels el v : labels (click el v) = labels v.
Proof.
  unfold click. destruct (noclick v); [done |].
  destruct (groups v !! el) as [g |]; [| done].
  by destruct (g_click g) as [[] |].
Qed.

Lemma zoom_by_labels rev f v : labels (zoom_by rev f v) = labels v.
Proof.
  unfold zoom_by, zoomed. destruct (zoomable v); [| done].
  by destruct (tracks_zoom rev).
Qed.

(** A step between two data sets that is not a frame changes no
    element, no link object and no position. *)
Lemma quiet_step rev i v ev v' :
  quiet i ev -> (forall j, ev <> Frame j) ->
  handle forces phyllotaxis rev v ev = Ok v' ->
  same_picture v v' /\ groups v' = groups v /\ labels v' = labels v.
Proof.
  intros Hq Hnf H. unfold handle in H.
  destruct ev; simpl in H, Hq; try done; try injection H as <-.
  - by destruct (Hnf i0).
  - split; [| split].
    + eapply TickFacts.same_picture_trans;
        [apply (TickFacts.same_picture_expire (MouseDown el e) v) |].
      apply TickFacts.same_picture_mousedown.
    + apply (FootprintFacts.mousedown_groups el e (set_noclick false v)).
    + apply (mousedown_labels el e (set_noclick false v)).
  - split; [| split].
    + eapply TickFacts.same_picture_trans;
        [apply (TickFacts.same_picture_expire (MouseMove e) v) |].
      apply TickFacts.same_picture_mousemove.
    + apply (FootprintFacts.mousemove_groups e (set_noclick false v)).
    + apply (mousemove_labels e (set_noclick false v)).
  - split; [| split].
    + eapply TickFacts.same_picture_trans;
        [apply (TickFacts.same_picture_expire (MouseUp e) v) |].
      apply TickFacts.same_picture_mouseup.
    + apply (FootprintFacts.mouseup_groups e (set_noclick false v)).
    + apply (mouseup_labels e (set_noclick false v)).
  - split; [| split].
    + apply TickFacts.same_picture_click.
    + apply (FootprintFacts.click_groups el v).
    + apply click_labels.
  - split; [| split].
    + eapply TickFacts.same_picture_trans;
        [apply (TickFacts.same_picture_expire (Wheel factor p) v) |].
      apply TickFacts.same_picture_zoom_by.
    + apply (FootprintFacts.zoom_by_groups rev _ (set_noclick false v)).
    + apply (zoom_by_labels rev _ (set_noclick false v)).
  - split; [| split].
    + eapply TickFacts.same_picture_trans;
        [apply (TickFacts.same_picture_expire (DblClick shift p) v) |].
      apply TickFacts.same_picture_zoom_by.
    + apply (FootprintFacts.zoom_by_groups rev _ (set_noclick false v)).
    + apply (zoom_by_labels rev _ (set_noclick false v)).
  - split; [| split].
    + eapply TickFacts.same_picture_trans;
        [apply (TickFacts.same_picture_expire (Pan p0 p) v) |].
      apply TickFacts.same_picture_zoom_by.
    + apply (FootprintFacts.zoom_by_groups rev _ (set_noclick false v)).
    + apply (zoom_by_labels rev _ (set_noclick false v)).
  - split; [| split].
    + eapply TickFacts.same_picture_trans;
        [apply (TickFacts.same_picture_expire (Pinch ratio p l) v) |].
      apply TickFacts.same_picture_zoom_by.
    + apply (FootprintFacts.zoom_by_groups rev _ (set_noclick false v)).
    + apply (zoom_by_labels rev _ (set_noclick false v)).
Qed.

(** A frame of a running simulation puts every node group and every
    label of its effect run where the nodes are. *)
Lemma frame_pictures i v sim :
  sims v !! i = Some sim -> Force.running sim = true ->
  Force.on_tick sim = true ->
  staged i v -> sound (store v) ->
  staged i (frame forces i v) /\ pictured (frame forces i v).
Proof.
  intros Hs Hr Ho Hst Hso.
  destruct (frame_unfold i v sim Hs Hr Ho) as (Es & Eg & El).
  assert (Hw : writes (store v) (store (frame forces i v)))
    by apply FootprintFacts.frame_writes.
  pose proof (FootprintFacts.writes_sound _ _ Hw Hso) as Hso'.
  destruct (staged_writes i v _ Hw Hst) as [Hg Hl]. simpl in Hg, Hl.
  rewrite Es in Hg, Hl, Hso'.
  set (s' := (Force.tick forces sim (store v)).2) in *.
  split; split; rewrite ?Es, ?Eg, ?El.
  - apply Forall_fmap. eapply Forall_impl; [exact Hg |].
    intros g (Hi & n & Hn & Hp). simpl. rewrite Hi, Nat.eqb_refl.
    destruct (place_group_current s' g n Hn Hp) as (_ & -> & ->). eauto.
  - apply Forall_fmap. eapply Forall_impl; [exact Hl |].
    intros lb (Hi & d & Hd & Hres). simpl. rewrite Hi, Nat.eqb_refl.
    destruct (Hso' _ _ Hd) as [H1 H2].
    destruct (place_label_current s' lb d Hd Hres H1 H2) as (_ & -> & ->).
    eauto.
  - apply Forall_fmap. eapply Forall_impl; [exact Hg |].
    intros g (Hi & n & Hn & Hp). simpl. rewrite Hi, Nat.eqb_refl.
    by destruct (place_group_current s' g n Hn Hp) as (Hc & _).
  - apply Forall_fmap. eapply Forall_impl; [exact Hl |].
    intros lb (Hi & d & Hd & Hres). simpl. rewrite Hi, Nat.eqb_refl.
    destruct (Hso' _ _ Hd) as [H1 H2].
    by destruct (place_label_current s' lb d Hd Hres H1 H2) as (Hc & _).
Qed.

Lemma pictured_same_picture v v' :
  same_picture v v' -> groups v' = groups v -> labels v' = labels v ->
  pictured v -> pictured v'.
Proof.
  intros (_ & Hl & Hx & Hy & _) Eg El [Hg Hlb].
  assert (Hnode : forall a n x y,
            node_objs (store v) !! a = Some n ->
            Node.x n = Some x -> Node.y n = Some y ->
            exists n', node_objs (store v') !! a = Some n' /\
                       Node.x n' = Some x /\ Node.y n' = Some y).
  { intros a n x y Hn Ex Ey. specialize (Hx a). specialize (Hy a).
    rewrite Hn in Hx, Hy. simpl in Hx, Hy.
    destruct (node_objs (store v') !! a) as [n' |]; [| done].
    simpl in Hx, Hy. exists n'. split; [done |].
    split; congruence. }
  split.
  - rewrite Eg. eapply Forall_impl; [exact Hg |].
    intros g (n & x & y & Hn & Ex & Ey & Hat).
    destruct (Hnode _ _ _ _ Hn Ex Ey) as (n' & Hn' & Ex' & Ey').
    by exists n', x, y.
  - rewrite El. eapply Forall_impl; [exact Hlb |].
    intros lb (d & a & b & na & nb & sx & sy & tx & ty & Hd & Ha & Hb & Hna
               & Hnb & Esx & Esy & Etx & Ety & Hat).
    destruct (Hnode _ _ _ _ Hna Esx Esy) as (na' & Hna' & Esx' & Esy').
    destruct (Hnode _ _ _ _ Hnb Etx Ety) as (nb' & Hnb' & Etx' & Ety').
    exists d, a, b, na', nb', sx, sy, tx, ty. rewrite Hl. done.
Qed.

(** Between two data sets, once the elements are where the nodes are
    they stay there. *)
Lemma handle_page rev i v ev v' :
  quiet i ev -> handle forces phyllotaxis rev v ev = Ok v' ->
  shown i v -> staged i v -> sound (store v) -> pictured v ->
  staged i v' /\ pictured v'.
Proof.
  intros Hq H Hsh Hst Hso Hp.
  assert (Hcase : ev = Frame i \/ forall j, ev <> Frame j).
  { destruct ev; simpl in Hq; try (right; intros j' ?; discriminate).
    left. by subst. }
  destruct Hcase as [-> | Hnf].
  - unfold handle in H. simpl in H. injection H as <-.
    destruct Hsh as (_ & sim & Hs & Ho).
    destruct (Force.running sim) eqn:Hr.
    + by apply (frame_pictures i (set_noclick false v) sim).
    + rewrite (frame_idle i (set_noclick false v)); [done |].
      intros sim' Hs'. simpl in Hs'. congruence.
  - destruct (quiet_step rev i v ev v' Hq Hnf H) as (Hsame & Eg & El).
    split.
    + pose proof (FootprintFacts.handle_writes forces phyllotaxis rev v ev v' H)
        as Hw.
      destruct (staged_writes i v _ Hw Hst) as [Hg Hl]. simpl in Hg, Hl.
      split; [by rewrite Eg | by rewrite El].
    + by apply (pictured_same_picture v v').
Qed.

Lemma run_page rev i evs : forall v v',
  Forall (quiet i) evs -> run forces phyllotaxis rev v evs = Ok v' ->
  placed i v -> staged i v -> sound (store v) -> pictured v ->
  placed i v' /\ sound (store v') /\ pictured v'.
Proof.
  induction evs as [| ev evs IH]; intros v v' Hq H Hpl Hst Hso Hp;
    simpl in H.
  - by injection H as <-.
  - inversion Hq as [| ? ? Hq1 Hq2]; subst.
    destruct (handle forces phyllotaxis rev v ev) as [v1 | msg] eqn:E;
      [| done].
    destruct (handle_page rev i v ev v1 Hq1 E (proj1 Hpl) Hst Hso Hp)
      as [Hst1 Hp1].
    apply (IH v1 v' Hq2 H).
    + by eapply TickFacts.handle_keeps_placed.
    + exact Hst1.
    + eapply FootprintFacts.writes_sound; [| exact Hso].
      by eapply FootprintFacts.handle_writes.
    + exact Hp1.
Qed.

(** The effect stages what it draws. *)
Lemma effect_stages rev p v v' :
  guards_empty rev && Nat.eqb (length (nodes p)) 0 = false ->
  effect phyllotaxis rev p v = Ok v' ->
  staged (length (sims v)) v'.
Proof.
  intros Hg H.
  apply effect_Ok in H
    as [(Hge & Hn & _) | (_ & ns & ls & s2 & s4 & Ed & El & ->)].
  { rewrite Hge, Hn in Hg. done. }
  set (s3 := Force.initializeNodes phyllotaxis 0 ns s2) in *.
  split; simpl.
  - apply Forall_forall. intros g Hin.
    apply list_elem_of_omap in Hin as (a & Ha & Hga).
    destruct (node_objs s4 !! a) as [n |] eqn:En; [| done].
    injection Hga as <-. simpl. split; [done |].
    exists n. split; [exact En |].
    rewrite (initializeLinks_nodes _ _ _ _ _ El) in En.
    by eapply FootprintFacts.initializeNodes_positioned.
  - destruct (draws_labels rev); [| constructor].
    apply Forall_forall. intros lb Hin.
    apply list_elem_of_omap in Hin as (a & Ha & Hla).
    destruct (link_objs s4 !! a) as [d |] eqn:Ea; [| done].
    injection Hla as <-. simpl. split; [done |].
    destruct (LinkFacts.initializeLinks_resolves _ _ _ _ _ a El Ha)
      as (l' & Hl' & Hr).
    { apply lookup_lt_is_Some.
      rewrite <- (initializeLinks_length _ _ _ _ _ El).
      by eapply lookup_lt_Some. }
    exists d. split; [done | congruence].
Qed.

(** X18.  A data set whose links have ids at their ends, as [Link] has them,
    is rendered and the timer of the new simulation fires.  From then
    on, through frames, drags, clicks and zooming, every line has
    numbers for its four coordinates, every node group is translated to
    the position its node has at that moment, and every label to the
    middle between the two nodes of its link: nothing is drawn at
    [undefined]. *)
Theorem page_follows_nodes rev s0 evs0 v0 p v evs v' :
  ids_only s0 ->
  run forces phyllotaxis rev (initial s0) evs0 = Ok v0 ->
  guards_empty rev && Nat.eqb (length (nodes p)) 0 = false ->
  render phyllotaxis rev p v0 = Ok v ->
  Forall (quiet (length (sims v0))) evs ->
  run forces phyllotaxis rev v (Frame (length (sims v0)) :: evs) = Ok v' ->
  Forall line_numbers (lines v') /\
  Forall (group_current (store v')) (groups v') /\
  Forall (label_current (store v')) (labels v').
Proof.
  intros Hids H0 Hg Hr Hq H. unfold render in Hr.
  assert (Hlen : length (sims (run_cleanup v0)) = length (sims v0)).
  { unfold run_cleanup. destruct (cleanup v0); [| done]. simpl.
    apply length_alter. }
  assert (Hso : sound (store v)).
  { eapply FootprintFacts.writes_sound;
      [| apply FootprintFacts.ids_only_sound, Hids].
    eapply FootprintFacts.writes_trans;
      [apply (FootprintFacts.run_writes forces phyllotaxis rev evs0 _ _ H0) |].
    rewrite <- (FootprintFacts.run_cleanup_store v0).
    by eapply FootprintFacts.effect_writes. }
  destruct (TickFacts.effect_shows phyllotaxis rev p _ v Hg Hr)
    as (Hsh & sim & Hs & Hrun).
  pose proof (effect_stages rev p _ v Hg Hr) as Hst.
  rewrite Hlen in Hsh, Hs, Hst. set (i := length (sims v0)) in *.
  simpl in H.
  assert (Ho : Force.on_tick sim = true).
  { destruct Hsh as (_ & sim' & Hs' & Ho). congruence. }
  assert (Hpl : placed i (frame forces i (set_noclick false v))).
  { eapply TickFacts.frame_places; [| exact Hs | exact Hrun]. exact Hsh. }
  destruct (frame_pictures i (set_noclick false v) sim Hs Hrun Ho Hst Hso)
    as [Hst1 Hp1].
  assert (Hso1 : sound (store (frame forces i (set_noclick false v)))).
  { eapply FootprintFacts.writes_sound; [| exact Hso].
    apply (FootprintFacts.frame_writes forces i (set_noclick false v)). }
  destruct (run_page rev i evs _ v' Hq H Hpl Hst1 Hso1 Hp1)
    as ((_ & Hcur) & Hso' & Hg' & Hl').
  split; [| by split].
  eapply Forall_impl; [exact Hcur |].
  intros ln (d & a & b & Hd & Ha & Hb & E1 & E2 & E3 & E4).
  destruct (Hso' _ _ Hd) as [H1 H2]. rewrite Ha in H1. rewrite Hb in H2.
  destruct H1 as (na & Hna & [Hx1 Hy1]). destruct H2 as (nb & Hnb & [Hx2 Hy2]).
  unfold line_numbers. rewrite E1, E2, E3, E4, Hna, Hnb. done.
Qed.

End WithPhysics.

(** X18 on the sample. *)
Lemma page_follows_nodes_witness :
  ids_only Sample.caller /\
  run Sample.still Sample.row rev3 (initial Sample.caller) []
  = Ok (initial Sample.caller) /\
  guards_empty rev3 && Nat.eqb (length (nodes Sample.good)) 0 = false /\
  render Sample.row rev3 Sample.good (initial Sample.caller)
  = Ok Sample.rendered /\
  Forall (quiet (length (sims (initial Sample.caller)))) Sample.play /\
  run Sample.still Sample.row rev3 Sample.rendered
      (Frame (length (sims (initial Sample.caller))) :: Sample.play)
  = Ok Sample.played /\
  Forall line_numbers (lines Sample.played) /\
  Forall (group_current (store Sample.played)) (groups Sample.played) /\
  Forall (label_current (store Sample.played)) (labels Sample.played).
Proof.
  assert (H0 : ids_only Sample.caller).
  { intros [| [| a]] l Hl; simpl in Hl; [| | done];
      injection Hl as <-; by eexists _, _. }
  assert (H1 : render Sample.row rev3 Sample.good (initial Sample.caller)
               = Ok Sample.rendered) by (vm_compute; reflexivity).
  assert (H2 : Forall (quiet (length (sims (initial Sample.caller))))
                      Sample.play).
  { repeat constructor. }
  assert (H3 : run Sample.still Sample.row rev3 Sample.rendered
                   (Frame (length (sims (initial Sample.caller)))
                      :: Sample.play) = Ok Sample.played)
    by (vm_compute; reflexivity).
  split; [exact H0 |]. split; [reflexivity |]. split; [reflexivity |].
  split; [exact H1 |]. split; [exact H2 |]. split; [exact H3 |].
  exact (page_follows_nodes Sample.still Sample.row rev3 Sample.caller []
           (initial Sample.caller) Sample.good Sample.rendered Sample.play
           Sample.played H0 eq_refl eq_refl H1 H2 H3).
Defined.

End PageFacts.

(* ===================================================================== *)
(** * Theorems: one simulation at a time, and empty data *)
(* ===================================================================== *)

Module LifecycleFacts.
Import TopologyGraph StoreFacts Spec Cooling.

Section WithPhysics.

Variable forces : Force.Config -> Q -> list Force.Kin -> list (nat * nat)
  -> list Force.Kin.
Variable phyllotaxis : nat -> Q * Q.

Lemma run_cleanup_length v :
  length (sims (run_cleanup v)) = length (sims v).
Proof.
  unfold run_cleanup. destruct (cleanup v); [| done]. simpl.
  apply length_alter.
Qed.

(** Between two data sets no simulation is made and the pending
    cleanup stays. *)
Lemma between_renders rev v ev v' :
  (forall p, ev <> Render p) -> ev <> Unmount ->
  handle forces phyllotaxis rev v ev = Ok v' ->
  length (sims v') = length (sims v) /\ cleanup v' = cleanup v.
Proof.
  intros Hr Hu H. unfold handle in H.
  destruct ev; simpl in H; try injection H as <-.
  - by destruct (Hr p).
  - done.
  - unfold frame. destruct (sims _ !! i) as [sim |]; [| done].
    destruct (Force.running sim); [| done].
    destruct (Force.tick forces sim _) as [sim' s'].
    destruct (Force.on_tick sim'); simpl; by rewrite !length_alter.
  - unfold mousedown, dragstarted.
    destruct (groups _ !! el) as [g |]; [| done].
    destruct (drags _ !! _); [| done].
    destruct (node_objs _ !! _); [| done]. simpl.
    destruct (Nat.eqb _ _); simpl; by rewrite ?length_alter.
  - unfold mousemove. destruct (window_drag _); [| done].
    by destruct (_ ≫= _) as [[b g] |].
  - unfold mouseup, dragended. destruct (window_drag _); [| done].
    destruct (_ ≫= _) as [[b g] |]; [| done]. simpl.
    destruct (Nat.eqb _ _); simpl; by rewrite ?length_alter.
  - unfold click. destruct (noclick v); [done |].
    destruct (groups v !! el) as [g |]; [| done].
    by destruct (g_click g) as [[] |].
  - unfold zoom_by, zoomed. destruct (zoomable _); [| done].
    by destruct (tracks_zoom rev).
  - unfold zoom_by, zoomed. destruct (zoomable _); [| done].
    by destruct (tracks_zoom rev).
  - unfold zoom_by, zoomed. destruct (zoomable _); [| done].
    by destruct (tracks_zoom rev).
  - unfold zoom_by, zoomed. destruct (zoomable _); [| done].
    by destruct (tracks_zoom rev).
Qed.

(** What the cleanup leaves of simulation [i]: stopped. *)
Lemma cleaned_up i v :
  retired v -> (i < length (sims v))%nat ->
  exists n sim, sims (run_cleanup v) !! i = Some sim /\
                Force.running sim = false /\ Force.ticks sim = n.
Proof.
  intros [Hd Hc] Hi.
  destruct (decide (cleanup v = Some i)) as [Hci | Hci].
  - destruct (lookup_lt_is_Some_2 _ _ Hi) as [sim Hs].
    destruct (TeardownFacts.run_cleanup_stops i sim v Hci Hs)
      as (sim' & Hs' & Hr' & Ht').
    by exists (Force.ticks sim), sim'.
  - destruct (Hd i Hi Hci) as [n Hdead].
    apply TeardownFacts.dead_run_cleanup in Hdead.
    destruct Hdead as ((sim & Hs & Hr & Ht) & _). by exists n, sim.
Qed.

Lemma handle_retired rev v ev v' :
  guards_empty rev = false ->
  handle forces phyllotaxis rev v ev = Ok v' -> retired v -> retired v'.
Proof.
  intros Hg H Hv.
  assert (Hv0 : retired (expire_noclick ev v)) by (by destruct ev).
  assert (Hcase : (exists p, ev = Render p) \/ ev = Unmount \/
                  ((forall p, ev <> Render p) /\ ev <> Unmount)).
  { destruct ev; eauto; right; right; split; done. }
  destruct Hcase as [[p ->] | [-> | [Hnr Hnu]]].
  - unfold handle in H. simpl in H, Hv0. unfold render in H.
    pose proof (run_cleanup_length (set_noclick false v)) as Hlen.
    apply effect_Ok in H
      as [(Hge & _) | (_ & ns & ls & s2 & s4 & Ed & El & ->)];
      [congruence |].
    split.
    + intros i Hi Hci. simpl in Hi, Hci. rewrite length_app in Hi.
      simpl in Hi.
      assert (Hlt : (i < length (sims (set_noclick false v)))%nat).
      { rewrite <- Hlen. destruct (decide (i = length
          (sims (run_cleanup (set_noclick false v))))) as [-> | Hne];
          [done | lia]. }
      destruct (cleaned_up i _ Hv0 Hlt) as (n & sim & Hs & Hr & Ht).
      exists n. apply TeardownFacts.draw_dead. by exists sim.
    + intros i Hci. simpl in Hci. injection Hci as <-. simpl.
      rewrite length_app. simpl. lia.
  - unfold handle in H. simpl in H, Hv0. injection H as <-. split.
    + intros i Hi _. simpl in Hi. fold (run_cleanup (set_noclick false v)) in Hi.
      rewrite run_cleanup_length in Hi.
      destruct (cleaned_up i _ Hv0 Hi) as (n & sim & Hs & Hr & Ht).
      exists n. apply TeardownFacts.unmount_dead. by exists sim.
    + intros i Hci. done.
  - destruct (between_renders rev v ev v' Hnr Hnu H) as [Hlen Hcl].
    destruct Hv as [Hd Hc]. split.
    + intros i Hi Hci. rewrite Hlen in Hi. rewrite Hcl in Hci.
      destruct (Hd i Hi Hci) as [n Hdead]. exists n.
      by eapply TeardownFacts.handle_dead.
    + intros i Hci. rewrite Hlen. apply Hc. by rewrite <- Hcl.
Qed.

Lemma run_retired rev evs : forall v v',
  guards_empty rev = false ->
  run forces phyllotaxis rev v evs = Ok v' -> retired v -> retired v'.
Proof.
  induction evs as [| ev evs IH]; intros v v' Hg H Hv; simpl in H.
  - by injection H as <-.
  - destruct (handle forces phyllotaxis rev v ev) as [v1 | msg] eqn:E;
      [| done].
    eapply IH; [exact Hg | exact H |]. by eapply handle_retired.
Qed.

(** X19.  In the revisions without the guard, at most one simulation is
    running at any moment, the one of the latest effect: every
    simulation that an earlier effect made is stopped, and stays so. *)
Theorem one_simulation_at_a_time rev s0 evs v i sim :
  guards_empty rev = false ->
  run forces phyllotaxis rev (initial s0) evs = Ok v ->
  sims v !! i = Some sim -> Force.running sim = true ->
  cleanup v = Some i.
Proof.
  intros Hg H Hs Hr.
  assert (Hret : retired v).
  { eapply run_retired; [exact Hg | exact H |]. split.
    - intros j Hj. simpl in Hj. lia.
    - done. }
  destruct (decide (cleanup v = Some i)) as [Hc | Hc]; [exact Hc |].
  destruct Hret as [Hd _].
  destruct (Hd i) as (n & (sim' & Hs' & Hr' & _) & _);
    [by eapply lookup_lt_Some | exact Hc |]. congruence.
Qed.

(** X20.  A render with an empty node list in a revision without the guard:
    with no links either, a simulation is made all the same, running
    at alpha 1 with its tick listener, and nothing is drawn; with a
    link that has an id at its source, the effect throws. *)
Theorem empty_data_without_guard rev p v :
  guards_empty rev = false -> nodes p = [] ->
  (links p = [] ->
   exists v' sim,
     render phyllotaxis rev p v = Ok v' /\
     sims v' = sims (run_cleanup v) ++ [sim] /\
     Force.running sim = true /\ Force.alpha sim = 1%Q /\
     Force.on_tick sim = true /\ lines v' = [] /\ groups v' = []) /\
  (forall a l i,
     a ∈ links p -> link_objs (store v) !! a = Some l ->
     LinkDatum.source l = EId i ->
     exists msg, render phyllotaxis rev p v = Throw msg).
Proof.
  intros Hg Hn. split.
  - intros Hl. by apply EmptyFacts.unguarded_empty_runs.
  - intros a l i Ha Hl Hs. by eapply EmptyFacts.unguarded_empty_throws.
Qed.

(** X21.  A render with an empty node list in the revision with the guard:
    the simulation of the previous effect is stopped, no new one is
    made, and the page is left as it is, with the nodes, lines and
    labels of the previous data set. *)
Theorem empty_data_keeps_old_picture rev p v :
  guards_empty rev = true -> nodes p = [] ->
  exists v',
    render phyllotaxis rev p v = Ok v' /\
    groups v' = groups v /\ lines v' = lines v /\ labels v' = labels v /\
    store v' = store v /\ length (sims v') = length (sims v) /\
    cleanup v' = None /\
    (forall i sim, cleanup v = Some i -> sims v !! i = Some sim ->
       sims v' !! i = Some (Force.stop sim)).
Proof.
  intros Hg Hn. exists (run_cleanup v).
  split; [by apply EmptyFacts.guard_returns_at_once |].
  unfold run_cleanup. destruct (cleanup v) as [j |] eqn:Ec; simpl.
  - repeat split; try done.
    + apply length_alter.
    + intros i sim Hi Hs. injection Hi as ->.
      by rewrite list_lookup_alter_eq, Hs.
  - repeat split; done.
Qed.

End WithPhysics.

(** X19 on the sample. *)
Lemma one_simulation_at_a_time_witness :
  guards_empty rev3 = false /\
  run Sample.still Sample.row rev3 (initial Sample.caller) Cases.twice
  = Ok Cases.rendered_twice /\
  sims Cases.rendered_twice !! 1%nat = Some Cases.second_sim /\
  Force.running Cases.second_sim = true /\
  cleanup Cases.rendered_twice = Some 1%nat.
Proof.
  assert (H : run Sample.still Sample.row rev3 (initial Sample.caller)
                  Cases.twice = Ok Cases.rendered_twice)
    by (vm_compute; reflexivity).
  split; [reflexivity |]. split; [exact H |]. split; [reflexivity |].
  split; [reflexivity |].
  exact (one_simulation_at_a_time Sample.still Sample.row rev3 Sample.caller
           Cases.twice Cases.rendered_twice 1%nat Cases.second_sim
           eq_refl H eq_refl eq_refl).
Defined.

(** X20 on the sample. *)
Lemma empty_data_without_guard_witness :
  guards_empty rev3 = false /\ nodes Sample.empty_with_link = [] /\
  (links Sample.empty_with_link = [] ->
   exists v' sim,
     render Sample.row rev3 Sample.empty_with_link (initial Sample.caller)
     = Ok v' /\
     sims v' = sims (run_cleanup (initial Sample.caller)) ++ [sim] /\
     Force.running sim = true /\ Force.alpha sim = 1%Q /\
     Force.on_tick sim = true /\ lines v' = [] /\ groups v' = []) /\
  (forall a l i,
     a ∈ links Sample.empty_with_link ->
     link_objs (store (initial Sample.caller)) !! a = Some l ->
     LinkDatum.source l = EId i ->
     exists msg,
       render Sample.row rev3 Sample.empty_with_link (initial Sample.caller)
       = Throw msg).
Proof.
  split; [reflexivity |]. split; [reflexivity |].
  exact (empty_data_without_guard Sample.row rev3 Sample.empty_with_link
           (initial Sample.caller) eq_refl eq_refl).
Defined.

(** X21 on the sample. *)
Lemma empty_data_keeps_old_picture_witness :
  guards_empty rev1 = true /\ nodes Sample.empty = [] /\
  exists v',
    render Sample.row rev1 Sample.empty Cases.first_played = Ok v' /\
    groups v' = groups Cases.first_played /\
    lines v' = lines Cases.first_played /\
    labels v' = labels Cases.first_played /\
    store v' = store Cases.first_played /\
    length (sims v') = length (sims Cases.first_played) /\
    cleanup v' = None /\
    (forall i sim, cleanup Cases.first_played = Some i ->
       sims Cases.first_played !! i = Some sim ->
       sims v' !! i = Some (Force.stop sim)).
Proof.
  split; [reflexivity |]. split; [reflexivity |].
  exact (empty_data_keeps_old_picture Sample.row rev1 Sample.empty
           Cases.first_played eq_refl eq_refl).
Defined.

End LifecycleFacts.

(* ===================================================================== *)
(** * Theorems: the lines of a data set *)
(* ===================================================================== *)

Module LineFacts.
Import TopologyGraph StoreFacts Spec Footprint Resolved Page.

Lemma Forall2_compose {A B C} (R : A -> B -> Prop) (S : B -> C -> Prop)
    xs ys zs :
  Forall2 R xs ys -> Forall2 S ys zs ->
  Forall2 (fun x z => exists y, R x y /\ S y z) xs zs.
Proof.
  intros H. revert zs.
  induction H as [| x y xs ys Hxy _ IH]; intros zs Hz.
  - inversion Hz. constructor.
  - inversion Hz as [| ? z ? zs' Hyz Hrest]; subst.
    constructor; [by exists y | by apply IH].
Qed.

Lemma Forall2_and_r {A B} (R : A -> B -> Prop) (P : B -> Prop) xs ys :
  Forall2 R xs ys -> Forall P ys ->
  Forall2 (fun x y => R x y /\ P y) xs ys.
Proof.
  induction 1 as [| x y xs ys Hxy _ IH]; intros HP; [constructor |].
  inversion HP; subst. constructor; [done | by apply IH].
Qed.

Lemma arr_nodes_filter s ns :
  arr_nodes s (filter (fun a => is_Some (node_objs s !! a)) ns)
  = arr_nodes s ns.
Proof.
  unfold arr_nodes. induction ns as [| a ns IH]; [done |].
  destruct (node_objs s !! a) as [n |] eqn:E.
  - rewrite filter_cons_True by (rewrite E; eauto). csimpl.
    by rewrite E, IH.
  - rewrite filter_cons_False by (rewrite E; by intros [? ?]). csimpl.
    by rewrite E.
Qed.

Lemma quiet_keeps i ev : quiet i ev -> keeps_data_set ev.
Proof. by destruct ev. Qed.

Section WithPhysics.

Variable forces : Force.Config -> Q -> list Force.Kin -> list (nat * nat)
  -> list Force.Kin.
Variable phyllotaxis : nat -> Q * Q.

(** ** What stays while a data set is on the page *)

Lemma frame_elements i v :
  g_datum <$> groups (frame forces i v) = g_datum <$> groups v /\
  line_datum <$> lines (frame forces i v) = line_datum <$> lines v /\
  link_objs (store (frame forces i v)) = link_objs (store v).
Proof.
  split; [apply (FootprintFacts.frame_groups forces i v) |].
  unfold frame. destruct (sims v !! i) as [sim |]; [| done].
  destruct (Force.running sim); [| done].
  pose proof (tick_links forces sim (store v)) as Hk.
  destruct (Force.tick forces sim (store v)) as [sim' s']. simpl in Hk.
  destruct (Force.on_tick sim'); [| done]. simpl. split; [| done].
  rewrite <- list_fmap_compose. apply list_fmap_ext.
  intros k ln _. simpl. destruct (Nat.eqb _ _); [| done].
  unfold place_line. by destruct (link_objs s' !! line_datum ln).
Qed.

Lemma handle_elements rev v ev v' :
  keeps_data_set ev -> handle forces phyllotaxis rev v ev = Ok v' ->
  g_datum <$> groups v' = g_datum <$> groups v /\
  line_datum <$> lines v' = line_datum <$> lines v /\
  link_objs (store v') = link_objs (store v).
Proof.
  intros Hk H. unfold handle in H.
  destruct ev; simpl in H, Hk; try done; injection H as <-.
  - exact (frame_elements i (set_noclick false v)).
  - destruct (FootprintFacts.mousedown_groups el e (set_noclick false v))
      as [-> _].
    by destruct (TickFacts.same_picture_mousedown el e (set_noclick false v))
      as (-> & -> & _).
  - destruct (FootprintFacts.mousemove_groups e (set_noclick false v))
      as [-> _].
    by destruct (TickFacts.same_picture_mousemove e (set_noclick false v))
      as (-> & -> & _).
  - destruct (FootprintFacts.mouseup_groups e (set_noclick false v))
      as [-> _].
    by destruct (TickFacts.same_picture_mouseup e (set_noclick false v))
      as (-> & -> & _).
  - destruct (FootprintFacts.click_groups el v) as [-> _].
    by destruct (TickFacts.same_picture_click el v) as (-> & -> & _).
  - destruct (FootprintFacts.zoom_by_groups rev
                (fun t => Zoom.wheeled scaleExtent t factor p)
                (set_noclick false v)) as [-> _].
    by destruct (TickFacts.same_picture_zoom_by rev
                   (fun t => Zoom.wheeled scaleExtent t factor p)
                   (set_noclick false v)) as (-> & -> & _).
  - destruct (FootprintFacts.zoom_by_groups rev
                (fun t => Zoom.dblclicked scaleExtent t shift p)
                (set_noclick false v)) as [-> _].
    by destruct (TickFacts.same_picture_zoom_by rev
                   (fun t => Zoom.dblclicked scaleExtent t shift p)
                   (set_noclick false v)) as (-> & -> & _).
  - destruct (FootprintFacts.zoom_by_groups rev
                (fun t => Zoom.panned t p0 p)
                (set_noclick false v)) as [-> _].
    by destruct (TickFacts.same_picture_zoom_by rev
                   (fun t => Zoom.panned t p0 p)
                   (set_noclick false v)) as (-> & -> & _).
  - destruct (FootprintFacts.zoom_by_groups rev
                (fun t => Zoom.pinched scaleExtent t ratio p l)
                (set_noclick false v)) as [-> _].
    by destruct (TickFacts.same_picture_zoom_by rev
                   (fun t => Zoom.pinched scaleExtent t ratio p l)
                   (set_noclick false v)) as (-> & -> & _).
Qed.

Lemma run_elements rev evs : forall v v',
  Forall keeps_data_set evs -> run forces phyllotaxis rev v evs = Ok v' ->
  g_datum <$> groups v' = g_datum <$> groups v /\
  line_datum <$> lines v' = line_datum <$> lines v /\
  link_objs (store v') = link_objs (store v).
Proof.
  induction evs as [| ev evs IH]; intros v v' Hk H; simpl in H.
  - by injection H as <-.
  - inversion Hk as [| ? ? Hk1 Hk2]; subst.
    destruct (handle forces phyllotaxis rev v ev) as [v1 | msg] eqn:E;
      [| done].
    destruct (IH _ _ Hk2 H) as (-> & -> & ->).
    by eapply handle_elements.
Qed.

(** ** The lines of a data set *)

(** A data set whose links have ids at their ends is rendered, and the
    timer of the new simulation fires.  From then on, through further
    frames of that simulation, drags, clicks and zooming: the node
    groups on the page stand for the nodes of the data set, in their
    order; every link of the data set has its line, in order; and the
    line runs from where the node with the id at the source of the link
    is at that moment to where the node with the id at its target
    is. *)
Theorem lines_follow_nodes rev p v0 v evs v' :
  guards_empty rev && Nat.eqb (length (nodes p)) 0 = false ->
  Forall id_ends (arr_links (store v0) (links p)) ->
  render phyllotaxis rev p v0 = Ok v ->
  Forall (quiet (length (sims v0))) evs ->
  run forces phyllotaxis rev v (Frame (length (sims v0)) :: evs) = Ok v' ->
  let drawn := g_datum <$> groups v' in
  Node.dev <$> arr_nodes (store v') drawn
  = Node.dev <$> arr_nodes (store v0) (nodes p) /\
  Forall2 (line_follows (store v') drawn)
          (arr_links (store v0) (links p)) (lines v').
Proof.
  intros Hg Hids Hr Hq H drawn. unfold render in Hr.
  pose proof (LifecycleFacts.run_cleanup_length v0) as Hlen.
  pose proof (FootprintFacts.run_cleanup_store v0) as Hst0.
  rewrite <- Hst0 in Hids |- *.
  destruct (LinkFacts.effect_found phyllotaxis rev p _ v Hg Hids Hr)
    as (sim0 & Hsims & Hdev & Hgd & Hfound & Hlines).
  destruct (TickFacts.effect_shows phyllotaxis rev p _ v Hg Hr)
    as (Hsh & sim & Hs & Hrun).
  pose proof (PageFacts.effect_stages phyllotaxis rev p _ v Hg Hr) as Hstg.
  rewrite Hlen in Hsh, Hs, Hstg. set (i := length (sims v0)) in *.
  assert (Hk : Forall keeps_data_set (Frame i :: evs)).
  { constructor; [done |]. eapply Forall_impl; [exact Hq |].
    apply quiet_keeps. }
  destruct (run_elements rev _ v v' Hk H) as (Egd & Eld & Elk).
  pose proof (FootprintFacts.run_writes forces phyllotaxis rev _ _ _ H)
    as Hw.
  destruct (FootprintFacts.writes_keeps_data _ _ Hw) as [Hkeep _].
  simpl in H.
  assert (Hp : placed i (frame forces i (set_noclick false v))).
  { eapply TickFacts.frame_places; [| exact Hs | exact Hrun]. exact Hsh. }
  destruct (TickFacts.run_keeps_placed forces phyllotaxis rev i evs _ v' Hq H Hp)
    as (_ & Hcur).
  (* the nodes on the page *)
  assert (Hvalid : forall a, a ∈ drawn ->
            exists n n', node_objs (store v) !! a = Some n /\
                         positioned n /\
                         node_objs (store v') !! a = Some n' /\
                         Node.dev n' = Node.dev n /\ positioned n').
  { intros a Ha. unfold drawn in Ha. rewrite Egd in Ha.
    apply list_elem_of_fmap in Ha as (g & -> & Hin).
    destruct Hstg as [Hgs _]. rewrite Forall_forall in Hgs.
    destruct (Hgs g Hin) as (_ & n & Hn & Hpos).
    destruct (Hkeep _ _ Hn) as (n' & Hn' & Hd').
    destruct (FootprintFacts.writes_positioned _ _ Hw _ _ Hn Hpos)
      as (n'' & Hn'' & Hpos').
    assert (n'' = n') as -> by congruence.
    by exists n, n'. }
  assert (Hin : forall a n, a ∈ Force.nodes sim0 ->
                  node_objs (store v) !! a = Some n -> a ∈ drawn).
  { intros a n Ha Hn. unfold drawn. rewrite Egd, Hgd.
    apply list_elem_of_filter. split; [by rewrite Hn | done]. }
  split.
  - rewrite <- Hdev, <- (arr_nodes_filter (store v) (Force.nodes sim0)), <- Hgd.
    rewrite <- Egd. fold drawn. unfold arr_nodes.
    apply LinkFacts.fmap_omap_ext_in, Forall_forall. intros a Ha.
    destruct (Hvalid a Ha) as (n & n' & -> & _ & -> & Hd & _).
    simpl. by rewrite Hd.
  - pose proof (Forall2_compose _ _ _ _ _ Hfound Hlines) as Hfl.
    assert (Hfl' : Forall2 (fun l a => exists d,
                       link_found (store v) (Force.nodes sim0) l d /\
                       link_objs (store v) !! a = Some d)
                     (arr_links (store (run_cleanup v0)) (links p))
                     (line_datum <$> lines v')).
    { rewrite Eld. by apply Forall2_fmap_r. }
    apply Forall2_fmap_r in Hfl'.
    pose proof (Forall2_and_r _ _ _ _ Hfl' Hcur) as Hboth.
    eapply Forall2_impl; [exact Hboth |].
    intros l ln [(d & (_ & Hsrc & Htgt) & Hd)
                 (d' & a & b & Hd' & Ha & Hb & E1 & E2 & E3 & E4)].
    rewrite Elk in Hd'. assert (d' = d) as -> by congruence.
    destruct Hsrc as (ki & a0 & n0 & Hli & Hda & Ha0 & Hn0 & Hid0).
    destruct Htgt as (kj & b0 & m0 & Hlj & Hdb & Hb0 & Hm0 & Hjd0).
    assert (a0 = a) as -> by congruence.
    assert (b0 = b) as -> by congruence.
    pose proof (Hin _ _ Ha0 Hn0) as Hada.
    pose proof (Hin _ _ Hb0 Hm0) as Hbdb.
    destruct (Hvalid a Hada) as (n & n' & Hn & _ & Hn' & Hdn & Hpn).
    destruct (Hvalid b Hbdb) as (m & m' & Hm & _ & Hm' & Hdm & Hpm).
    assert (n = n0) as -> by congruence.
    assert (m = m0) as -> by congruence.
    exists ki, kj, a, b, n', m'.
    rewrite E1, E2, E3, E4, Hn', Hm', Hdn, Hdm. done.
Qed.

End WithPhysics.

(** The theorem on the sample: rendered by the last revision, a frame,
    a drag of the first node with a frame in between, a click, another
    frame. *)
Lemma lines_follow_nodes_sample :
  let drawn := g_datum <$> groups Sample.played in
  Node.dev <$> arr_nodes (store Sample.played) drawn
  = Node.dev <$> arr_nodes Sample.caller (nodes Sample.good) /\
  Forall2 (line_follows (store Sample.played) drawn)
          (arr_links Sample.caller (links Sample.good))
          (lines Sample.played).
Proof.
  assert (H0 : Forall id_ends (arr_links Sample.caller (links Sample.good))).
  { repeat constructor. by eexists _, _. }
  assert (H1 : render Sample.row rev3 Sample.good (initial Sample.caller)
               = Ok Sample.rendered) by (vm_compute; reflexivity).
  assert (H2 : Forall (quiet (length (sims (initial Sample.caller))))
                      Sample.play).
  { repeat constructor. }
  assert (H3 : run Sample.still Sample.row rev3 Sample.rendered
                   (Frame (length (sims (initial Sample.caller)))
                      :: Sample.play) = Ok Sample.played)
    by (vm_compute; reflexivity).
  exact (lines_follow_nodes Sample.still Sample.row rev3 Sample.good
           (initial Sample.caller) Sample.rendered Sample.play Sample.played
           eq_refl H0 H1 H2 H3).
Qed.

(** ** The revisions that copy their props *)

Section Copies.

Variable forces : Force.Config -> Q -> list Force.Kin -> list (nat * nat)
  -> list Force.Kin.
Variable phyllotaxis : nat -> Q * Q.

(** The links of the caller keep the ids at their ends, whatever was
    rendered before. *)
Lemma copies_keep_ids rev s0 evs v ls :
  copies_props rev = true -> ids_only s0 ->
  run forces phyllotaxis rev (initial s0) evs = Ok v ->
  Forall (fun a => (a < length (link_objs s0))%nat) ls ->
  Forall id_ends (arr_links (store v) ls).
Proof.
  intros Hc Hids H Hls.
  destruct (CallerFacts.run_private forces phyllotaxis s0 rev evs _ _ Hc H
              (CallerFacts.initial_private s0)) as (Hun & _).
  rewrite (ClickFacts.arr_links_untouched s0 (store v) ls Hun Hls).
  apply Forall_forall. intros l Hl.
  apply list_elem_of_omap in Hl as (a & _ & Hl). by eapply Hids.
Qed.

(** So every data set of the caller's objects has its lines where its
    nodes are, at whatever point of the life of the component it is
    rendered. *)
Lemma copies_follow_nodes rev s0 evs0 v0 p v evs v' :
  copies_props rev = true -> ids_only s0 ->
  run forces phyllotaxis rev (initial s0) evs0 = Ok v0 ->
  Forall (fun a => (a < length (link_objs s0))%nat) (links p) ->
  guards_empty rev && Nat.eqb (length (nodes p)) 0 = false ->
  render phyllotaxis rev p v0 = Ok v ->
  Forall (quiet (length (sims v0))) evs ->
  run forces phyllotaxis rev v (Frame (length (sims v0)) :: evs) = Ok v' ->
  let drawn := g_datum <$> groups v' in
  Node.dev <$> arr_nodes (store v') drawn
  = Node.dev <$> arr_nodes (store v0) (nodes p) /\
  Forall2 (line_follows (store v') drawn)
          (arr_links (store v0) (links p)) (lines v').
Proof.
  intros Hc Hids H0 Hp Hg Hr Hq H.
  eapply lines_follow_nodes; try done.
  by eapply copies_keep_ids.
Qed.

End Copies.

(** C7 fails in the first revision.  The caller replaces the nodes by
    new objects and keeps the link.  The first revision gave the link
    object to d3, which wrote the node objects of the first data set
    into it, and the link force leaves an end that is an object as it
    is: after three ticks of the new simulation the line still runs
    from 1 to 11, where the first data set was left, while the nodes on
    the page are at 3 and 13.  The revisions that copy their props draw
    the line from 3 to 13. *)
Theorem resupplied_link_follows_old_nodes :
  let after rev :=
    run Cases.drift Sample.row rev (initial Cases.resupplied)
        Cases.replaced_nodes in
  observe Cases.line_ends (after rev1) = Some [(Some 1%Q, Some 11%Q)] /\
  observe Cases.group_xs (after rev1)
    = Some [(2%nat, Some 3%Q); (3%nat, Some 13%Q)] /\
  observe (fun v => (fun l => (LinkDatum.source l, LinkDatum.target l))
                      <$> link_objs (store v) !! 0%nat) (after rev1)
    = Some (Some (ERef 0, ERef 1)) /\
  observe Cases.line_ends (after rev2) = Some [(Some 3%Q, Some 13%Q)] /\
  observe Cases.group_xs (after rev2)
    = Some [(6%nat, Some 3%Q); (7%nat, Some 13%Q)] /\
  observe Cases.line_ends (after rev3) = Some [(Some 3%Q, Some 13%Q)] /\
  observe Cases.group_xs (after rev3)
    = Some [(6%nat, Some 3%Q); (7%nat, Some 13%Q)].
Proof. vm_compute. done. Qed.

End LineFacts.
